(** * AEON runtime: checkpoint codec, hypercall harness and guest shim

    A shallow embedding of
    - [src/runtime/checkpoint.hpp]  (namespace [checkpoint]),
    - [src/runtime/vh_harness.hpp]  (namespace [vh]),
    - [src/runtime/vh_preload.c]    (the guest LD_PRELOAD shim),
    followed by the properties the specification states about them and
    by further properties of the code.

    Conventions.  A w-bit unsigned integer is a [Z] in [0, 2^w); a signed
    one is a [Z] in [-2^(w-1), 2^(w-1)).  Raw memory is [list byte]; scalar
    fields are laid out little-endian ([le_split] / [le_combine]), which is
    what [memcpy] of a native integer gives on the targets of the project
    (x86-64, wasm32, riscv64).  Maps ([std::map]/[std::unordered_map]) are
    [gmap]s and are enumerated with [map_to_list]; no statement below
    depends on the order of that enumeration.  In checkpoint.hpp [size_t]
    is 64 bits wide (the native build); the harness distinguishes the two
    builds where the width matters.  A blob lies in the lower half of the
    address space and has fewer than 2^63 bytes; the allocator grants
    every vector within [max_size()]; libriscv and the JavaScript host are
    taken as given. *)

From Stdlib Require Import ZArith List Lia Bool Sorted.
From stdpp Require Import base gmap list.
From coqutil Require Import Byte Word.LittleEndianList.

#[local] Open Scope Z_scope.

(** ** Fixed-width integers *)

Definition is_u32 (v : Z) : Prop := 0 <= v < 2 ^ 32.
Definition is_u64 (v : Z) : Prop := 0 <= v < 2 ^ 64.
Definition is_i32 (v : Z) : Prop := - 2 ^ 31 <= v < 2 ^ 31.

(** [static_cast<uint32_t>], [static_cast<uint64_t>]. *)
Definition to_u32 (v : Z) : Z := v mod 2 ^ 32.
Definition to_u64 (v : Z) : Z := v mod 2 ^ 64.

(** Reinterpretation of a 32-bit (64-bit) pattern as [int32_t] ([long]). *)
Definition to_i32 (v : Z) : Z :=
  let u := v mod 2 ^ 32 in if u <? 2 ^ 31 then u else u - 2 ^ 32.
Definition to_i64 (v : Z) : Z :=
  let u := v mod 2 ^ 64 in if u <? 2 ^ 63 then u else u - 2 ^ 64.

(** [n] bytes starting at index [off] of a buffer. *)
Definition slice (l : list byte) (off : Z) (n : Z) : list byte :=
  take (Z.to_nat n) (drop (Z.to_nat off) l).

Definition zeros (n : nat) : list byte := repeat Byte.x00 n.

#[export] Instance byte_eq_dec : EqDecision byte := Byte.byte_eq_dec.

#[export] Instance byte_inhabited : Inhabited byte := populate Byte.x00.

(** * checkpoint.hpp *)

Module checkpoint.

(** ** Machine state reached by the checkpoint code *)

(** [machine.cpu] (libriscv): program counter, [fcsr().whole], x0..x31,
    f0..f31 (raw [i64] view). *)
Record Cpu := mkCpu {
  pc : Z;
  fcsr : Z;
  reg : list Z;
  fl : list Z
}.

(** [riscv::PageAttributes] (libriscv), the three regular attributes. *)
Record PageAttributes := mkAttr {
  read : bool;
  write : bool;
  exec : bool
}.

(** [machine.memory] (libriscv): the mmap pointer, the page table (page
    number to attributes), the flat arena and the cached execute segments
    that [evict_execute_segments] drops. *)
Record Memory := mkMemory {
  mmap_address : Z;
  pages : gmap Z PageAttributes;
  arena : list byte;
  execute_segments : list Z
}.

(** Modelled from the spec: the type of [syscalls::g_exec_ctx], declared
    in syscalls.hpp, which is not among the sources.  The fields are the
    ones checkpoint.hpp reads and writes, with the widths it emits them
    at; they are the ExecContext and the heap pointers of the data
    model. *)
Record ExecContext := mkExecContext {
  brk_base : Z;
  brk_current : Z;
  exec_base : Z;
  exec_rw_start : Z;
  exec_rw_end : Z;
  interp_base : Z;
  interp_rw_start : Z;
  interp_rw_end : Z;
  interp_entry : Z;
  original_stack_top : Z;
  heap_start : Z;
  heap_size : Z;
  brk_overridden : bool;
  dynamic : bool
}.

(** Modelled from the spec: one watched descriptor of an epoll instance,
    [{events, data}] (event mask and opaque user tag), declared in
    syscalls.hpp. *)
Record EpollInterest := mkInterest {
  events : Z;
  data : Z
}.

(** Modelled from the spec: an epoll instance (syscalls.hpp), as far as
    the checkpoint code reads and writes it: the map from watched
    descriptor to interest. *)
Record EpollInstance := mkInstance {
  interests : gmap Z EpollInterest
}.

(** Modelled from the spec: the globals of namespace [syscalls]
    (syscalls.hpp) that the checkpoint code touches, the emulated-kernel
    state of the data model.  [g_sched] is the object representation of
    the scheduler, an opaque fixed-layout block: [sizeof(g_sched)] is the
    length of that list.  Descriptor ids are [int], counters 64-bit. *)
Record Syscalls := mkSyscalls {
  g_exec_ctx : ExecContext;
  g_sched : list byte;
  g_next_pid : Z;
  g_next_epoll_fd : Z;
  g_epoll_instances : gmap Z EpollInstance;
  g_eventfd_counters : gmap Z Z;
  g_waiting_for_stdin : bool
}.

(** Everything live: the [Machine&] argument and the process-wide globals. *)
Record State := mkState {
  cpu : Cpu;
  memory : Memory;
  sys : Syscalls
}.

(** Lines written to [stderr] by [load_checkpoint]. *)
Inductive diag :=
| restored_epoll (n : Z)
| restored_eventfd (n : Z)
| chunk_exceeds (guest_addr len arena_size : Z)
| restored_exec_pages (n : Z)
| loaded (chunks_read total_data pc : Z)
| loaded_mm (mmap_addr brk_base brk_current : Z).

(** ** Constants *)

Definition MAGIC : list byte :=
  [Byte.x46; Byte.x52; Byte.x49; Byte.x53; Byte.x43; Byte.x59; Byte.x43; Byte.x4b].
Definition VERSION : Z := 2.
Definition CHUNK_SIZE : Z := 65536.
Definition SENTINEL_ADDR : Z := 18446744073709551615.

(** ** Writing: [emit], [emit_val] *)

Definition emit (out : list byte) (data : list byte) : list byte := out ++ data.

(** [emit_val<T>(out, val)] with [sizeof(T) = w]. *)
Definition emit_val (w : nat) (out : list byte) (val : Z) : list byte :=
  emit out (le_split w val).

Definition bool_to_Z (b : bool) : Z := if b then 1 else 0.

(** ** save_checkpoint *)

(** Lines 77-80. *)
Definition save_header (out : list byte) : list byte :=
  let out := emit out MAGIC in
  let out := emit_val 4 out VERSION in
  emit_val 4 out 0.

(** Lines 82-100: pc, fcsr, pad, x0..x31, f0..f31. *)
Definition save_cpu (out : list byte) (c : Cpu) : list byte :=
  let out := emit_val 8 out (pc c) in
  let out := emit_val 4 out (fcsr c) in
  let out := emit_val 4 out 0 in
  let out := foldl (fun out i => emit_val 8 out (reg c !!! i)) out (seq 0 32) in
  foldl (fun out i => emit_val 8 out (fl c !!! i)) out (seq 0 32).

(** Lines 102-131: mmap address, brk, exec context, flags, six pad bytes. *)
Definition save_exec_ctx (out : list byte) (mmap_addr : Z) (x : ExecContext) : list byte :=
  let out := emit_val 8 out mmap_addr in
  let out := emit_val 8 out (brk_base x) in
  let out := emit_val 8 out (brk_current x) in
  let out := emit_val 8 out (exec_base x) in
  let out := emit_val 8 out (exec_rw_start x) in
  let out := emit_val 8 out (exec_rw_end x) in
  let out := emit_val 8 out (interp_base x) in
  let out := emit_val 8 out (interp_rw_start x) in
  let out := emit_val 8 out (interp_rw_end x) in
  let out := emit_val 8 out (interp_entry x) in
  let out := emit_val 8 out (original_stack_top x) in
  let out := emit_val 8 out (heap_start x) in
  let out := emit_val 8 out (heap_size x) in
  let out := emit_val 1 out (bool_to_Z (brk_overridden x)) in
  let out := emit_val 1 out (bool_to_Z (dynamic x)) in
  foldl (fun out (_ : nat) => emit_val 1 out 0) out (seq 0 6).

(** Lines 133-137: raw scheduler block and the two counters. *)
Definition save_sched (out : list byte) (s : Syscalls) : list byte :=
  let out := emit out (g_sched s) in
  let out := emit_val 4 out (g_next_pid s) in
  emit_val 4 out (g_next_epoll_fd s).

(** Lines 144-148: the interests of one instance. *)
Definition save_interests (out : list byte) (m : gmap Z EpollInterest) : list byte :=
  foldl (fun out e =>
           let out := emit_val 4 out (fst e) in
           let out := emit_val 4 out (events (snd e)) in
           emit_val 8 out (data (snd e)))
        out (map_to_list m).

(** Lines 139-149. *)
Definition save_epoll (out : list byte) (m : gmap Z EpollInstance) : list byte :=
  let out := emit_val 4 out (to_u32 (Z.of_nat (size m))) in
  foldl (fun out e =>
           let out := emit_val 4 out (fst e) in
           let out := emit_val 4 out (to_u32 (Z.of_nat (size (interests (snd e))))) in
           save_interests out (interests (snd e)))
        out (map_to_list m).

(** Lines 151-156. *)
Definition save_eventfd (out : list byte) (m : gmap Z Z) : list byte :=
  let out := emit_val 4 out (to_u32 (Z.of_nat (size m))) in
  foldl (fun out e => emit_val 8 (emit_val 4 out (fst e)) (snd e)) out (map_to_list m).

(** Lines 160-165: page numbers whose attributes have [exec] set. *)
Definition collect_exec_pages (pg : gmap Z PageAttributes) : list Z :=
  foldl (fun acc e => if exec (snd e) then acc ++ [to_u64 (fst e)] else acc)
        [] (map_to_list pg).

(** Lines 166-169. *)
Definition save_exec_pages (out : list byte) (exec_pages : list Z) : list byte :=
  let out := emit_val 8 out (Z.of_nat (length exec_pages)) in
  foldl (fun out pn => emit_val 8 out pn) out exec_pages.

(** Lines 181-188: the 64-bit words of the window at [offset] are all zero. *)
Definition chunk_all_zero (arena : list byte) (offset : Z) : bool :=
  forallb (fun q => le_combine (slice arena (offset + 8 * Z.of_nat q) 8) =? 0)
          (seq 0 (Z.to_nat (CHUNK_SIZE / 8))).

(** Lines 206-209: the bytes of the tail are all zero. *)
Definition tail_all_zero (tail : list byte) : bool :=
  forallb (fun b => byte.unsigned b =? 0) tail.

(** Lines 179-199, the loop over full windows.  Every iteration advances
    [offset] by [CHUNK_SIZE], so [length arena] iterations are never
    exhausted before the loop condition fails. *)
Fixpoint save_full_chunks (fuel : nat) (arena : list byte) (offset : Z)
  (out : list byte) : list byte :=
  match fuel with
  | O => out
  | S fuel' =>
      if offset + CHUNK_SIZE <=? Z.of_nat (length arena) then
        if chunk_all_zero arena offset then
          save_full_chunks fuel' arena (offset + CHUNK_SIZE) out
        else
          let out := emit_val 8 out offset in
          let out := emit_val 8 out CHUNK_SIZE in
          let out := emit out (slice arena offset CHUNK_SIZE) in
          save_full_chunks fuel' arena (offset + CHUNK_SIZE) out
      else out
  end.

(** Lines 201-217, the trailing partial window. *)
Definition save_tail (arena : list byte) (out : list byte) : list byte :=
  let arena_size := Z.of_nat (length arena) in
  let tail_offset := (arena_size / CHUNK_SIZE) * CHUNK_SIZE in
  if tail_offset <? arena_size then
    let tail_len := arena_size - tail_offset in
    let tail := slice arena tail_offset tail_len in
    if negb (tail_all_zero tail) then
      let out := emit_val 8 out tail_offset in
      let out := emit_val 8 out tail_len in
      emit out tail
    else out
  else out.

(** Lines 219-221. *)
Definition save_sentinel (out : list byte) : list byte :=
  let out := emit_val 8 out SENTINEL_ADDR in
  emit_val 8 out 0.

(** Lines 172-221: the sparse encoding of the arena. *)
Definition save_arena (out : list byte) (arena : list byte) : list byte :=
  let out := save_full_chunks (length arena) arena 0 out in
  let out := save_tail arena out in
  save_sentinel out.

(** [save_checkpoint(machine)], lines 73-227.  The two [fprintf]s only
    report counters and are left out. *)
Definition save_checkpoint (m : State) : list byte :=
  let out := [] in
  let out := save_header out in
  let out := save_cpu out (cpu m) in
  let out := save_exec_ctx out (mmap_address (memory m)) (g_exec_ctx (sys m)) in
  let out := save_sched out (sys m) in
  let out := save_epoll out (g_epoll_instances (sys m)) in
  let out := save_eventfd out (g_eventfd_counters (sys m)) in
  let out := save_exec_pages out (collect_exec_pages (pages (memory m))) in
  save_arena out (arena (memory m)).


(** ** Reading: [struct Reader] *)

(** What [load_checkpoint] can raise: its three [std::runtime_error]s,
    and the [std::length_error] of the vector of executable pages. *)
Inductive exn :=
| unexpected_EOF
| bad_magic
| unsupported_version (version : Z)
| length_error.

(** Outcome of a computation: a value, a C++ exception, or a [memcpy]
    that leaves its buffers - the destination is not inside the arena, or
    the source runs past the blob - which is undefined in the source. *)
Inductive result (A : Type) :=
| Ok (a : A)
| Throw (e : exn)
| OutOfBounds.
Arguments Ok {A} a.
Arguments Throw {A} e.
Arguments OutOfBounds {A}.

(** The reader [r] is the bytes between [r.p] and [r.end]; [live] is what
    an exception leaves behind; [stderr] collects the diagnostics. *)
Record World := mkWorld {
  r : list byte;
  live : State;
  stderr : list diag
}.

Definition prog (A : Type) : Type := World -> result A * World.

#[export] Instance prog_ret : MRet prog := fun A a w => (Ok a, w).

#[export] Instance prog_bind : MBind prog := fun A B k c w =>
  match c w with
  | (Ok a, w') => k a w'
  | (Throw e, w') => (Throw e, w')
  | (OutOfBounds, w') => (OutOfBounds, w')
  end.

Definition throw {A : Type} (e : exn) : prog A := fun w => (Throw e, w).

Definition out_of_bounds {A : Type} : prog A := fun w => (OutOfBounds, w).

Definition fprintf (d : diag) : prog unit := fun w =>
  (Ok tt, mkWorld (r w) (live w) (stderr w ++ [d])).

Definition get_live : prog State := fun w => (Ok (live w), w).

Definition set_cpu (f : Cpu -> Cpu) : prog unit := fun w =>
  (Ok tt, mkWorld (r w) (mkState (f (cpu (live w))) (memory (live w)) (sys (live w))) (stderr w)).

Definition set_memory (f : Memory -> Memory) : prog unit := fun w =>
  (Ok tt, mkWorld (r w) (mkState (cpu (live w)) (f (memory (live w))) (sys (live w))) (stderr w)).

Definition set_sys (f : Syscalls -> Syscalls) : prog unit := fun w =>
  (Ok tt, mkWorld (r w) (mkState (cpu (live w)) (memory (live w)) (f (sys (live w)))) (stderr w)).

(** [r.remaining()]. *)
Definition remaining : prog Z := fun w => (Ok (Z.of_nat (length (r w))), w).

(** Lines 52-59, the body of [r.read<T>()] for [sizeof(T) = n]: the test
    [p + sizeof(T) > end], the [memcpy] and the advance of [p].
    [sizeof(T)] is 1, 4 or 8 in this file, so that the pointer sum of the
    test is the address it stands for. *)
Definition read_bytes (n : Z) : prog (list byte) := fun w =>
  if Z.of_nat (length (r w)) <? n then (Throw unexpected_EOF, w)
  else (Ok (slice (r w) 0 n),
        mkWorld (drop (Z.to_nat n) (r w)) (live w) (stderr w)).

(** [r.read<T>()] for an unsigned [T] of [w] bytes. *)
Definition read_val (w : nat) : prog Z :=
  bs ← read_bytes (Z.of_nat w); mret (le_combine bs).

(** Lines 61-65, [r.read_into(dst, len)], returning the bytes copied to
    [dst].  The test is [p + len > end] on pointers.  The blob lies in the
    lower half of the address space, so that for [len < 2^63] the sum is
    the address it stands for and the test compares [len] with what
    remains.  For a larger [len] - which can only come from a record
    header of the blob - the sum may wrap around and pass the test, and
    [memcpy] then reads past the blob: whether it does depends on the
    address of the blob, and the outcome is taken as undefined. *)
Definition read_into (len : Z) : prog (list byte) := fun w =>
  if Z.of_nat (length (r w)) <? len then
    if len <? 2 ^ 63 then (Throw unexpected_EOF, w) else (OutOfBounds, w)
  else (Ok (slice (r w) 0 len),
        mkWorld (drop (Z.to_nat len) (r w)) (live w) (stderr w)).

(** [r.read<int32_t>()]. *)
Definition read_i32 : prog Z :=
  v ← read_val 4; mret (to_i32 v).

(** [for (i = 0; i < n; i++) a[i] = r.read<T>()]. *)
Fixpoint read_array (n : nat) (w : nat) : prog (list Z) :=
  match n with
  | O => mret []
  | S n' => v ← read_val w; vs ← read_array n' w; mret (v :: vs)
  end.

(** [r.p += len]. *)
Definition skip (len : Z) : prog unit := fun w =>
  (Ok tt, mkWorld (drop (Z.to_nat len) (r w)) (live w) (stderr w)).

(** ** load_checkpoint *)

(** The locals that hold parsed fields until the restore at the end. *)
Record Locals := mkLocals {
  l_pc : Z;
  l_fcsr : Z;
  l_int_regs : list Z;
  l_fp_regs : list Z;
  l_mmap_addr : Z;
  l_brk_base : Z;
  l_brk_current : Z;
  l_exec_base : Z;
  l_exec_rw_start : Z;
  l_exec_rw_end : Z;
  l_interp_base : Z;
  l_interp_rw_start : Z;
  l_interp_rw_end : Z;
  l_interp_entry : Z;
  l_original_stack_top : Z;
  l_heap_start : Z;
  l_heap_size : Z;
  l_brk_overridden : Z;
  l_dynamic : Z
}.

(** Lines 248-258. *)
Definition load_header : prog unit :=
  magic ← read_into 8;
  if negb (bool_decide (magic = MAGIC)) then throw bad_magic
  else
    version ← read_val 4;
    if negb (version =? VERSION) then throw (unsupported_version version)
    else
      _ ← read_val 4;
      mret tt.

(** Lines 260-294: every field goes to a local. *)
Definition load_locals : prog Locals :=
  pc ← read_val 8;
  fcsr ← read_val 4;
  _ ← read_val 4;
  int_regs ← read_array 32 8;
  fp_regs ← read_array 32 8;
  mmap_addr ← read_val 8;
  brk_base ← read_val 8;
  brk_current ← read_val 8;
  exec_base ← read_val 8;
  exec_rw_start ← read_val 8;
  exec_rw_end ← read_val 8;
  interp_base ← read_val 8;
  interp_rw_start ← read_val 8;
  interp_rw_end ← read_val 8;
  interp_entry ← read_val 8;
  original_stack_top ← read_val 8;
  heap_start ← read_val 8;
  heap_size ← read_val 8;
  brk_overridden ← read_val 1;
  dynamic ← read_val 1;
  _ ← read_array 6 1;
  mret (mkLocals pc fcsr int_regs fp_regs mmap_addr brk_base brk_current
          exec_base exec_rw_start exec_rw_end interp_base interp_rw_start
          interp_rw_end interp_entry original_stack_top heap_start heap_size
          brk_overridden dynamic).

Definition with_sched (v : list byte) (s : Syscalls) : Syscalls :=
  mkSyscalls (g_exec_ctx s) v (g_next_pid s) (g_next_epoll_fd s)
    (g_epoll_instances s) (g_eventfd_counters s) (g_waiting_for_stdin s).

Definition with_next_pid (v : Z) (s : Syscalls) : Syscalls :=
  mkSyscalls (g_exec_ctx s) (g_sched s) v (g_next_epoll_fd s)
    (g_epoll_instances s) (g_eventfd_counters s) (g_waiting_for_stdin s).

Definition with_next_epoll_fd (v : Z) (s : Syscalls) : Syscalls :=
  mkSyscalls (g_exec_ctx s) (g_sched s) (g_next_pid s) v
    (g_epoll_instances s) (g_eventfd_counters s) (g_waiting_for_stdin s).

Definition with_epoll_instances (f : gmap Z EpollInstance -> gmap Z EpollInstance)
  (s : Syscalls) : Syscalls :=
  mkSyscalls (g_exec_ctx s) (g_sched s) (g_next_pid s) (g_next_epoll_fd s)
    (f (g_epoll_instances s)) (g_eventfd_counters s) (g_waiting_for_stdin s).

Definition with_eventfd_counters (f : gmap Z Z -> gmap Z Z) (s : Syscalls) : Syscalls :=
  mkSyscalls (g_exec_ctx s) (g_sched s) (g_next_pid s) (g_next_epoll_fd s)
    (g_epoll_instances s) (f (g_eventfd_counters s)) (g_waiting_for_stdin s).

Definition with_exec_ctx (x : ExecContext) (s : Syscalls) : Syscalls :=
  mkSyscalls x (g_sched s) (g_next_pid s) (g_next_epoll_fd s)
    (g_epoll_instances s) (g_eventfd_counters s) (g_waiting_for_stdin s).

Definition with_waiting_for_stdin (b : bool) (s : Syscalls) : Syscalls :=
  mkSyscalls (g_exec_ctx s) (g_sched s) (g_next_pid s) (g_next_epoll_fd s)
    (g_epoll_instances s) (g_eventfd_counters s) b.

(** Lines 296-299: the scheduler block and the counters are read straight
    into the globals; [sizeof(g_sched)] is the size of the live object. *)
Definition load_sched : prog unit :=
  s ← get_live;
  bs ← read_into (Z.of_nat (length (g_sched (sys s))));
  set_sys (with_sched bs);;
  pid ← read_i32;
  set_sys (with_next_pid pid);;
  efd ← read_i32;
  set_sys (with_next_epoll_fd efd).

(** [auto& inst = g_epoll_instances[epfd]]: the entry is created empty when
    it does not exist. *)
Definition touch_instance (epfd : Z) (m : gmap Z EpollInstance) : gmap Z EpollInstance :=
  match m !! epfd with
  | Some _ => m
  | None => <[epfd := mkInstance ∅]> m
  end.

(** [inst.interests[fd] = {events, data}], through the reference [inst]. *)
Definition set_interest (epfd fd : Z) (i : EpollInterest) (m : gmap Z EpollInstance)
  : gmap Z EpollInstance :=
  alter (fun inst => mkInstance (<[fd := i]> (interests inst))) epfd m.

(** Lines 309-314. *)
Fixpoint load_interests (n : nat) (epfd : Z) : prog unit :=
  match n with
  | O => mret tt
  | S n' =>
      fd ← read_i32;
      events ← read_val 4;
      data ← read_val 8;
      set_sys (with_epoll_instances (set_interest epfd fd (mkInterest events data)));;
      load_interests n' epfd
  end.

(** Lines 305-315. *)
Fixpoint load_instances (n : nat) : prog unit :=
  match n with
  | O => mret tt
  | S n' =>
      epfd ← read_i32;
      num_interests ← read_val 4;
      set_sys (with_epoll_instances (touch_instance epfd));;
      load_interests (Z.to_nat num_interests) epfd;;
      load_instances n'
  end.

(** Lines 301-317. *)
Definition load_epoll : prog unit :=
  num_epoll ← read_val 4;
  set_sys (with_epoll_instances (fun _ => ∅));;
  load_instances (Z.to_nat num_epoll);;
  fprintf (restored_epoll num_epoll).

(** Lines 323-327. *)
Fixpoint load_counters (n : nat) : prog unit :=
  match n with
  | O => mret tt
  | S n' =>
      fd ← read_i32;
      counter ← read_val 8;
      set_sys (with_eventfd_counters (insert fd counter));;
      load_counters n'
  end.

(** Lines 319-329. *)
Definition load_eventfd : prog unit :=
  num_eventfd ← read_val 4;
  set_sys (with_eventfd_counters (fun _ => ∅));;
  load_counters (Z.to_nat num_eventfd);;
  fprintf (restored_eventfd num_eventfd).

(** [std::vector<uint64_t>::max_size()] where [size_t] has 64 bits:
    [PTRDIFF_MAX / sizeof(uint64_t)], the value of libstdc++. *)
Definition max_size : Z := 2 ^ 60 - 1.

(** Line 333, [std::vector<uint64_t> exec_pages(num_exec_pages)]: a count
    above [max_size()] raises [std::length_error] before any page is
    read; a vector within [max_size()] is taken to be granted by the
    allocator.  A blob has fewer than 2^63 bytes and never holds the
    pages that a count above [max_size()] announces, so the second test
    is true of every blob; it only leaves the outcome to the reads on
    the longer lists that the model admits. *)
Definition alloc_exec_pages (num_exec_pages : Z) : prog unit :=
  rem ← remaining;
  if (num_exec_pages >? max_size) && (rem <? 8 * num_exec_pages)
  then throw length_error
  else mret tt.

(** Lines 331-336. *)
Definition load_exec_pages : prog (list Z) :=
  num_exec_pages ← read_val 8;
  alloc_exec_pages num_exec_pages;;
  read_array (Z.to_nat num_exec_pages) 8.

Definition with_arena (a : list byte) (m : Memory) : Memory :=
  mkMemory (mmap_address m) (pages m) a (execute_segments m).

Definition with_pages (f : gmap Z PageAttributes -> gmap Z PageAttributes)
  (m : Memory) : Memory :=
  mkMemory (mmap_address m) (f (pages m)) (arena m) (execute_segments m).

Definition with_mmap_address (v : Z) (m : Memory) : Memory :=
  mkMemory v (pages m) (arena m) (execute_segments m).

(** [machine.memory.evict_execute_segments()] (libriscv): the decoder
    cache is dropped. *)
Definition evict_execute_segments (m : Memory) : Memory :=
  mkMemory (mmap_address m) (pages m) (arena m) [].

(** [std::memset(arena, 0, arena_size)]. *)
Definition memset_arena (m : Memory) : Memory :=
  with_arena (zeros (length (arena m))) m.

(** [memcpy(arena + guest_addr, p, len)] with the [len] bytes [bs]: defined
    only when the destination lies inside the arena. *)
Definition memcpy_arena (guest_addr : Z) (bs : list byte) : prog unit := fun w =>
  let a := arena (memory (live w)) in
  if guest_addr + Z.of_nat (length bs) <=? Z.of_nat (length a) then
    set_memory (with_arena (take (Z.to_nat guest_addr) a ++ bs ++
                            drop (Z.to_nat guest_addr + length bs) a)) w
  else out_of_bounds w.

(** Lines 351-368, the chunk loop.  An iteration that goes round again has
    consumed at least the 16 header bytes, so a fuel of [length r] is never
    used up while [r.remaining() >= 16].  The counters only feed the last
    [fprintf]; they are kept as mathematical integers. *)
Fixpoint load_chunks (fuel : nat) (chunks_read total_data : Z) : prog (Z * Z) :=
  match fuel with
  | O => mret (chunks_read, total_data)
  | S fuel' =>
      rem ← remaining;
      if rem <? 16 then mret (chunks_read, total_data)
      else
        guest_addr ← read_val 8;
        len ← read_val 8;
        if guest_addr =? SENTINEL_ADDR then mret (chunks_read, total_data)
        else
          s ← get_live;
          let arena_size := Z.of_nat (length (arena (memory s))) in
          if to_u64 (guest_addr + len) >? arena_size then
            fprintf (chunk_exceeds guest_addr len arena_size);;
            rem ← remaining;
            (if len <=? rem then skip len else mret tt);;
            load_chunks fuel' chunks_read total_data
          else
            bs ← read_into len;
            memcpy_arena guest_addr bs;;
            load_chunks fuel' (chunks_read + 1) (total_data + len)
  end.

(** Lines 338-368: evict the decoder cache, zero the arena, apply chunks. *)
Definition load_arena : prog (Z * Z) :=
  set_memory evict_execute_segments;;
  set_memory memset_arena;;
  rem ← remaining;
  load_chunks (Z.to_nat rem) 0 0.

(** [machine.memory.set_pageno_attr(pageno, attr)] (libriscv): the page
    gets these attributes, and an entry in the page table if it had none. *)
Definition set_pageno_attr (pageno : Z) (attr : PageAttributes)
  (pg : gmap Z PageAttributes) : gmap Z PageAttributes :=
  <[pageno := attr]> pg.

Definition exec_attr : PageAttributes := mkAttr true false true.

(** Lines 370-378. *)
Definition restore_exec_pages (exec_pages : list Z) : prog unit :=
  set_memory (with_pages (fun pg =>
    foldl (fun pg pageno => set_pageno_attr pageno exec_attr pg) pg exec_pages));;
  fprintf (restored_exec_pages (Z.of_nat (length exec_pages))).

(** Lines 380-386: [reg(i) = int_regs[i]], [getfl(i).i64 = fp_regs[i]],
    [fcsr], then [jump(pc)], which sets the program counter (libriscv
    raises on a misaligned target; a saved pc is aligned). *)
Definition restore_cpu (l : Locals) (c : Cpu) : Cpu :=
  let regs := foldl (fun rs i => <[i := l_int_regs l !!! i]> rs) (reg c) (seq 0 32) in
  let fls := foldl (fun fs i => <[i := l_fp_regs l !!! i]> fs) (fl c) (seq 0 32) in
  mkCpu (l_pc l) (l_fcsr l) regs fls.

(** Lines 392-405, one assignment per field. *)
Definition restore_exec_ctx (l : Locals) : ExecContext :=
  mkExecContext (l_brk_base l) (l_brk_current l) (l_exec_base l)
    (l_exec_rw_start l) (l_exec_rw_end l) (l_interp_base l)
    (l_interp_rw_start l) (l_interp_rw_end l) (l_interp_entry l)
    (l_original_stack_top l) (l_heap_start l) (l_heap_size l)
    (negb (l_brk_overridden l =? 0)) (negb (l_dynamic l =? 0)).

(** Lines 370-414: everything after the chunk loop. *)
Definition restore (l : Locals) (exec_pages : list Z) (counters : Z * Z) : prog unit :=
  restore_exec_pages exec_pages;;
  set_cpu (restore_cpu l);;
  set_memory (with_mmap_address (l_mmap_addr l));;
  set_sys (with_exec_ctx (restore_exec_ctx l));;
  set_sys (with_waiting_for_stdin true);;
  fprintf (loaded (fst counters) (snd counters) (l_pc l));;
  fprintf (loaded_mm (l_mmap_addr l) (l_brk_base l) (l_brk_current l)).

(** Lines 248-336: header, locals, and the sections parsed into the
    globals, up to the executable-page list. *)
Definition load_sections : prog (Locals * list Z) :=
  load_header;;
  l ← load_locals;
  load_sched;;
  load_epoll;;
  load_eventfd;;
  exec_pages ← load_exec_pages;
  mret (l, exec_pages).

(** Lines 248-368: everything up to and including the chunk loop. *)
Definition load_until_arena : prog (Locals * list Z * (Z * Z)) :=
  le ← load_sections;
  counters ← load_arena;
  mret (le, counters).

(** [load_checkpoint(machine, data, size)], lines 245-415. *)
Definition load_checkpoint : prog unit :=
  x ← load_until_arena;
  restore (fst (fst x)) (snd (fst x)) (snd x).

(** The world in which [load_checkpoint(machine, data, size)] starts. *)
Definition start (data : list byte) (s : State) : World := mkWorld data s [].

End checkpoint.

(** * vh_harness.hpp *)

Module vh.

(** Guest memory, byte-addressed. *)
Definition memory : Type := Z -> byte.

(** A [void*] handed to a host primitive: null, a bounded view of guest
    memory at a guest address, or a host-side string ([c_str()]). *)
Inductive hostbuf :=
| nullptr
| view (a : Z)
| cstr (s : list byte).

(** libriscv's guest-memory accessors.  They belong to the emulator core,
    not to this repository, and are taken as given; [None] is libriscv
    raising its [MachineException]. *)
Record Libriscv := mkLibriscv {
  memstring : memory -> Z -> option (list byte);
  memarray : memory -> Z -> Z -> Z -> option hostbuf;
  write_i64 : memory -> Z -> Z -> option memory
}.

(** The host primitives ([extern "C"], implemented in JavaScript).  Each
    returns a [long]; those that receive a view may write through it.
    [js_dns_resolve] also returns the bytes it stores at the start of
    [ip_buf]; [js_gettime_ms] is the reading of the host's clock, which
    the caller receives as a [long]. *)
Record Host := mkHost {
  js_opfs_io : Z -> hostbuf -> Z -> Z -> Z -> memory -> Z * memory;
  js_net_proxy : Z -> hostbuf -> Z -> Z -> hostbuf -> Z -> memory -> Z * memory;
  js_dns_resolve : list byte -> Z -> Z -> Z -> Z * list byte;
  js_compute_offload : Z -> hostbuf -> Z -> hostbuf -> Z -> memory -> Z * memory;
  js_gettime_ms : Z
}.

(** Lines 52-62: the native stubs; [now] is what [clock_gettime] yields,
    in milliseconds. *)
Definition native_stubs (now : Z) : Host :=
  mkHost (fun _ _ _ _ _ m => (-38, m))
         (fun _ _ _ _ _ _ m => (-38, m))
         (fun _ _ _ _ => (-38, []))
         (fun _ _ _ _ _ m => (-38, m))
         now.

(** Lines 58-62, the native [js_gettime_ms]: [clock_gettime] has filled
    [ts] with [tv_sec] and [tv_nsec]; the arithmetic is that of a 64-bit
    [long]. *)
Definition clock_gettime_ms (tv_sec tv_nsec : Z) : Z :=
  to_i64 (tv_sec * 1000 + Z.quot tv_nsec 1000000).

(** The two builds selected by [#ifdef __EMSCRIPTEN__]. *)
Inductive Build :=
| Emscripten (js : Host)
| Native (now : Z).

Definition host_of (b : Build) : Host :=
  match b with
  | Emscripten js => js
  | Native now => native_stubs now
  end.

Definition is_emscripten (b : Build) : bool :=
  match b with
  | Emscripten _ => true
  | Native _ => false
  end.

(** [size_t], [uintptr_t] and [long] are 32 bits wide on wasm32 and 64 bits
    wide natively. *)
Definition to_size_t (b : Build) (v : Z) : Z :=
  if is_emscripten b then to_u32 v else to_u64 v.
Definition to_long (b : Build) (v : Z) : Z :=
  if is_emscripten b then to_i32 v else to_i64 v.

(** The machine as a handler sees it: argument registers a0..a7 and guest
    memory. *)
Record Machine := mkMachine {
  a : list Z;
  mem : memory
}.

(** [m.sysarg(i)] and [m.sysarg<int>(i)]. *)
Definition sysarg (m : Machine) (i : nat) : Z := a m !!! i.
Definition sysarg_int (m : Machine) (i : nat) : Z := to_i32 (a m !!! i).

(** How a handler ends: it has called [m.set_result(v)] once and returned,
    leaving guest memory [mem'], or an exception left it, or it has read
    past the end of a host array (undefined in the source). *)
Inductive outcome :=
| set_result (v : Z) (mem' : memory)
| raised
| overrun.

(** The register file after the handler: a0 holds the result. *)
Definition result_register (v : Z) : Z := to_u64 v.

(** [std::memmove(dest, src, len)] on two views. *)
Definition host_memmove (dest src len : Z) (m : memory) : memory :=
  fun x => if (dest <=? x) && (x <? dest + len) then m (src + (x - dest)) else m x.

(** [memcpy(result_buf, ip_buf, n)] through a view. *)
Definition host_memcpy (dest : Z) (bs : list byte) (m : memory) : memory :=
  fun x => if (dest <=? x) && (x <? dest + Z.of_nat (length bs))
           then bs !!! Z.to_nat (x - dest) else m x.

(** Line 195, [char ip_buf[64] = {0}], once the host has stored [stored]
    at its start: the array keeps its 64 bytes, and what the host did not
    write is still zero.  The host is handed the size; one that writes
    further is outside the model. *)
Definition ip_buf_after (stored : list byte) : list byte :=
  take 64 stored ++ replicate (64 - length stored) Byte.x00.

(** [strlen] on a host array: the index of its first NUL.  [None] when
    the array holds no NUL: [strlen] then reads past its end. *)
Fixpoint strlen (bs : list byte) : option nat :=
  match bs with
  | [] => None
  | b :: t => if bool_decide (b = Byte.x00) then Some 0%nat else S <$> strlen t
  end.

Section Handlers.

Variable L : Libriscv.
Variable b : Build.

(** [inet_ntop(AF_INET, ...)] and [ntohs] applied to the [sockaddr_in] seen
    through a view (libc, taken as given). *)
Variable inet_ntop : memory -> Z -> list byte.
Variable sin_port : memory -> Z -> Z.

(** A handler of the shape
    [auto [fd, buf_addr, len] = m.sysargs<int, addr_t, size_t>();
     auto* buf = m.memory.memarray<uint8_t>(buf_addr, len);
     m.set_result(prim(fd, buf, len))]. *)
Definition with_buffer (m : Machine) (buf_addr len : Z)
  (k : hostbuf -> Z * memory) : outcome :=
  match memarray L (mem m) 1 buf_addr len with
  | None => raised
  | Some buf => let '(v, mem') := k buf in set_result v mem'
  end.

(** 600: open. *)
Definition h600 (m : Machine) : outcome :=
  match memstring L (mem m) (sysarg m 0) with
  | None => raised
  | Some path =>
      let '(v, mem') := js_opfs_io (host_of b) 0 (cstr path) (Z.of_nat (length path)) 600 0 (mem m) in
      set_result v mem'
  end.

(** 601: write. *)
Definition h601 (m : Machine) : outcome :=
  let fd := sysarg_int m 0 in
  let buf_addr := sysarg m 1 in
  let len := to_size_t b (sysarg m 2) in
  with_buffer m buf_addr len (fun buf => js_opfs_io (host_of b) fd buf len 601 0 (mem m)).

(** 602: read. *)
Definition h602 (m : Machine) : outcome :=
  let fd := sysarg_int m 0 in
  let buf_addr := sysarg m 1 in
  let len := to_size_t b (sysarg m 2) in
  with_buffer m buf_addr len (fun buf => js_opfs_io (host_of b) fd buf len 602 0 (mem m)).

(** 603: close. *)
Definition h603 (m : Machine) : outcome :=
  let '(v, mem') := js_opfs_io (host_of b) (sysarg_int m 0) nullptr 0 603 0 (mem m) in
  set_result v mem'.

(** 604: pread. *)
Definition h604 (m : Machine) : outcome :=
  let fd := sysarg_int m 0 in
  let buf_addr := sysarg m 1 in
  let len := to_size_t b (sysarg m 2) in
  let off := to_long b (sysarg m 3) in
  with_buffer m buf_addr len (fun buf => js_opfs_io (host_of b) fd buf len 604 off (mem m)).

(** 700: vh_magic_call. *)
Definition h700 (m : Machine) : outcome :=
  let type := sysarg_int m 0 in
  let data_addr := sysarg m 1 in
  let len := to_size_t b (sysarg m 2) in
  with_buffer m data_addr len
    (fun data => js_compute_offload (host_of b) type data len nullptr 0 (mem m)).

(** 703: memmove on arena memory; the result is [dest_addr]. *)
Definition h703 (m : Machine) : outcome :=
  let dest_addr := sysarg m 0 in
  let src_addr := sysarg m 1 in
  let len := to_size_t b (sysarg m 2) in
  match memarray L (mem m) 1 dest_addr len with
  | None => raised
  | Some dest =>
      match memarray L (mem m) 1 src_addr len with
      | None => raised
      | Some src =>
          match dest, src with
          | view d, view s =>
              if len >? 0 then set_result dest_addr (host_memmove d s len (mem m))
              else set_result dest_addr (mem m)
          | _, _ => set_result dest_addr (mem m)
          end
      end
  end.

(** 704: gettimeofday; [ms] is a [long] of the build, the two values are
    written as explicit 64-bit integers, the result is 0. *)
Definition h704 (m : Machine) : outcome :=
  let addr := sysarg m 0 in
  if negb (addr =? 0) then
    let ms := to_long b (js_gettime_ms (host_of b)) in
    let sec := Z.quot ms 1000 in
    let usec := Z.rem ms 1000 * 1000 in
    match write_i64 L (mem m) addr sec with
    | None => raised
    | Some mem1 =>
        match write_i64 L mem1 (to_u64 (addr + 8)) usec with
        | None => raised
        | Some mem2 => set_result 0 mem2
        end
    end
  else set_result 0 (mem m).

(** 705: getrandom. *)
Definition h705 (m : Machine) : outcome :=
  let buf_addr := sysarg m 0 in
  let len := to_size_t b (sysarg m 1) in
  with_buffer m buf_addr len
    (fun buf => js_compute_offload (host_of b) 705 buf len nullptr 0 (mem m)).

(** 706: iconv; the two pointers are cast from the registers unchecked. *)
Definition h706 (m : Machine) : outcome :=
  let '(v, mem') :=
    js_compute_offload (host_of b) 706
      (view (to_size_t b (sysarg m 0))) (to_size_t b (sysarg m 1))
      (view (to_size_t b (sysarg m 2))) (to_size_t b (sysarg m 3)) (mem m) in
  set_result v mem'.

(** 708: JSON parse/validate. *)
Definition h708 (m : Machine) : outcome :=
  let buf_addr := sysarg m 0 in
  let len := to_size_t b (sysarg m 1) in
  with_buffer m buf_addr len
    (fun buf => js_compute_offload (host_of b) 708 buf len nullptr 0 (mem m)).

(** 800: connect. *)
Definition h800 (m : Machine) : outcome :=
  if is_emscripten b then
    let sockfd := sysarg_int m 0 in
    match memarray L (mem m) 16 (sysarg m 1) 1 with
    | None => raised
    | Some (view s) =>
        let ip_str := inet_ntop (mem m) s in
        let '(v, mem') :=
          js_net_proxy (host_of b) sockfd (cstr ip_str) (sin_port (mem m) s) 800 nullptr 0 (mem m) in
        set_result v mem'
    | Some _ => set_result (-14) (mem m)
    end
  else set_result (-38) (mem m).

(** 801: getaddrinfo; on success [strlen(ip_buf) + 1] bytes of [ip_buf]
    are copied to the guest. *)
Definition h801 (m : Machine) : outcome :=
  if is_emscripten b then
    match memstring L (mem m) (sysarg m 0) with
    | None => raised
    | Some node =>
        let '(ret, stored) := js_dns_resolve (host_of b) node (Z.of_nat (length node)) 64 0 in
        let ip_buf := ip_buf_after stored in
        if ret =? 0 then
          let res_ptr_addr := sysarg m 3 in
          if negb (res_ptr_addr =? 0) then
            match memarray L (mem m) 1 res_ptr_addr 128 with
            | None => raised
            | Some (view p) =>
                match strlen ip_buf with
                | None => overrun
                | Some ip_len =>
                    set_result ret (host_memcpy p (take (ip_len + 1) ip_buf) (mem m))
                end
            | Some _ => set_result ret (mem m)
            end
          else set_result ret (mem m)
        else set_result ret (mem m)
    end
  else set_result (-38) (mem m).

(** 802: net_write. *)
Definition h802 (m : Machine) : outcome :=
  let fd := sysarg_int m 0 in
  let buf_addr := sysarg m 1 in
  let len := to_size_t b (sysarg m 2) in
  with_buffer m buf_addr len (fun buf => js_net_proxy (host_of b) fd nullptr 0 802 buf len (mem m)).

(** 803: net_read. *)
Definition h803 (m : Machine) : outcome :=
  let fd := sysarg_int m 0 in
  let buf_addr := sysarg m 1 in
  let len := to_size_t b (sysarg m 2) in
  with_buffer m buf_addr len (fun buf => js_net_proxy (host_of b) fd nullptr 0 803 buf len (mem m)).

(** [setup_vh_harness]: the table [install_syscall_handler] fills. *)
Definition setup_vh_harness (nr : Z) : option (Machine -> outcome) :=
  if nr =? 600 then Some h600 else
  if nr =? 601 then Some h601 else
  if nr =? 602 then Some h602 else
  if nr =? 603 then Some h603 else
  if nr =? 604 then Some h604 else
  if nr =? 700 then Some h700 else
  if nr =? 703 then Some h703 else
  if nr =? 704 then Some h704 else
  if nr =? 705 then Some h705 else
  if nr =? 706 then Some h706 else
  if nr =? 708 then Some h708 else
  if nr =? 800 then Some h800 else
  if nr =? 801 then Some h801 else
  if nr =? 802 then Some h802 else
  if nr =? 803 then Some h803 else
  None.

End Handlers.

End vh.

(** * vh_preload.c *)

Module vh_preload.

Definition SYS_close : Z := 57.
Definition SYS_read : Z := 63.
Definition SYS_write : Z := 64.
Definition SYS_pread64 : Z := 67.

(** The [ecall] a shim function ends in, with the registers it loads.  The
    function returns what the trap leaves in a0, converted to its return
    type. *)
Inductive trap :=
| raw_syscall3 (nr a0 a1 a2 : Z)
| raw_syscall4 (nr a0 a1 a2 a3 : Z)
| vh_ecall (nr a0 a1 a2 a3 a4 : Z).

(** [(long)x] for a pointer or a [size_t]. *)
Definition long (x : Z) : Z := to_i64 x.

(** Lines 84-96. *)
Definition write (fd buf count : Z) : trap :=
  if fd =? 99 then vh_ecall 708 (long buf) (long count) 0 0 0
  else if (fd >=? 500) && (fd <? 600) then vh_ecall 802 fd (long buf) (long count) 0 0
  else if fd >? 2 then vh_ecall 601 fd (long buf) (long count) 0 0
  else raw_syscall3 SYS_write fd (long buf) (long count).

(** Lines 98-107. *)
Definition read (fd buf count : Z) : trap :=
  if (fd >=? 500) && (fd <? 600) then vh_ecall 803 fd (long buf) (long count) 0 0
  else if fd >? 2 then vh_ecall 602 fd (long buf) (long count) 0 0
  else raw_syscall3 SYS_read fd (long buf) (long count).

(** Lines 109-113. *)
Definition pread (fd buf count offset : Z) : trap :=
  if fd >? 2 then vh_ecall 604 fd (long buf) (long count) offset 0
  else raw_syscall4 SYS_pread64 fd (long buf) (long count) offset.

(** Lines 115-119. *)
Definition close (fd : Z) : trap :=
  if fd >? 2 then vh_ecall 603 fd 0 0 0 0
  else raw_syscall3 SYS_close fd 0 0.

(** Guest memory as the shim addresses it. *)
Definition memory : Type := Z -> byte.

Definition store (m : memory) (p : Z) (v : byte) : memory :=
  fun x => if x =? p then v else m x.

(** Line 132: [for (size_t i = 0; i < n; i++) d[i] = s[i]]. *)
Fixpoint copy_forward (fuel : nat) (i n d s : Z) (m : memory) : memory :=
  match fuel with
  | O => m
  | S fuel' =>
      if i <? n then copy_forward fuel' (i + 1) n d s (store m (d + i) (m (s + i)))
      else m
  end.

(** Line 134: [for (size_t i = n; i > 0; i--) d[i-1] = s[i-1]]. *)
Fixpoint copy_backward (fuel : nat) (i d s : Z) (m : memory) : memory :=
  match fuel with
  | O => m
  | S fuel' =>
      if i >? 0 then
        copy_backward fuel' (i - 1) d s (store m (d + (i - 1)) (m (s + (i - 1))))
      else m
  end.

(** [memmove] either traps to the host or returns [dest] after a local
    copy. *)
Inductive moved :=
| offloaded (t : trap)
| returned (ret : Z) (m : memory).

(** Lines 126-137. *)
Definition memmove (m : memory) (dest src n : Z) : moved :=
  if n >? 1024 then offloaded (vh_ecall 703 (long dest) (long src) (long n) 0 0)
  else
    let d := dest in
    let s := src in
    if d <? s then returned dest (copy_forward (Z.to_nat n) 0 n d s m)
    else returned dest (copy_backward (Z.to_nat n) n d s m).

(** Lines 141-144; [tz] is not used. *)
Definition gettimeofday (tv tz : Z) : trap := vh_ecall 704 (long tv) 0 0 0 0.

(** Lines 147-150; [flags] is not used. *)
Definition getrandom (buf len flags : Z) : trap :=
  vh_ecall 705 (long buf) (long len) 0 0 0.

(** Lines 157-159. *)
Definition connect (fd addr len : Z) : trap :=
  vh_ecall 800 fd (long addr) (long len) 0 0.

(** Lines 162-165. *)
Definition getaddrinfo (node service hints res : Z) : trap :=
  vh_ecall 801 (long node) (long service) (long hints) (long res) 0.

(** Lines 167-169: nothing is released and nothing traps. *)
Definition freeaddrinfo (res : Z) : option trap := None.

End vh_preload.

(** * Vocabulary of the statements *)

(** The number of the hypercall a trap issues; [None] for a raw Linux
    syscall. *)
Definition hypercall_number (t : vh_preload.trap) : option Z :=
  match t with
  | vh_preload.vh_ecall nr _ _ _ _ _ => Some nr
  | _ => None
  end.

(** A memory whose byte at address [x] is [x mod 256]. *)
Definition ramp : vh_preload.memory := fun x => byte.of_Z x.


(** An errno-like failure value of a host primitive: a negative [long]. *)
Definition negative_long (v : Z) : Prop := - 2 ^ 63 <= v < 0.

(** Every fallible host primitive fails on every call. *)
Definition host_fails (h : vh.Host) : Prop :=
  (forall fd buf len op off m,
      negative_long (fst (vh.js_opfs_io h fd buf len op off m))) /\
  (forall fd ip port op buf len m,
      negative_long (fst (vh.js_net_proxy h fd ip port op buf len m))) /\
  (forall host host_len ip_buf_len port,
      negative_long (fst (vh.js_dns_resolve h host host_len ip_buf_len port))) /\
  (forall op p1 l1 p2 l2 m,
      negative_long (fst (vh.js_compute_offload h op p1 l1 p2 l2 m))).







(** Accessors over a flat memory in which every address is valid. *)
Definition flat_accessors : vh.Libriscv :=
  vh.mkLibriscv (fun _ _ => Some [])
                (fun _ _ p _ => Some (vh.view p))
                (fun m p v => Some (vh.host_memcpy p (le_split 8 v) m)).





(** ** Checkpoint blobs *)

(** Value ranges of a machine state. *)
Definition wf_cpu (c : checkpoint.Cpu) : Prop :=
  is_u64 (checkpoint.pc c) /\ is_u32 (checkpoint.fcsr c) /\
  length (checkpoint.reg c) = 32%nat /\ Forall is_u64 (checkpoint.reg c) /\
  length (checkpoint.fl c) = 32%nat /\ Forall is_u64 (checkpoint.fl c).

Definition wf_exec_ctx (x : checkpoint.ExecContext) : Prop :=
  is_u64 (checkpoint.brk_base x) /\ is_u64 (checkpoint.brk_current x) /\
  is_u64 (checkpoint.exec_base x) /\ is_u64 (checkpoint.exec_rw_start x) /\
  is_u64 (checkpoint.exec_rw_end x) /\ is_u64 (checkpoint.interp_base x) /\
  is_u64 (checkpoint.interp_rw_start x) /\ is_u64 (checkpoint.interp_rw_end x) /\
  is_u64 (checkpoint.interp_entry x) /\ is_u64 (checkpoint.original_stack_top x) /\
  is_u64 (checkpoint.heap_start x) /\ is_u64 (checkpoint.heap_size x).

Definition wf_interest (e : Z * checkpoint.EpollInterest) : Prop :=
  is_i32 (fst e) /\ is_u32 (checkpoint.events (snd e)) /\ is_u64 (checkpoint.data (snd e)).

Definition wf_instance (e : Z * checkpoint.EpollInstance) : Prop :=
  is_i32 (fst e) /\
  is_u32 (Z.of_nat (size (checkpoint.interests (snd e)))) /\
  Forall wf_interest (map_to_list (checkpoint.interests (snd e))).

Definition wf_counter (e : Z * Z) : Prop := is_i32 (fst e) /\ is_u64 (snd e).

Definition wf_sys (s : checkpoint.Syscalls) : Prop :=
  wf_exec_ctx (checkpoint.g_exec_ctx s) /\
  is_i32 (checkpoint.g_next_pid s) /\ is_i32 (checkpoint.g_next_epoll_fd s) /\
  is_u32 (Z.of_nat (size (checkpoint.g_epoll_instances s))) /\
  Forall wf_instance (map_to_list (checkpoint.g_epoll_instances s)) /\
  is_u32 (Z.of_nat (size (checkpoint.g_eventfd_counters s))) /\
  Forall wf_counter (map_to_list (checkpoint.g_eventfd_counters s)).

Definition wf_memory (m : checkpoint.Memory) : Prop :=
  is_u64 (checkpoint.mmap_address m) /\
  is_u64 (Z.of_nat (size (checkpoint.pages m))) /\
  Forall (fun e => is_u64 (fst e)) (map_to_list (checkpoint.pages m)) /\
  Z.of_nat (length (checkpoint.arena m)) < 2 ^ 63.

(** A machine state the emulator can be in: every field within the range
    of its C++ type, 32 registers of each kind, map sizes that fit the
    32-bit counts of the format. *)
Definition well_formed (s : checkpoint.State) : Prop :=
  wf_cpu (checkpoint.cpu s) /\ wf_memory (checkpoint.memory s) /\
  wf_sys (checkpoint.sys s).

(** The machine [t] that a blob is loaded into has the arena size and the
    scheduler layout of the machine [s] it was saved from. *)
Definition same_layout (s t : checkpoint.State) : Prop :=
  length (checkpoint.arena (checkpoint.memory t))
    = length (checkpoint.arena (checkpoint.memory s)) /\
  length (checkpoint.g_sched (checkpoint.sys t))
    = length (checkpoint.g_sched (checkpoint.sys s)) /\
  length (checkpoint.reg (checkpoint.cpu t)) = 32%nat /\
  length (checkpoint.fl (checkpoint.cpu t)) = 32%nat.

(** The blob layout, section by section. *)
Definition enc_header : list byte :=
  checkpoint.MAGIC ++ le_split 4 checkpoint.VERSION ++ le_split 4 0.

Definition enc_locals (s : checkpoint.State) : list byte :=
  let c := checkpoint.cpu s in
  let x := checkpoint.g_exec_ctx (checkpoint.sys s) in
  le_split 8 (checkpoint.pc c) ++ le_split 4 (checkpoint.fcsr c) ++ le_split 4 0 ++
  concat (map (le_split 8) (checkpoint.reg c)) ++
  concat (map (le_split 8) (checkpoint.fl c)) ++
  le_split 8 (checkpoint.mmap_address (checkpoint.memory s)) ++
  le_split 8 (checkpoint.brk_base x) ++ le_split 8 (checkpoint.brk_current x) ++
  le_split 8 (checkpoint.exec_base x) ++ le_split 8 (checkpoint.exec_rw_start x) ++
  le_split 8 (checkpoint.exec_rw_end x) ++ le_split 8 (checkpoint.interp_base x) ++
  le_split 8 (checkpoint.interp_rw_start x) ++ le_split 8 (checkpoint.interp_rw_end x) ++
  le_split 8 (checkpoint.interp_entry x) ++ le_split 8 (checkpoint.original_stack_top x) ++
  le_split 8 (checkpoint.heap_start x) ++ le_split 8 (checkpoint.heap_size x) ++
  le_split 1 (checkpoint.bool_to_Z (checkpoint.brk_overridden x)) ++
  le_split 1 (checkpoint.bool_to_Z (checkpoint.dynamic x)) ++
  concat (map (le_split 1) [0; 0; 0; 0; 0; 0]).

Definition enc_sched (s : checkpoint.Syscalls) : list byte :=
  checkpoint.g_sched s ++ le_split 4 (checkpoint.g_next_pid s) ++
  le_split 4 (checkpoint.g_next_epoll_fd s).

Definition enc_interest (e : Z * checkpoint.EpollInterest) : list byte :=
  le_split 4 (fst e) ++ le_split 4 (checkpoint.events (snd e)) ++
  le_split 8 (checkpoint.data (snd e)).

Definition enc_instance (e : Z * checkpoint.EpollInstance) : list byte :=
  le_split 4 (fst e) ++
  le_split 4 (to_u32 (Z.of_nat (size (checkpoint.interests (snd e))))) ++
  concat (map enc_interest (map_to_list (checkpoint.interests (snd e)))).

Definition enc_epoll (m : gmap Z checkpoint.EpollInstance) : list byte :=
  le_split 4 (to_u32 (Z.of_nat (size m))) ++ concat (map enc_instance (map_to_list m)).

Definition enc_counter (e : Z * Z) : list byte :=
  le_split 4 (fst e) ++ le_split 8 (snd e).

Definition enc_eventfd (m : gmap Z Z) : list byte :=
  le_split 4 (to_u32 (Z.of_nat (size m))) ++ concat (map enc_counter (map_to_list m)).

Definition enc_exec_pages (l : list Z) : list byte :=
  le_split 8 (Z.of_nat (length l)) ++ concat (map (le_split 8) l).

(** Everything in front of the chunk stream. *)
Definition enc_sections (s : checkpoint.State) : list byte :=
  enc_header ++ enc_locals s ++ enc_sched (checkpoint.sys s) ++
  enc_epoll (checkpoint.g_epoll_instances (checkpoint.sys s)) ++
  enc_eventfd (checkpoint.g_eventfd_counters (checkpoint.sys s)) ++
  enc_exec_pages (checkpoint.collect_exec_pages (checkpoint.pages (checkpoint.memory s))).

(** The locals [load_checkpoint] holds after parsing a blob saved from [s]. *)
Definition locals_of (s : checkpoint.State) : checkpoint.Locals :=
  let c := checkpoint.cpu s in
  let x := checkpoint.g_exec_ctx (checkpoint.sys s) in
  checkpoint.mkLocals (checkpoint.pc c) (checkpoint.fcsr c) (checkpoint.reg c)
    (checkpoint.fl c) (checkpoint.mmap_address (checkpoint.memory s))
    (checkpoint.brk_base x) (checkpoint.brk_current x) (checkpoint.exec_base x)
    (checkpoint.exec_rw_start x) (checkpoint.exec_rw_end x) (checkpoint.interp_base x)
    (checkpoint.interp_rw_start x) (checkpoint.interp_rw_end x)
    (checkpoint.interp_entry x) (checkpoint.original_stack_top x)
    (checkpoint.heap_start x) (checkpoint.heap_size x)
    (checkpoint.bool_to_Z (checkpoint.brk_overridden x))
    (checkpoint.bool_to_Z (checkpoint.dynamic x)).

(** The state [t] once the sections of a blob saved from [s] are parsed:
    the scheduler block, the counters and the descriptor maps are those of
    [s]; nothing else has changed. *)
Definition parsed_into (s t : checkpoint.State) : checkpoint.State :=
  checkpoint.mkState (checkpoint.cpu t) (checkpoint.memory t)
    (checkpoint.mkSyscalls
       (checkpoint.g_exec_ctx (checkpoint.sys t))
       (checkpoint.g_sched (checkpoint.sys s))
       (checkpoint.g_next_pid (checkpoint.sys s))
       (checkpoint.g_next_epoll_fd (checkpoint.sys s))
       (checkpoint.g_epoll_instances (checkpoint.sys s))
       (checkpoint.g_eventfd_counters (checkpoint.sys s))
       (checkpoint.g_waiting_for_stdin (checkpoint.sys t))).

(** What a load that raises while it parses the sections leaves alone:
    CPU, memory (arena, page table, mmap pointer), exec context and the
    resume flag. *)
Definition sections_untouched (t t' : checkpoint.State) : Prop :=
  checkpoint.cpu t' = checkpoint.cpu t /\
  checkpoint.memory t' = checkpoint.memory t /\
  checkpoint.g_exec_ctx (checkpoint.sys t') = checkpoint.g_exec_ctx (checkpoint.sys t) /\
  checkpoint.g_waiting_for_stdin (checkpoint.sys t')
    = checkpoint.g_waiting_for_stdin (checkpoint.sys t).

(** The state of [g_epoll_instances] after [load_instances] has read the
    instances [l]. *)
Definition instances_loaded (l : list (Z * checkpoint.EpollInstance)) (m : gmap Z checkpoint.EpollInstance)
  : gmap Z checkpoint.EpollInstance :=
  foldl (fun m e =>
           foldl (fun m i => checkpoint.set_interest (fst e) (fst i) (snd i) m)
                 (checkpoint.touch_instance (fst e) m) (map_to_list (checkpoint.interests (snd e))))
        m l.


(** [s] with one of its descriptor maps replaced. *)
Definition upd_epoll (f : gmap Z checkpoint.EpollInstance -> gmap Z checkpoint.EpollInstance) (s : checkpoint.State)
  : checkpoint.State :=
  checkpoint.mkState (checkpoint.cpu s) (checkpoint.memory s) (checkpoint.with_epoll_instances f (checkpoint.sys s)).


(** [s] with one of its descriptor maps replaced. *)
Definition upd_eventfd (f : gmap Z Z -> gmap Z Z) (s : checkpoint.State) : checkpoint.State :=
  checkpoint.mkState (checkpoint.cpu s) (checkpoint.memory s) (checkpoint.with_eventfd_counters f (checkpoint.sys s)).


(** [st] with the bytes of its arena replaced. *)
Definition set_arena_of (st : checkpoint.State) (a : list byte) : checkpoint.State :=
  checkpoint.mkState (checkpoint.cpu st)
    (checkpoint.with_arena a (checkpoint.memory st)) (checkpoint.sys st).

(** The sentinel record. *)
Definition sentinel_record : list byte :=
  le_split 8 checkpoint.SENTINEL_ADDR ++ le_split 8 0.

(** One chunk record: offset, length, payload. *)
Definition enc_record (offset : Z) (payload : list byte) : list byte :=
  le_split 8 offset ++ le_split 8 (Z.of_nat (length payload)) ++ payload.

(** The data records of the chunk stream of an arena, without the
    sentinel. *)
Definition enc_chunks (a : list byte) : list byte :=
  checkpoint.save_tail a (checkpoint.save_full_chunks (length a) a 0 []).

(** Where the loop over full windows stops. *)
Fixpoint full_chunks_end (fuel : nat) (arena_size offset : Z) : Z :=
  match fuel with
  | O => offset
  | S fuel' =>
      if offset + checkpoint.CHUNK_SIZE <=? arena_size
      then full_chunks_end fuel' arena_size (offset + checkpoint.CHUNK_SIZE)
      else offset
  end.

(** The window length as a number of list elements. *)
Definition chunk_len : nat := Z.to_nat checkpoint.CHUNK_SIZE.

(** [st] after the arena stage of a load has rebuilt the arena [a]: the
    decoder cache is empty and the arena holds [a]. *)
Definition arena_loaded (st : checkpoint.State) (a : list byte) : checkpoint.State :=
  set_arena_of
    (checkpoint.mkState (checkpoint.cpu st)
       (checkpoint.evict_execute_segments (checkpoint.memory st)) (checkpoint.sys st))
    a.

(** Page [pn] is marked executable in [st]. *)
Definition executable (st : checkpoint.State) (pn : Z) : Prop :=
  exists a, checkpoint.pages (checkpoint.memory st) !! pn = Some a /\
            checkpoint.exec a = true.

(** The page table of [t] after the saved executable pages of [s] have been
    given read+execute. *)
Definition pages_restored (s t : checkpoint.State) : gmap Z checkpoint.PageAttributes :=
  foldl (fun pg pageno => checkpoint.set_pageno_attr pageno checkpoint.exec_attr pg)
        (checkpoint.pages (checkpoint.memory t))
        (checkpoint.collect_exec_pages (checkpoint.pages (checkpoint.memory s))).

(** The machine [t] after a complete load of a blob saved from [s]. *)
Definition restored (s t : checkpoint.State) : checkpoint.State :=
  checkpoint.mkState
    (checkpoint.cpu s)
    (checkpoint.mkMemory (checkpoint.mmap_address (checkpoint.memory s))
       (pages_restored s t) (checkpoint.arena (checkpoint.memory s)) [])
    (checkpoint.mkSyscalls
       (checkpoint.g_exec_ctx (checkpoint.sys s))
       (checkpoint.g_sched (checkpoint.sys s))
       (checkpoint.g_next_pid (checkpoint.sys s))
       (checkpoint.g_next_epoll_fd (checkpoint.sys s))
       (checkpoint.g_epoll_instances (checkpoint.sys s))
       (checkpoint.g_eventfd_counters (checkpoint.sys s))
       true).

(** ** Two small machines *)

(** A machine at its idle point: a 3-byte arena with one non-zero byte,
    page 5 mapped read-write-execute, page 6 read-write, two epoll
    instances and one eventfd. *)
Definition demo_saved : checkpoint.State :=
  checkpoint.mkState
    (checkpoint.mkCpu 4096 1 (map Z.of_nat (seq 100 32)) (map Z.of_nat (seq 200 32)))
    (checkpoint.mkMemory 77
       (<[5 := checkpoint.mkAttr true true true]>
          (<[6 := checkpoint.mkAttr true true false]> ∅))
       [Byte.x00; Byte.x01; Byte.x00] [9])
    (checkpoint.mkSyscalls
       (checkpoint.mkExecContext 1 2 3 4 5 6 7 8 9 10 11 12 true false)
       [Byte.xaa; Byte.xbb] (-3) 1000
       (<[7 := checkpoint.mkInstance
                 (<[3 := checkpoint.mkInterest 1 2]>
                    (<[-4 := checkpoint.mkInterest 5 6]> ∅))]>
          (<[8 := checkpoint.mkInstance ∅]> ∅))
       (<[4 := 99]> ∅) true).

(** The same machine as far as a checkpoint goes, in another state
    otherwise: page 5 is not writable, page 6 is not mapped, the decoder
    cache is empty and the resume flag is not set. *)
Definition demo_twin : checkpoint.State :=
  checkpoint.mkState
    (checkpoint.mkCpu 4096 1 (map Z.of_nat (seq 100 32)) (map Z.of_nat (seq 200 32)))
    (checkpoint.mkMemory 77
       (<[5 := checkpoint.mkAttr true false true]> ∅)
       [Byte.x00; Byte.x01; Byte.x00] [])
    (checkpoint.mkSyscalls
       (checkpoint.mkExecContext 1 2 3 4 5 6 7 8 9 10 11 12 true false)
       [Byte.xaa; Byte.xbb] (-3) 1000
       (<[7 := checkpoint.mkInstance
                 (<[3 := checkpoint.mkInterest 1 2]>
                    (<[-4 := checkpoint.mkInterest 5 6]> ∅))]>
          (<[8 := checkpoint.mkInstance ∅]> ∅))
       (<[4 := 99]> ∅) false).

(** A machine of the same layout in another state; its page 9 is
    executable. *)
Definition demo_target : checkpoint.State :=
  checkpoint.mkState
    (checkpoint.mkCpu 0 0 (repeat 0 32) (repeat 0 32))
    (checkpoint.mkMemory 0 (<[9 := checkpoint.mkAttr true true true]> ∅)
       [Byte.xff; Byte.xff; Byte.xff] [1; 2])
    (checkpoint.mkSyscalls
       (checkpoint.mkExecContext 0 0 0 0 0 0 0 0 0 0 0 0 false false)
       [Byte.x00; Byte.x00] 0 0 ∅ (<[1 := 1]> ∅) false).

(** A header with the right tag and version 7. *)
Definition bad_version_blob : list byte :=
  checkpoint.MAGIC ++ le_split 4 7 ++ le_split 4 0.

(** ** Chunk streams as lists of records *)

(** A chunk stream: the records in order, then the sentinel. *)
Definition enc_stream (records : list (Z * list byte)) : list byte :=
  concat (map (fun rec => enc_record (fst rec) (snd rec)) records) ++ sentinel_record.

(** The record of the full window number [k], if that window is not all
    zero. *)
Definition window_record (a : list byte) (k : nat) : list (Z * list byte) :=
  let offset := Z.of_nat k * checkpoint.CHUNK_SIZE in
  if checkpoint.chunk_all_zero a offset then []
  else [(offset, slice a offset checkpoint.CHUNK_SIZE)].

(** The records of the full windows of an arena, in ascending order. *)
Definition window_records (a : list byte) : list (Z * list byte) :=
  flat_map (window_record a)
           (seq 0 (Z.to_nat (Z.of_nat (length a) / checkpoint.CHUNK_SIZE))).

(** A blob for [demo_target] (arena of 3 bytes) whose only chunk record
    has offset 2^64 - 2 and length 3. *)
Definition wrapping_record_blob : list byte :=
  enc_sections demo_saved ++
  enc_record 18446744073709551614 [Byte.x11; Byte.x22; Byte.x33] ++
  sentinel_record.

Definition is_chunk_exceeds (d : checkpoint.diag) : bool :=
  match d with
  | checkpoint.chunk_exceeds _ _ _ => true
  | _ => false
  end.

(** ** Parsing an encoded prefix *)

(** [R] is what a parse that fails half-way may have done to the live
    state. *)

(** [c], started in state [s] on the bytes [enc] followed by anything,
    consumes exactly [enc], yields [a], leaves state [s'] and writes the
    diagnostics [d]; started on a proper prefix of [enc] - an encoding
    that fits a blob, of fewer than 2^63 bytes - it raises "unexpected
    EOF". *)
Definition decodes_at (R : checkpoint.State -> checkpoint.State -> Prop)
  {A : Type} (s : checkpoint.State) (c : checkpoint.prog A) (enc : list byte)
  (a : A) (s' : checkpoint.State) (d : list checkpoint.diag) : Prop :=
  (forall rest e, c (checkpoint.mkWorld (enc ++ rest) s e) = (checkpoint.Ok a, checkpoint.mkWorld rest s' (e ++ d))) /\
  (Z.of_nat (length enc) < 2 ^ 63 ->
   forall n e, (n < length enc)%nat ->
     exists w', c (checkpoint.mkWorld (take n enc) s e) = (checkpoint.Throw checkpoint.unexpected_EOF, w') /\ R s (checkpoint.live w')) /\
  R s s'.

(** ** The shim under the harness *)

(** A call of one of the functions the shim interposes. *)
Inductive shim_call :=
| call_write (fd buf count : Z)
| call_read (fd buf count : Z)
| call_pread (fd buf count offset : Z)
| call_close (fd : Z)
| call_memmove (m : vh_preload.memory) (dest src n : Z)
| call_gettimeofday (tv tz : Z)
| call_getrandom (buf len flags : Z)
| call_connect (fd addr len : Z)
| call_getaddrinfo (node service hints res : Z)
| call_freeaddrinfo (res : Z).

(** The trap the call ends in, if it traps at all. *)
Definition trap_of (c : shim_call) : option vh_preload.trap :=
  match c with
  | call_write fd buf count => Some (vh_preload.write fd buf count)
  | call_read fd buf count => Some (vh_preload.read fd buf count)
  | call_pread fd buf count offset => Some (vh_preload.pread fd buf count offset)
  | call_close fd => Some (vh_preload.close fd)
  | call_memmove m dest src n =>
      match vh_preload.memmove m dest src n with
      | vh_preload.offloaded t => Some t
      | vh_preload.returned _ _ => None
      end
  | call_gettimeofday tv tz => Some (vh_preload.gettimeofday tv tz)
  | call_getrandom buf len flags => Some (vh_preload.getrandom buf len flags)
  | call_connect fd addr len => Some (vh_preload.connect fd addr len)
  | call_getaddrinfo node service hints res =>
      Some (vh_preload.getaddrinfo node service hints res)
  | call_freeaddrinfo res => vh_preload.freeaddrinfo res
  end.

(** The machine a handler finds when the guest executes the [ecall] of
    [vh_ecall] (vh_preload.c, lines 66-78): a0..a4 hold the arguments and
    a7 the number, as 64-bit patterns; a5 and a6 hold whatever they held.
    A raw Linux syscall does not reach the harness. *)
Definition ecall_machine (a5 a6 : Z) (t : vh_preload.trap) (m : vh.memory)
  : option vh.Machine :=
  match t with
  | vh_preload.vh_ecall nr a0 a1 a2 a3 a4 =>
      Some (vh.mkMachine
              [to_u64 a0; to_u64 a1; to_u64 a2; to_u64 a3; to_u64 a4; a5; a6; to_u64 nr] m)
  | _ => None
  end.

(** The trap under the harness: the handler installed for the number in
    a7 runs on the machine ([None] when there is none). *)
Definition ecall (L : vh.Libriscv) (b : vh.Build)
  (inet_ntop : vh.memory -> Z -> list byte) (sin_port : vh.memory -> Z -> Z)
  (a5 a6 : Z) (t : vh_preload.trap) (m : vh.memory) : option vh.outcome :=
  match ecall_machine a5 a6 t m, hypercall_number t with
  | Some M, Some nr =>
      match vh.setup_vh_harness L b inet_ntop sin_port nr with
      | Some h => Some (h M)
      | None => None
      end
  | _, _ => None
  end.

(** The outcome of a handler that takes a view of [len] bytes at [buf]
    and hands it to a host primitive [k]. *)
Definition forwards (L : vh.Libriscv) (m : vh.memory) (buf len : Z)
  (k : vh.hostbuf -> Z * vh.memory) : vh.outcome :=
  match vh.memarray L m 1 buf len with
  | None => vh.raised
  | Some v => let '(ret, m') := k v in vh.set_result ret m'
  end.

(** What [memmove] returns from the a0 the trap leaves: [(void * )a0]. *)
Definition ret_ptr (a0 : Z) : Z := to_u64 a0.

(** A host whose clock reads 86400123 ms and whose resolver answers
    "1.2.3.4" for every name. *)
Definition demo_host : vh.Host :=
  vh.mkHost (fun _ _ _ _ _ m => (0, m))
            (fun _ _ _ _ _ _ m => (0, m))
            (fun _ _ _ _ =>
               (0, [Byte.x31; Byte.x2e; Byte.x32; Byte.x2e; Byte.x33; Byte.x2e; Byte.x34;
                    Byte.x00; Byte.x00; Byte.x00]))
            (fun _ _ _ _ _ m => (0, m))
            86400123.

(** ** Loading an arbitrary blob *)

(** What a load that raises leaves as it found it, whatever the blob: the
    CPU, the page table, the mmap pointer, the exec context, the resume
    flag, and the sizes of the arena and of the scheduler block. *)
Definition load_frame (t t' : checkpoint.State) : Prop :=
  checkpoint.cpu t' = checkpoint.cpu t /\
  checkpoint.pages (checkpoint.memory t') = checkpoint.pages (checkpoint.memory t) /\
  checkpoint.mmap_address (checkpoint.memory t')
    = checkpoint.mmap_address (checkpoint.memory t) /\
  length (checkpoint.arena (checkpoint.memory t'))
    = length (checkpoint.arena (checkpoint.memory t)) /\
  checkpoint.g_exec_ctx (checkpoint.sys t') = checkpoint.g_exec_ctx (checkpoint.sys t) /\
  checkpoint.g_waiting_for_stdin (checkpoint.sys t')
    = checkpoint.g_waiting_for_stdin (checkpoint.sys t) /\
  length (checkpoint.g_sched (checkpoint.sys t'))
    = length (checkpoint.g_sched (checkpoint.sys t)).

(** A specification of a step of the reader on any input: the worlds
    before and after are related by [R]; a value it returns satisfies [Q]
    and cost at least [k] bytes of input; an exception it raises is one of
    [E]; it leaves the arena buffer only if [O]. *)
Definition parses {A : Type} (O : Prop) (E : checkpoint.exn -> Prop)
  (R : checkpoint.World -> checkpoint.World -> Prop) (k : nat) (Q : A -> Prop)
  (c : checkpoint.prog A) : Prop :=
  forall w res w', c w = (res, w') ->
    R w w' /\
    match res with
    | checkpoint.Ok a => Q a /\ (k + length (checkpoint.r w') <= length (checkpoint.r w))%nat
    | checkpoint.Throw x => E x
    | checkpoint.OutOfBounds => O
    end.

(** The live state and the diagnostics are as they were. *)
Definition untouched (w w' : checkpoint.World) : Prop :=
  checkpoint.live w' = checkpoint.live w /\ checkpoint.stderr w' = checkpoint.stderr w.

Definition framed (w w' : checkpoint.World) : Prop :=
  load_frame (checkpoint.live w) (checkpoint.live w').

(** The exceptions of [load_checkpoint]. *)
Definition load_exn (x : checkpoint.exn) : Prop :=
  x = checkpoint.unexpected_EOF \/ x = checkpoint.bad_magic \/
  exists version, x = checkpoint.unsupported_version version /\ version <> checkpoint.VERSION.

(** The exceptions of [load_checkpoint] on any input: those of the reader
    and of the header, and the [std::length_error] of the vector of
    executable pages. *)
Definition blob_exn (x : checkpoint.exn) : Prop :=
  load_exn x \/ x = checkpoint.length_error.

(** Of the live state, only the two descriptor maps differ. *)
Definition maps_only (w w' : checkpoint.World) : Prop :=
  sections_untouched (checkpoint.live w) (checkpoint.live w') /\
  checkpoint.g_sched (checkpoint.sys (checkpoint.live w'))
    = checkpoint.g_sched (checkpoint.sys (checkpoint.live w)) /\
  checkpoint.g_next_pid (checkpoint.sys (checkpoint.live w'))
    = checkpoint.g_next_pid (checkpoint.sys (checkpoint.live w)) /\
  checkpoint.g_next_epoll_fd (checkpoint.sys (checkpoint.live w'))
    = checkpoint.g_next_epoll_fd (checkpoint.sys (checkpoint.live w)).

(** Of the live state, only the eventfd map differs. *)
Definition eventfd_only (w w' : checkpoint.World) : Prop :=
  maps_only w w' /\
  checkpoint.g_epoll_instances (checkpoint.sys (checkpoint.live w'))
    = checkpoint.g_epoll_instances (checkpoint.sys (checkpoint.live w)).

(** The live state is as it was. *)
Definition same_live (w w' : checkpoint.World) : Prop :=
  checkpoint.live w' = checkpoint.live w.

(** The 64-bit field at byte [k] of a blob. *)
Definition u64_at (data : list byte) (k : nat) : Z := le_combine (take 8 (drop k data)).

(** The locals of [load_checkpoint] once the fixed-size fields of [data]
    are parsed: each is the little-endian value at its offset. *)
Definition locals_at (data : list byte) : checkpoint.Locals :=
  checkpoint.mkLocals
    (u64_at data 16) (le_combine (take 4 (drop 24 data)))
    (map (fun i => u64_at data (32 + 8 * i)) (seq 0 32))
    (map (fun i => u64_at data (288 + 8 * i)) (seq 0 32))
    (u64_at data 544) (u64_at data 552) (u64_at data 560) (u64_at data 568)
    (u64_at data 576) (u64_at data 584) (u64_at data 592) (u64_at data 600)
    (u64_at data 608) (u64_at data 616) (u64_at data 624) (u64_at data 632)
    (u64_at data 640)
    (le_combine (take 1 (drop 648 data))) (le_combine (take 1 (drop 649 data))).

(** ** Chunk streams in general *)

(** The arena [cur] after [memcpy(arena + offset, payload, len)]. *)
Definition write_at (cur : list byte) (rec : Z * list byte) : list byte :=
  take (Z.to_nat (fst rec)) cur ++ snd rec ++
  drop (Z.to_nat (fst rec) + length (snd rec)) cur.

(** The record lies inside an arena of [arena_size] bytes. *)
Definition fits (arena_size : nat) (rec : Z * list byte) : bool :=
  fst rec + Z.of_nat (length (snd rec)) <=? Z.of_nat arena_size.

(** A record whose offset is a 64-bit value other than the sentinel and
    whose end does not wrap around 2^64. *)
Definition plain_record (rec : Z * list byte) : Prop :=
  0 <= fst rec /\ fst rec <> checkpoint.SENTINEL_ADDR /\
  fst rec + Z.of_nat (length (snd rec)) < 2 ^ 64.

(** The diagnostic for a record that does not fit. *)
Definition warning (arena_size : nat) (rec : Z * list byte) : checkpoint.diag :=
  checkpoint.chunk_exceeds (fst rec) (Z.of_nat (length (snd rec))) (Z.of_nat arena_size).

(** The records of a stream, one after the other, without a sentinel. *)
Definition enc_records (records : list (Z * list byte)) : list byte :=
  concat (map (fun rec => enc_record (fst rec) (snd rec)) records).

(** The record of the trailing partial window, if it is not all zero. *)
Definition tail_record (a : list byte) : list (Z * list byte) :=
  let arena_size := Z.of_nat (length a) in
  let tail_offset := arena_size / checkpoint.CHUNK_SIZE * checkpoint.CHUNK_SIZE in
  let tail := slice a tail_offset (arena_size - tail_offset) in
  if (tail_offset <? arena_size) && negb (checkpoint.tail_all_zero tail)
  then [(tail_offset, tail)] else [].

(** The records [save_checkpoint] writes for an arena. *)
Definition arena_records (a : list byte) : list (Z * list byte) :=
  window_records a ++ tail_record a.

(** The bytes the epoll section takes after its count. *)
Definition epoll_bytes (m : gmap Z checkpoint.EpollInstance) : nat :=
  foldr (fun e n => (8 + 16 * size (checkpoint.interests (snd e)) + n)%nat) 0%nat
        (map_to_list m).

(** The payload bytes of a list of records. *)
Definition payload_bytes (records : list (Z * list byte)) : Z :=
  foldr (fun rec n => Z.of_nat (length (snd rec)) + n) 0 records.

(** A record of the sparse encoding of the arena [a]: it starts at a
    window boundary, carries the bytes of [a] from there up to the end of
    the window or of the arena, and is not all zero. *)
Definition sparse_record (a : list byte) (rec : Z * list byte) : Prop :=
  0 <= fst rec /\ fst rec mod checkpoint.CHUNK_SIZE = 0 /\
  snd rec = slice a (fst rec) (Z.of_nat (length (snd rec))) /\
  fst rec + Z.of_nat (length (snd rec)) <= Z.of_nat (length a) /\
  (Z.of_nat (length (snd rec)) = checkpoint.CHUNK_SIZE \/
   fst rec + Z.of_nat (length (snd rec)) = Z.of_nat (length a)) /\
  ~ Forall (fun b => b = Byte.x00) (snd rec).

(** The first record ends where the second begins, or before. *)
Definition record_before (r1 r2 : Z * list byte) : Prop :=
  fst r1 + Z.of_nat (length (snd r1)) <= fst r2.

(** The sections of the blob of [demo_saved] with the count of executable
    pages replaced by 2^64 - 1, and nothing behind it. *)
Definition absurd_count_blob : list byte :=
  take (length (enc_sections demo_saved) - 16) (enc_sections demo_saved) ++
  le_split 8 (2 ^ 64 - 1).

(** ** A saved blob cut short *)

(** Where the scheduler block with its two counters, the epoll section
    and the eventfd section end in the blob saved from [s] (the header and
    the fixed-size fields take the first 656 bytes), and where its chunk
    stream starts. *)
Definition end_of_sched (s : checkpoint.State) : nat :=
  656 + length (checkpoint.g_sched (checkpoint.sys s)) + 8.

Definition end_of_epoll (s : checkpoint.State) : nat :=
  end_of_sched s + length (enc_epoll (checkpoint.g_epoll_instances (checkpoint.sys s))).

Definition end_of_eventfd (s : checkpoint.State) : nat :=
  end_of_epoll s + length (enc_eventfd (checkpoint.g_eventfd_counters (checkpoint.sys s))).

Definition start_of_chunks (s : checkpoint.State) : nat :=
  length (checkpoint.save_checkpoint s)
  - length (checkpoint.save_arena [] (checkpoint.arena (checkpoint.memory s))).

(** An arena of [n] bytes after the chunk loop has copied the records
    [pre]: zero wherever no record was copied. *)
Definition arena_after (n : nat) (pre : list (Z * list byte)) : list byte :=
  foldl write_at (zeros n) pre.

(** What a completed load of the blob of [s] prints when the chunk loop
    has copied the records [pre]. *)
Definition report_of (s : checkpoint.State) (pre : list (Z * list byte))
  : list checkpoint.diag :=
  [checkpoint.restored_epoll
     (Z.of_nat (size (checkpoint.g_epoll_instances (checkpoint.sys s))));
   checkpoint.restored_eventfd
     (Z.of_nat (size (checkpoint.g_eventfd_counters (checkpoint.sys s))));
   checkpoint.restored_exec_pages
     (Z.of_nat (length (checkpoint.collect_exec_pages
                          (checkpoint.pages (checkpoint.memory s)))));
   checkpoint.loaded (Z.of_nat (length pre)) (payload_bytes pre)
     (checkpoint.pc (checkpoint.cpu s));
   checkpoint.loaded_mm (checkpoint.mmap_address (checkpoint.memory s))
     (checkpoint.brk_base (checkpoint.g_exec_ctx (checkpoint.sys s)))
     (checkpoint.brk_current (checkpoint.g_exec_ctx (checkpoint.sys s)))].
(** * Properties of the guest shim (vh_preload.c) *)

Lemma copy_forward_spec (fuel : nat) (i n d s : Z) (m0 m : vh_preload.memory) :
  d < s -> 0 <= i -> Z.of_nat fuel = n - i ->
  (forall x, m x = if (d <=? x) && (x <? d + i) then m0 (s + (x - d)) else m0 x) ->
  forall x, vh_preload.copy_forward fuel i n d s m x =
            if (d <=? x) && (x <? d + n) then m0 (s + (x - d)) else m0 x.
Proof.
  revert i m. induction fuel as [|fuel IH]; intros i m Hds Hi Hfuel Hinv x; simpl.
  - replace n with i by lia. apply Hinv.
  - destruct (Z.ltb_spec i n) as [Hlt|Hge]; [|lia].
    apply IH; [assumption | lia | lia |].
    intros y. unfold vh_preload.store.
    destruct (Z.eqb_spec y (d + i)) as [->|Hne].
    + replace (d + i - d) with i by lia.
      rewrite Hinv.
      destruct (Z.leb_spec d (s + i)), (Z.ltb_spec (s + i) (d + i)),
        (Z.leb_spec d (d + i)), (Z.ltb_spec (d + i) (d + (i + 1)));
        simpl; try lia; reflexivity.
    + rewrite Hinv.
      destruct (Z.leb_spec d y), (Z.ltb_spec y (d + i)),
        (Z.ltb_spec y (d + (i + 1))); simpl; try lia; reflexivity.
Qed.

Lemma copy_backward_spec (fuel : nat) (i n d s : Z) (m0 m : vh_preload.memory) :
  s <= d -> i <= n -> Z.of_nat fuel = i ->
  (forall x, m x = if (d + i <=? x) && (x <? d + n) then m0 (s + (x - d)) else m0 x) ->
  forall x, vh_preload.copy_backward fuel i d s m x =
            if (d <=? x) && (x <? d + n) then m0 (s + (x - d)) else m0 x.
Proof.
  revert i m. induction fuel as [|fuel IH]; intros i m Hds Hi Hfuel Hinv x; simpl.
  - replace (d <=? x) with (d + i <=? x) by (f_equal; lia). apply Hinv.
  - destruct (Z.gtb_spec i 0) as [Hlt|Hge]; [|lia].
    apply IH; [assumption | lia | lia |].
    intros y. unfold vh_preload.store.
    destruct (Z.eqb_spec y (d + (i - 1))) as [->|Hne].
    + replace (d + (i - 1) - d) with (i - 1) by lia.
      rewrite Hinv.
      destruct (Z.leb_spec (d + i) (s + (i - 1))), (Z.ltb_spec (s + (i - 1)) (d + n)),
        (Z.leb_spec (d + (i - 1)) (d + (i - 1))), (Z.ltb_spec (d + (i - 1)) (d + n));
        simpl; try lia; reflexivity.
    + rewrite Hinv.
      destruct (Z.leb_spec (d + i) y), (Z.leb_spec (d + (i - 1)) y),
        (Z.ltb_spec y (d + n)); simpl; try lia; reflexivity.
Qed.

(** C4, as amended.  Descriptors up to 2 pass through to the Linux syscall
    with their arguments unchanged.  For [write] and [read] a descriptor in
    500..599 goes to the network band (802, 803); [write] on descriptor 99
    goes to hypercall 708; every other descriptor above 2 goes to the
    storage band.  [pread] and [close] send every descriptor above 2 to the
    storage band (604, 603), the window 500..599 and descriptor 99
    included, and [read] sends descriptor 99 to 602. *)
Theorem C4_descriptor_routing (fd buf count offset : Z) :
  (fd <= 2 ->
     vh_preload.write fd buf count
       = vh_preload.raw_syscall3 64 fd (vh_preload.long buf) (vh_preload.long count) /\
     vh_preload.read fd buf count
       = vh_preload.raw_syscall3 63 fd (vh_preload.long buf) (vh_preload.long count) /\
     vh_preload.pread fd buf count offset
       = vh_preload.raw_syscall4 67 fd (vh_preload.long buf) (vh_preload.long count) offset /\
     vh_preload.close fd = vh_preload.raw_syscall3 57 fd 0 0) /\
  (500 <= fd < 600 ->
     hypercall_number (vh_preload.write fd buf count) = Some 802 /\
     hypercall_number (vh_preload.read fd buf count) = Some 803 /\
     hypercall_number (vh_preload.pread fd buf count offset) = Some 604 /\
     hypercall_number (vh_preload.close fd) = Some 603) /\
  (fd = 99 ->
     hypercall_number (vh_preload.write fd buf count) = Some 708 /\
     hypercall_number (vh_preload.read fd buf count) = Some 602 /\
     hypercall_number (vh_preload.pread fd buf count offset) = Some 604 /\
     hypercall_number (vh_preload.close fd) = Some 603) /\
  (2 < fd -> fd <> 99 -> ~ 500 <= fd < 600 ->
     hypercall_number (vh_preload.write fd buf count) = Some 601 /\
     hypercall_number (vh_preload.read fd buf count) = Some 602 /\
     hypercall_number (vh_preload.pread fd buf count offset) = Some 604 /\
     hypercall_number (vh_preload.close fd) = Some 603).
Proof.
  unfold vh_preload.write, vh_preload.read, vh_preload.pread, vh_preload.close,
    vh_preload.SYS_write, vh_preload.SYS_read, vh_preload.SYS_pread64,
    vh_preload.SYS_close.
  repeat split; intros;
    destruct (Z.eqb_spec fd 99), (Z.geb_spec fd 500), (Z.ltb_spec fd 600),
      (Z.gtb_spec fd 2); simpl; try lia; reflexivity.
Qed.

Lemma C4_descriptor_routing_witness :
  vh_preload.close 1 = vh_preload.raw_syscall3 57 1 0 0 /\
  hypercall_number (vh_preload.read 512 0 16) = Some 803 /\
  hypercall_number (vh_preload.write 99 0 16) = Some 708 /\
  hypercall_number (vh_preload.pread 7 0 16 0) = Some 604.
Proof.
  pose proof (C4_descriptor_routing 1 0 16 0) as (H1 & _).
  pose proof (C4_descriptor_routing 512 0 16 0) as (_ & H2 & _).
  pose proof (C4_descriptor_routing 99 0 16 0) as (_ & _ & H3 & _).
  pose proof (C4_descriptor_routing 7 0 16 0) as (_ & _ & _ & H4).
  split; [apply H1; lia|].
  split; [apply H2; lia|].
  split; [apply H3; reflexivity|].
  apply H4; lia.
Defined.

(** C4 as stated fails: [close] and [pread] on a descriptor of the window
    500..599 issue the storage hypercalls 603 and 604, not a network one. *)
Lemma C4_window_not_network_for_close_pread :
  hypercall_number (vh_preload.close 500) = Some 603 /\
  hypercall_number (vh_preload.pread 500 4096 16 0) = Some 604 /\
  ~ (hypercall_number (vh_preload.close 500) = Some 802 \/
     hypercall_number (vh_preload.close 500) = Some 803).
Proof.
  split; [reflexivity|]. split; [reflexivity|].
  intros [H|H]; vm_compute in H; discriminate H.
Qed.

(** C10.  For [n <= 1024] the shim's [memmove] issues no hypercall and
    returns [dest]; it runs the forward loop when [dest] is below [src] and
    the backward loop otherwise; afterwards the byte at [dest + i] is the
    byte that was at [src + i] for every [i < n] - overlapping ranges
    included - and no other byte has changed. *)
Theorem C10_memmove_local (m : vh_preload.memory) (dest src n : Z) :
  0 <= n <= 1024 ->
  exists m',
    vh_preload.memmove m dest src n = vh_preload.returned dest m' /\
    m' = (if dest <? src
          then vh_preload.copy_forward (Z.to_nat n) 0 n dest src m
          else vh_preload.copy_backward (Z.to_nat n) n dest src m) /\
    (forall i, 0 <= i < n -> m' (dest + i) = m (src + i)) /\
    (forall x, ~ dest <= x < dest + n -> m' x = m x).
Proof.
  intros Hn. unfold vh_preload.memmove.
  destruct (Z.gtb_spec n 1024) as [?|_]; [lia|].
  destruct (Z.ltb_spec dest src) as [Hlt|Hge].
  - eexists; split; [reflexivity|]. split; [reflexivity|].
    assert (Hspec := copy_forward_spec (Z.to_nat n) 0 n dest src m m Hlt).
    split.
    + intros i Hi. rewrite Hspec.
      * destruct (Z.leb_spec dest (dest + i)), (Z.ltb_spec (dest + i) (dest + n));
          simpl; try lia. f_equal; lia.
      * lia.
      * lia.
      * intros y. destruct (Z.leb_spec dest y), (Z.ltb_spec y (dest + 0));
          simpl; try lia; reflexivity.
    + intros x Hx. rewrite Hspec.
      * destruct (Z.leb_spec dest x), (Z.ltb_spec x (dest + n));
          simpl; try lia; reflexivity.
      * lia.
      * lia.
      * intros y. destruct (Z.leb_spec dest y), (Z.ltb_spec y (dest + 0));
          simpl; try lia; reflexivity.
  - eexists; split; [reflexivity|]. split; [reflexivity|].
    assert (Hspec := copy_backward_spec (Z.to_nat n) n n dest src m m Hge).
    split.
    + intros i Hi. rewrite Hspec.
      * destruct (Z.leb_spec dest (dest + i)), (Z.ltb_spec (dest + i) (dest + n));
          simpl; try lia. f_equal; lia.
      * lia.
      * lia.
      * intros y. destruct (Z.leb_spec (dest + n) y), (Z.ltb_spec y (dest + n));
          simpl; try lia; reflexivity.
    + intros x Hx. rewrite Hspec.
      * destruct (Z.leb_spec dest x), (Z.ltb_spec x (dest + n));
          simpl; try lia; reflexivity.
      * lia.
      * lia.
      * intros y. destruct (Z.leb_spec (dest + n) y), (Z.ltb_spec y (dest + n));
          simpl; try lia; reflexivity.
Qed.

Lemma C10_memmove_local_witness :
  0 <= 8 <= 1024 /\
  exists m',
    vh_preload.memmove ramp 100 104 8 = vh_preload.returned 100 m' /\
    (forall i, 0 <= i < 8 -> m' (100 + i) = ramp (104 + i)) /\
    (forall x, ~ 100 <= x < 100 + 8 -> m' x = ramp x).
Proof.
  split; [lia|].
  destruct (C10_memmove_local ramp 100 104 8 ltac:(lia)) as (m' & Hrun & _ & Hcopy & Hrest).
  exists m'. split; [exact Hrun|]. split; [exact Hcopy|exact Hrest].
Defined.

(** * Properties of the hypercall harness (vh_harness.hpp) *)


(** The native stubs fail on every call, with -38. *)
Lemma native_stubs_fail (now : Z) : host_fails (vh.native_stubs now).
Proof. repeat split; simpl; lia. Qed.












(** * Properties of the checkpoint codec (checkpoint.hpp) *)

Import checkpoint.

(** ** Integers and byte strings *)

Lemma le_combine_split_small (n : nat) (v : Z) :
  0 <= v < 2 ^ (Z.of_nat n * 8) -> le_combine (le_split n v) = v.
Proof. intros Hv. rewrite le_combine_split. apply Z.mod_small, Hv. Qed.

Lemma le_combine_split_i32 (v : Z) : is_i32 v -> to_i32 (le_combine (le_split 4 v)) = v.
Proof.
  unfold is_i32, to_i32. intros Hv. rewrite le_combine_split.
  change (Z.of_nat 4 * 8) with 32. rewrite Z.mod_mod by lia.
  destruct (Z_lt_le_dec v 0) as [Hneg|Hpos].
  - replace (v mod 2 ^ 32) with (v + 2 ^ 32)
      by (apply Z.mod_unique with (q := -1); lia).
    destruct (Z.ltb_spec (v + 2 ^ 32) (2 ^ 31)); lia.
  - rewrite Z.mod_small by lia.
    destruct (Z.ltb_spec v (2 ^ 31)); lia.
Qed.

Lemma to_u32_small (v : Z) : is_u32 v -> to_u32 v = v.
Proof. intros Hv. apply Z.mod_small, Hv. Qed.

Lemma to_u64_small (v : Z) : is_u64 v -> to_u64 v = v.
Proof. intros Hv. apply Z.mod_small, Hv. Qed.

Lemma slice_app_exact (bs rest : list byte) :
  slice (bs ++ rest) 0 (Z.of_nat (length bs)) = bs.
Proof.
  unfold slice. rewrite Nat2Z.id. simpl. rewrite drop_0.
  apply take_app_length.
Qed.

Lemma zeros_length (n : nat) : length (zeros n) = n.
Proof. apply repeat_length. Qed.

(** ** Layout of a saved blob *)

Lemma foldl_emit {A : Type} (g : A -> list byte) (l : list A) (out : list byte) :
  foldl (fun out x => out ++ g x) out l = out ++ concat (map g l).
Proof.
  revert out. induction l as [|x l IH]; intros out; simpl.
  - rewrite app_nil_r. reflexivity.
  - rewrite IH, app_assoc. reflexivity.
Qed.

Lemma foldl_pointwise {A B : Type} (f g : A -> B -> A) (l : list B) (a : A) :
  (forall a x, f a x = g a x) -> foldl f a l = foldl g a l.
Proof.
  intros Hfg. revert a. induction l as [|x l IH]; intros a; simpl.
  - reflexivity.
  - rewrite Hfg. apply IH.
Qed.

Lemma map_lookup_total_seq (l : list Z) :
  map (fun i => l !!! i) (seq 0 (length l)) = l.
Proof.
  apply list_eq. intros i. rewrite list_lookup_fmap.
  destruct (Nat.lt_ge_cases i (length l)) as [Hlt|Hge].
  - rewrite lookup_seq_lt by assumption. simpl.
    destruct (lookup_lt_is_Some_2 l i Hlt) as [x Hx].
    rewrite Hx. f_equal. apply list_lookup_total_correct, Hx.
  - rewrite lookup_seq_ge by assumption. simpl.
    symmetry. apply lookup_ge_None_2, Hge.
Qed.

Lemma save_regs_layout (regs : list Z) (out : list byte) :
  length regs = 32%nat ->
  foldl (fun out i => emit_val 8 out (regs !!! i)) out (seq 0 32)
  = out ++ concat (map (le_split 8) regs).
Proof.
  intros Hlen. unfold emit_val, emit.
  rewrite (foldl_emit (fun i => le_split 8 (regs !!! i))).
  f_equal. f_equal.
  rewrite <- (map_map (fun i => regs !!! i) (le_split 8)).
  rewrite <- Hlen, map_lookup_total_seq. reflexivity.
Qed.

Lemma save_header_layout (out : list byte) : save_header out = out ++ enc_header.
Proof.
  unfold save_header, enc_header, emit_val, emit.
  rewrite <- !app_assoc. reflexivity.
Qed.

Lemma save_locals_layout (s : State) (out : list byte) :
  length (reg (cpu s)) = 32%nat -> length (fl (cpu s)) = 32%nat ->
  save_exec_ctx (save_cpu out (cpu s)) (mmap_address (memory s)) (g_exec_ctx (sys s))
  = out ++ enc_locals s.
Proof.
  intros Hreg Hfl. unfold save_exec_ctx, save_cpu, enc_locals.
  rewrite (save_regs_layout (fl (cpu s))) by assumption.
  rewrite (save_regs_layout (reg (cpu s))) by assumption.
  unfold emit_val, emit.
  rewrite (foldl_emit (fun _ : nat => le_split 1 0)).
  simpl seq. simpl map.
  rewrite <- !app_assoc. reflexivity.
Qed.

Lemma save_sched_layout (s : Syscalls) (out : list byte) :
  save_sched out s = out ++ enc_sched s.
Proof.
  unfold save_sched, enc_sched, emit_val, emit.
  rewrite <- !app_assoc. reflexivity.
Qed.

Lemma save_interests_layout (m : gmap Z EpollInterest) (out : list byte) :
  save_interests out m = out ++ concat (map enc_interest (map_to_list m)).
Proof.
  unfold save_interests, emit_val, emit.
  rewrite <- (foldl_emit enc_interest).
  apply foldl_pointwise. intros acc e. unfold enc_interest.
  rewrite <- !app_assoc. reflexivity.
Qed.

Lemma save_epoll_layout (m : gmap Z EpollInstance) (out : list byte) :
  save_epoll out m = out ++ enc_epoll m.
Proof.
  unfold save_epoll, enc_epoll, emit_val, emit.
  rewrite app_assoc, <- (foldl_emit enc_instance).
  apply foldl_pointwise. intros acc e. unfold enc_instance.
  rewrite save_interests_layout, <- !app_assoc. reflexivity.
Qed.

Lemma save_eventfd_layout (m : gmap Z Z) (out : list byte) :
  save_eventfd out m = out ++ enc_eventfd m.
Proof.
  unfold save_eventfd, enc_eventfd, emit_val, emit.
  rewrite app_assoc, <- (foldl_emit enc_counter).
  apply foldl_pointwise. intros acc e. unfold enc_counter.
  rewrite <- !app_assoc. reflexivity.
Qed.

Lemma save_exec_pages_layout (l : list Z) (out : list byte) :
  save_exec_pages out l = out ++ enc_exec_pages l.
Proof.
  unfold save_exec_pages, enc_exec_pages, emit_val, emit.
  rewrite app_assoc, <- (foldl_emit (le_split 8)). reflexivity.
Qed.

Lemma save_full_chunks_out (fuel : nat) (a : list byte) (offset : Z) (out : list byte) :
  save_full_chunks fuel a offset out = out ++ save_full_chunks fuel a offset [].
Proof.
  revert offset out. induction fuel as [|fuel IH]; intros offset out;
    cbn [save_full_chunks].
  - rewrite app_nil_r. reflexivity.
  - destruct (offset + CHUNK_SIZE <=? Z.of_nat (length a)); [|rewrite app_nil_r; reflexivity].
    destruct (chunk_all_zero a offset); [apply IH|].
    cbv zeta. unfold emit_val, emit.
    rewrite (IH _ (((out ++ _) ++ _) ++ _)), (IH _ ((([] ++ _) ++ _) ++ _)).
    rewrite <- !app_assoc, app_nil_l. reflexivity.
Qed.

Lemma save_tail_out (a : list byte) (out : list byte) :
  save_tail a out = out ++ save_tail a [].
Proof.
  unfold save_tail. cbv zeta.
  destruct (_ <? _); [|rewrite app_nil_r; reflexivity].
  destruct (negb _); [|rewrite app_nil_r; reflexivity].
  unfold emit_val, emit. rewrite <- !app_assoc, app_nil_l. reflexivity.
Qed.

Lemma save_arena_out (a : list byte) (out : list byte) :
  save_arena out a = out ++ save_arena [] a.
Proof.
  unfold save_arena, save_sentinel, emit_val, emit. cbv zeta.
  rewrite save_full_chunks_out, save_tail_out.
  rewrite (save_tail_out a (save_full_chunks _ _ _ [])).
  rewrite <- !app_assoc. reflexivity.
Qed.

(** A saved blob is the sections followed by the chunk stream. *)
Lemma save_checkpoint_layout (s : State) :
  length (reg (cpu s)) = 32%nat -> length (fl (cpu s)) = 32%nat ->
  save_checkpoint s = enc_sections s ++ save_arena [] (arena (memory s)).
Proof.
  intros Hreg Hfl. unfold save_checkpoint, enc_sections.
  rewrite save_arena_out, save_exec_pages_layout, save_eventfd_layout,
    save_epoll_layout, save_sched_layout, save_locals_layout, save_header_layout
    by assumption.
  rewrite app_nil_l, <- !app_assoc. reflexivity.
Qed.

(** ** Rebuilding a map from its enumeration *)

Lemma foldl_insert_foldr {A : Type} (l : list (Z * A)) (acc : gmap Z A) :
  foldl (fun m e => <[fst e := snd e]> m) acc l
  = foldr (fun e => <[fst e := snd e]>) acc (reverse l).
Proof.
  revert acc. induction l as [|x l IH]; intros acc; simpl.
  - reflexivity.
  - rewrite IH, reverse_cons, foldr_app. reflexivity.
Qed.

Lemma foldl_insert_map_to_list {A : Type} (X : gmap Z A) :
  foldl (fun m e => <[fst e := snd e]> m) ∅ (map_to_list X) = X.
Proof.
  rewrite foldl_insert_foldr.
  change (list_to_map (reverse (map_to_list X)) = X).
  rewrite <- (list_to_map_proper (map_to_list X) (reverse (map_to_list X))).
  - apply list_to_map_to_list.
  - apply NoDup_fst_map_to_list.
  - symmetry. apply reverse_Permutation.
Qed.

(** The inner loop of [load_instances] fills the instance at [epfd]. *)
Lemma foldl_set_interest (epfd : Z) (l : list (Z * EpollInterest))
  (acc : gmap Z EpollInterest) (m : gmap Z EpollInstance) :
  foldl (fun m i => set_interest epfd (fst i) (snd i) m) (<[epfd := mkInstance acc]> m) l
  = <[epfd := mkInstance (foldl (fun a i => <[fst i := snd i]> a) acc l)]> m.
Proof.
  revert acc. induction l as [|i l IH]; intros acc; simpl.
  - reflexivity.
  - unfold set_interest at 2. rewrite alter_insert_eq. simpl. apply IH.
Qed.

(** One iteration of [load_instances] on a fresh key inserts the instance. *)
Lemma load_instance_fresh (e : Z * EpollInstance) (m : gmap Z EpollInstance) :
  m !! fst e = None ->
  foldl (fun m i => set_interest (fst e) (fst i) (snd i) m)
        (touch_instance (fst e) m) (map_to_list (interests (snd e)))
  = <[fst e := snd e]> m.
Proof.
  intros Hfresh. unfold touch_instance. rewrite Hfresh.
  rewrite foldl_set_interest, foldl_insert_map_to_list.
  destruct e as [k [X]]. reflexivity.
Qed.

Lemma instances_loaded_fresh (l : list (Z * EpollInstance)) (m : gmap Z EpollInstance) :
  NoDup (l.*1) -> (forall k, k ∈ l.*1 -> m !! k = None) ->
  instances_loaded l m = foldl (fun m e => <[fst e := snd e]> m) m l.
Proof.
  unfold instances_loaded.
  revert m. induction l as [|e l IH]; intros m Hnd Hfresh; simpl.
  - reflexivity.
  - simpl in Hnd. apply NoDup_cons in Hnd as [Hnotin Hnd].
    rewrite load_instance_fresh by (apply Hfresh; simpl; left).
    apply IH; [exact Hnd|].
    intros k Hk. rewrite lookup_insert_ne.
    + apply Hfresh. simpl. right. exact Hk.
    + intros Heq. apply Hnotin. rewrite Heq. exact Hk.
Qed.

Lemma instances_loaded_map_to_list (M : gmap Z EpollInstance) :
  instances_loaded (map_to_list M) ∅ = M.
Proof.
  rewrite instances_loaded_fresh.
  - apply foldl_insert_map_to_list.
  - apply NoDup_fst_map_to_list.
  - intros k _. apply lookup_empty.
Qed.

(** ** The executable-page list *)

Lemma collect_exec_pages_acc (l : list (Z * PageAttributes)) (acc : list Z) :
  foldl (fun acc e => if exec (snd e) then acc ++ [to_u64 (fst e)] else acc) acc l
  = acc ++ map (fun e => to_u64 (fst e)) (filter (fun e => exec (snd e) = true) l).
Proof.
  revert acc. induction l as [|e l IH]; intros acc; simpl.
  - rewrite app_nil_r. reflexivity.
  - rewrite IH. rewrite filter_cons.
    destruct (exec (snd e)) eqn:E.
    + rewrite decide_True by reflexivity. simpl. rewrite <- app_assoc. reflexivity.
    + rewrite decide_False by discriminate. reflexivity.
Qed.

Lemma collect_exec_pages_filter (pg : gmap Z PageAttributes) :
  collect_exec_pages pg
  = map (fun e => to_u64 (fst e)) (filter (fun e => exec (snd e) = true) (map_to_list pg)).
Proof. unfold collect_exec_pages. apply collect_exec_pages_acc. Qed.

Lemma collect_exec_pages_range (pg : gmap Z PageAttributes) :
  Forall is_u64 (collect_exec_pages pg).
Proof.
  rewrite collect_exec_pages_filter. apply Forall_forall. intros x Hx.
  apply list_elem_of_In, in_map_iff in Hx as (e & <- & _).
  unfold is_u64, to_u64. apply Z.mod_pos_bound. lia.
Qed.

Lemma collect_exec_pages_length (pg : gmap Z PageAttributes) :
  (length (collect_exec_pages pg) <= size pg)%nat.
Proof.
  rewrite collect_exec_pages_filter, length_map, <- length_map_to_list.
  apply length_filter.
Qed.

(** A page number is collected exactly when its page is executable. *)
Lemma elem_of_collect_exec_pages (pg : gmap Z PageAttributes) (pn : Z) :
  Forall (fun e => is_u64 (fst e)) (map_to_list pg) ->
  pn ∈ collect_exec_pages pg <-> exists a, pg !! pn = Some a /\ exec a = true.
Proof.
  intros Hkeys. rewrite collect_exec_pages_filter. split.
  - intros Hin. apply list_elem_of_fmap in Hin as ([k a] & -> & Hin).
    apply list_elem_of_filter in Hin as [Hexec Hin]. simpl in *.
    rewrite Forall_forall in Hkeys. specialize (Hkeys _ Hin). simpl in Hkeys.
    rewrite to_u64_small by exact Hkeys.
    exists a. split; [|exact Hexec]. apply elem_of_map_to_list, Hin.
  - intros (a & Hlook & Hexec).
    apply elem_of_map_to_list in Hlook.
    rewrite Forall_forall in Hkeys. pose proof (Hkeys _ Hlook) as Hk. simpl in Hk.
    apply list_elem_of_fmap. exists (pn, a). simpl.
    rewrite to_u64_small by exact Hk. split; [reflexivity|].
    apply list_elem_of_filter. split; [exact Hexec|exact Hlook].
Qed.
(** ** The reader on an encoded prefix, and on a prefix cut short *)

Section Decoding.

(** What a parse that fails half-way may have done to the live state. *)
Variable R : State -> State -> Prop.
Hypothesis R_refl : forall s, R s s.
Hypothesis R_trans : forall s1 s2 s3, R s1 s2 -> R s2 s3 -> R s1 s3.

Lemma decodes_ret {A : Type} (s : State) (a : A) :
  decodes_at R s (mret a) [] a s [].
Proof.
  repeat split; [| |apply R_refl].
  - intros rest e. simpl. rewrite app_nil_r. reflexivity.
  - intros _ n e Hn. simpl in Hn. lia.
Qed.

Lemma decodes_bind {A B : Type} (s s1 s2 : State) (c : prog A) (k : A -> prog B)
  (enc1 enc2 : list byte) (a : A) (b : B) (d1 d2 : list diag) :
  decodes_at R s c enc1 a s1 d1 ->
  decodes_at R s1 (k a) enc2 b s2 d2 ->
  decodes_at R s (c ≫= k) (enc1 ++ enc2) b s2 (d1 ++ d2).
Proof.
  intros (Hok1 & Hshort1 & HR1) (Hok2 & Hshort2 & HR2).
  repeat split; [| |eapply R_trans; eassumption].
  - intros rest e. unfold mbind, prog_bind.
    rewrite <- app_assoc, Hok1, Hok2, app_assoc. reflexivity.
  - intros Hb n e Hn. unfold mbind, prog_bind.
    rewrite length_app in Hb.
    destruct (Nat.lt_ge_cases n (length enc1)) as [Hlt|Hge].
    + rewrite take_app_le by lia.
      destruct (Hshort1 ltac:(lia) n e Hlt) as (w' & -> & HR). eauto.
    + rewrite take_app_ge by lia.
      rewrite Hok1.
      rewrite length_app in Hn.
      destruct (Hshort2 ltac:(lia) (n - length enc1)%nat (e ++ d1)) as (w' & -> & HR); [lia|].
      eexists; split; [reflexivity|]. eapply R_trans; eassumption.
Qed.

Lemma decodes_read_into (s : State) (bs : list byte) :
  decodes_at R s (read_into (Z.of_nat (length bs))) bs bs s [].
Proof.
  repeat split; [| |apply R_refl].
  - intros rest e. unfold read_into. simpl.
    destruct (Z.ltb_spec (Z.of_nat (length (bs ++ rest))) (Z.of_nat (length bs))) as [H|_].
    { rewrite length_app in H. lia. }
    rewrite slice_app_exact, Nat2Z.id, drop_app_length, app_nil_r. reflexivity.
  - intros Hb n e Hn. unfold read_into. simpl.
    destruct (Z.ltb_spec (Z.of_nat (length (take n bs))) (Z.of_nat (length bs))) as [_|H].
    + destruct (Z.ltb_spec (Z.of_nat (length bs)) (2 ^ 63)) as [_|H]; [|lia].
      eexists; split; [reflexivity|]. apply R_refl.
    + rewrite length_take in H. lia.
Qed.

Lemma decodes_read_bytes (s : State) (bs : list byte) :
  decodes_at R s (read_bytes (Z.of_nat (length bs))) bs bs s [].
Proof.
  repeat split; [| |apply R_refl].
  - intros rest e. unfold read_bytes. simpl.
    destruct (Z.ltb_spec (Z.of_nat (length (bs ++ rest))) (Z.of_nat (length bs))) as [H|_].
    { rewrite length_app in H. lia. }
    rewrite slice_app_exact, Nat2Z.id, drop_app_length, app_nil_r. reflexivity.
  - intros _ n e Hn. unfold read_bytes. simpl.
    destruct (Z.ltb_spec (Z.of_nat (length (take n bs))) (Z.of_nat (length bs))) as [_|H].
    + eexists; split; [reflexivity|]. apply R_refl.
    + rewrite length_take in H. lia.
Qed.

Lemma decodes_read_raw (s : State) (w : nat) (v : Z) :
  decodes_at R s (read_val w) (le_split w v) (le_combine (le_split w v)) s [].
Proof.
  unfold read_val.
  rewrite <- (app_nil_r (le_split w v)) at 1.
  change (@nil diag) with (@nil diag ++ []).
  eapply decodes_bind.
  - rewrite <- (length_le_split w v) at 1. apply decodes_read_bytes.
  - apply decodes_ret.
Qed.

Lemma decodes_read_val (s : State) (w : nat) (v : Z) :
  0 <= v < 2 ^ (Z.of_nat w * 8) ->
  decodes_at R s (read_val w) (le_split w v) v s [].
Proof.
  intros Hv. rewrite <- (le_combine_split_small w v Hv) at 2.
  apply decodes_read_raw.
Qed.

Lemma decodes_read_i32 (s : State) (v : Z) :
  is_i32 v -> decodes_at R s read_i32 (le_split 4 v) v s [].
Proof.
  intros Hv. unfold read_i32.
  rewrite <- (app_nil_r (le_split 4 v)).
  change (@nil diag) with (@nil diag ++ []).
  eapply decodes_bind; [apply decodes_read_raw|].
  rewrite (le_combine_split_i32 v Hv). apply decodes_ret.
Qed.

Lemma decodes_set_sys (s : State) (f : Syscalls -> Syscalls) :
  R s (mkState (cpu s) (memory s) (f (sys s))) ->
  decodes_at R s (set_sys f) [] tt (mkState (cpu s) (memory s) (f (sys s))) [].
Proof.
  intros HR. repeat split; [| |exact HR].
  - intros rest e. unfold set_sys. simpl. rewrite app_nil_r. reflexivity.
  - intros _ n e Hn. simpl in Hn. lia.
Qed.

Lemma decodes_fprintf (s : State) (d : diag) :
  decodes_at R s (fprintf d) [] tt s [d].
Proof.
  repeat split; [|apply R_refl].
  intros _ n e Hn. simpl in Hn. lia.
Qed.

Lemma decodes_get_live {B : Type} (s s' : State) (k : State -> prog B)
  (enc : list byte) (b : B) (d : list diag) :
  decodes_at R s (k s) enc b s' d ->
  decodes_at R s (get_live ≫= k) enc b s' d.
Proof.
  intros (Hok & Hshort & HR). repeat split; [| |exact HR].
  - intros rest e. unfold mbind, prog_bind, get_live. simpl. apply Hok.
  - intros Hb n e Hn. unfold mbind, prog_bind, get_live. simpl. apply Hshort; assumption.
Qed.

(** [read_array] on the concatenation of the encodings of [vs]. *)
Lemma decodes_read_array (s : State) (w : nat) (vs : list Z) :
  Forall (fun v => 0 <= v < 2 ^ (Z.of_nat w * 8)) vs ->
  decodes_at R s (read_array (length vs) w) (concat (map (le_split w) vs)) vs s [].
Proof.
  induction 1 as [|v vs Hv Hvs IH]; simpl.
  - apply decodes_ret.
  - change (@nil diag) with (@nil diag ++ []).
    eapply decodes_bind; [apply decodes_read_val, Hv|].
    rewrite <- (app_nil_r (concat _)).
    change (@nil diag) with (@nil diag ++ []).
    eapply decodes_bind; [apply IH|]. apply decodes_ret.
Qed.

Lemma length_concat_le_split (w : nat) (vs : list Z) :
  length (concat (map (le_split w) vs)) = (w * length vs)%nat.
Proof.
  induction vs as [|v vs IH]; simpl; [lia|].
  rewrite length_app, length_le_split, IH. lia.
Qed.

(** The vector of executable pages and its reads, on the pages of a
    saved state. *)
Lemma decodes_alloc_read (s : State) (vs : list Z) :
  Forall is_u64 vs ->
  decodes_at R s (alloc_exec_pages (Z.of_nat (length vs));; read_array (length vs) 8)
    (concat (map (le_split 8) vs)) vs s [].
Proof.
  intros Hvs.
  destruct (decodes_read_array s 8 vs) as (Hok & Hshort & HR).
  { eapply Forall_impl; [exact Hvs|]. intros v Hv. unfold is_u64 in Hv. simpl. lia. }
  pose proof (length_concat_le_split 8 vs) as Hlen.
  repeat split; [| |exact HR].
  - intros rest e. unfold mbind at 1, prog_bind at 1, alloc_exec_pages.
    unfold mbind at 1, prog_bind at 1, remaining. cbn [r].
    replace (Z.of_nat (length (concat (map (le_split 8) vs) ++ rest)) <?
             8 * Z.of_nat (length vs)) with false
      by (symmetry; apply Z.ltb_ge; rewrite length_app; lia).
    rewrite andb_false_r. cbn. apply Hok.
  - intros Hb n e Hn. unfold mbind at 1, prog_bind at 1, alloc_exec_pages.
    unfold mbind at 1, prog_bind at 1, remaining. cbn [r].
    replace (Z.of_nat (length vs) >? max_size) with false
      by (symmetry; rewrite Z.gtb_ltb; apply Z.ltb_ge; unfold max_size; lia).
    cbn. apply Hshort; assumption.
Qed.

Lemma decodes_bind_enc {A B : Type} (s s1 s2 : State) (c : prog A) (k : A -> prog B)
  (enc enc1 enc2 : list byte) (a : A) (b : B) (d1 d2 : list diag) :
  enc = enc1 ++ enc2 ->
  decodes_at R s c enc1 a s1 d1 ->
  decodes_at R s1 (k a) enc2 b s2 d2 ->
  decodes_at R s (c ≫= k) enc b s2 (d1 ++ d2).
Proof. intros ->. apply decodes_bind. Qed.

Lemma decodes_bind_pure {A B : Type} (s s1 s2 : State) (c : prog A) (k : A -> prog B)
  (enc : list byte) (a : A) (b : B) (d1 d2 : list diag) :
  decodes_at R s c [] a s1 d1 ->
  decodes_at R s1 (k a) enc b s2 d2 ->
  decodes_at R s (c ≫= k) enc b s2 (d1 ++ d2).
Proof. intros H1 H2. apply (decodes_bind _ _ _ _ _ [] enc _ _ _ _ H1 H2). Qed.

Lemma decodes_cast {A : Type} (s s' s'' : State) (c : prog A) (enc : list byte)
  (a a' : A) (d d' : list diag) :
  decodes_at R s c enc a s' d -> a = a' -> s' = s'' -> d = d' ->
  decodes_at R s c enc a' s'' d'.
Proof. intros H <- <- <-. exact H. Qed.

(** The header of a saved blob. *)
Lemma decodes_header (s : State) :
  decodes_at R s load_header enc_header tt s [].
Proof.
  eapply decodes_cast; [|reflexivity|reflexivity|].
  - unfold load_header, enc_header.
    eapply decodes_bind_enc; [reflexivity|apply (decodes_read_into s MAGIC)|].
    cbv beta. rewrite (bool_decide_eq_true_2 _ (eq_refl MAGIC)). cbn [negb].
    eapply decodes_bind_enc; [reflexivity|
      apply decodes_read_val; unfold VERSION; simpl; lia|].
    cbv beta. rewrite Z.eqb_refl. cbn [negb].
    rewrite <- (app_nil_r (le_split 4 0)).
    eapply decodes_bind_enc; [reflexivity|apply decodes_read_val; simpl; lia|].
    apply decodes_ret.
  - reflexivity.
Qed.

(** The fixed-size fields of a saved blob. *)
Lemma decodes_locals (s0 s : State) :
  wf_cpu (cpu s0) -> is_u64 (mmap_address (memory s0)) ->
  wf_exec_ctx (g_exec_ctx (sys s0)) ->
  decodes_at R s load_locals (enc_locals s0) (locals_of s0) s [].
Proof.
  intros (Hpc & Hfcsr & Hnreg & Hreg & Hnfl & Hfl) Hmmap
    (H1 & H2 & H3 & H4 & H5 & H6 & H7 & H8 & H9 & H10 & H11 & H12).
  eapply decodes_cast; [|reflexivity|reflexivity|].
  - unfold load_locals, enc_locals. cbv zeta.
    eapply decodes_bind_enc; [reflexivity|apply decodes_read_val; eassumption|].
    eapply decodes_bind_enc; [reflexivity|apply decodes_read_val; eassumption|].
    eapply decodes_bind_enc; [reflexivity|apply decodes_read_val; simpl; lia|].
    eapply decodes_bind_enc; [reflexivity|
      rewrite <- Hnreg; apply decodes_read_array; eassumption|].
    eapply decodes_bind_enc; [reflexivity|
      rewrite <- Hnfl; apply decodes_read_array; eassumption|].
    do 13 (eapply decodes_bind_enc; [reflexivity|apply decodes_read_val; eassumption|]).
    eapply decodes_bind_enc; [reflexivity|
      apply decodes_read_val; destruct (brk_overridden _); simpl; lia|].
    eapply decodes_bind_enc; [reflexivity|
      apply decodes_read_val; destruct (dynamic _); simpl; lia|].
    rewrite <- (app_nil_r (concat _)).
    eapply decodes_bind_enc; [reflexivity|
      apply (decodes_read_array s 1 [0; 0; 0; 0; 0; 0]);
      repeat constructor; simpl; lia|].
    apply decodes_ret.
  - reflexivity.
Qed.

(** From here on the parse writes into the globals of [syscalls]; [R] has
    to allow that, as long as the exec context and the resume flag stay. *)
Hypothesis R_sys : forall s f,
  g_exec_ctx (f (sys s)) = g_exec_ctx (sys s) ->
  g_waiting_for_stdin (f (sys s)) = g_waiting_for_stdin (sys s) ->
  R s (mkState (cpu s) (memory s) (f (sys s))).

Lemma decodes_set_sys_kernel (s : State) (f : Syscalls -> Syscalls) :
  g_exec_ctx (f (sys s)) = g_exec_ctx (sys s) ->
  g_waiting_for_stdin (f (sys s)) = g_waiting_for_stdin (sys s) ->
  decodes_at R s (set_sys f) [] tt (mkState (cpu s) (memory s) (f (sys s))) [].
Proof. intros H1 H2. apply decodes_set_sys, R_sys; assumption. Qed.

Ltac dec_read lem :=
  eapply decodes_bind_enc; [reflexivity|apply lem; eassumption|]; cbv beta.

Ltac dec_set :=
  eapply decodes_bind_pure; [apply decodes_set_sys_kernel; reflexivity|]; cbv beta.

(** The scheduler block and the two counters. *)
Lemma decodes_sched (k : Syscalls) (s : State) :
  length (g_sched (sys s)) = length (g_sched k) ->
  is_i32 (g_next_pid k) -> is_i32 (g_next_epoll_fd k) ->
  decodes_at R s load_sched (enc_sched k) tt
    (mkState (cpu s) (memory s)
       (with_next_epoll_fd (g_next_epoll_fd k)
          (with_next_pid (g_next_pid k) (with_sched (g_sched k) (sys s))))) [].
Proof.
  intros Hlen Hpid Hefd.
  eapply decodes_cast.
  - unfold load_sched, enc_sched.
    apply decodes_get_live. rewrite Hlen.
    eapply decodes_bind_enc; [reflexivity|apply decodes_read_into|]; cbv beta.
    dec_set.
    dec_read decodes_read_i32.
    dec_set.
    rewrite <- (app_nil_r (le_split 4 _)).
    dec_read decodes_read_i32.
    apply decodes_set_sys_kernel; reflexivity.
  - reflexivity.
  - reflexivity.
  - reflexivity.
Qed.

Lemma upd_epoll_id (s : State) : upd_epoll (fun m => m) s = s.
Proof. destruct s as [c m [x sc p e ep ev w]]. reflexivity. Qed.

(** The interests of one instance. *)
Lemma decodes_interests (epfd : Z) (l : list (Z * EpollInterest)) (s : State) :
  Forall wf_interest l ->
  decodes_at R s (load_interests (length l) epfd) (concat (map enc_interest l)) tt
    (upd_epoll (fun m => foldl (fun m i => set_interest epfd (fst i) (snd i) m) m l) s) [].
Proof.
  intros Hl. revert s.
  induction Hl as [|[fd [ev da]] l (Hfd & Hev & Hdata) Hl IH]; intros s.
  - cbn [length load_interests map concat foldl]. rewrite upd_epoll_id.
    apply decodes_ret.
  - cbn [length load_interests map concat foldl]. cbn [fst snd events data] in *.
    eapply decodes_cast.
    + unfold enc_interest at 1. cbn [fst snd events data]. rewrite <- !app_assoc.
      dec_read decodes_read_i32.
      dec_read decodes_read_val.
      dec_read decodes_read_val.
      dec_set.
      apply IH.
    + reflexivity.
    + reflexivity.
    + reflexivity.
Qed.

(** The epoll instances. *)
Lemma decodes_instances (l : list (Z * EpollInstance)) (s : State) :
  Forall wf_instance l ->
  decodes_at R s (load_instances (length l)) (concat (map enc_instance l)) tt
    (upd_epoll (instances_loaded l) s) [].
Proof.
  intros Hl. revert s. induction Hl as [|e l (Hfd & Hsz & Hints) Hl IH]; intros s.
  - cbn [length load_instances map concat]. unfold instances_loaded. cbn [foldl].
    rewrite upd_epoll_id. apply decodes_ret.
  - cbn [length load_instances map concat].
    eapply decodes_cast.
    + unfold enc_instance at 1. rewrite <- !app_assoc.
      rewrite (to_u32_small _ Hsz).
      dec_read decodes_read_i32.
      dec_read decodes_read_val.
      dec_set.
      rewrite Nat2Z.id, <- length_map_to_list.
      eapply decodes_bind_enc; [reflexivity|apply decodes_interests; eassumption|].
      cbv beta. apply IH.
    + reflexivity.
    + reflexivity.
    + reflexivity.
Qed.

Lemma decodes_epoll (M : gmap Z EpollInstance) (s : State) :
  is_u32 (Z.of_nat (size M)) -> Forall wf_instance (map_to_list M) ->
  decodes_at R s load_epoll (enc_epoll M) tt
    (upd_epoll (fun _ => M) s) [restored_epoll (Z.of_nat (size M))].
Proof.
  intros Hsz HM.
  eapply decodes_cast.
  - unfold load_epoll, enc_epoll. rewrite (to_u32_small _ Hsz).
    dec_read decodes_read_val.
    dec_set.
    rewrite Nat2Z.id, <- length_map_to_list.
    rewrite <- (app_nil_r (concat _)).
    eapply decodes_bind_enc; [reflexivity|apply decodes_instances; eassumption|].
    cbv beta. apply decodes_fprintf.
  - reflexivity.
  - unfold upd_epoll, with_epoll_instances. cbn.
    rewrite instances_loaded_map_to_list. reflexivity.
  - cbn [app]. rewrite length_map_to_list. reflexivity.
Qed.

Lemma upd_eventfd_id (s : State) : upd_eventfd (fun m => m) s = s.
Proof. destruct s as [c m [x sc p e ep ev w]]. reflexivity. Qed.

(** The eventfd counters. *)
Lemma decodes_counters (l : list (Z * Z)) (s : State) :
  Forall wf_counter l ->
  decodes_at R s (load_counters (length l)) (concat (map enc_counter l)) tt
    (upd_eventfd (fun m => foldl (fun m e => <[fst e := snd e]> m) m l) s) [].
Proof.
  intros Hl. revert s. induction Hl as [|[fd v] l (Hfd & Hv) Hl IH]; intros s.
  - cbn [length load_counters map concat foldl]. rewrite upd_eventfd_id.
    apply decodes_ret.
  - cbn [length load_counters map concat foldl]. cbn [fst snd] in *.
    eapply decodes_cast.
    + unfold enc_counter at 1. cbn [fst snd]. rewrite <- !app_assoc.
      dec_read decodes_read_i32.
      dec_read decodes_read_val.
      dec_set.
      apply IH.
    + reflexivity.
    + reflexivity.
    + reflexivity.
Qed.

Lemma decodes_eventfd (M : gmap Z Z) (s : State) :
  is_u32 (Z.of_nat (size M)) -> Forall wf_counter (map_to_list M) ->
  decodes_at R s load_eventfd (enc_eventfd M) tt
    (upd_eventfd (fun _ => M) s) [restored_eventfd (Z.of_nat (size M))].
Proof.
  intros Hsz HM.
  eapply decodes_cast.
  - unfold load_eventfd, enc_eventfd. rewrite (to_u32_small _ Hsz).
    dec_read decodes_read_val.
    dec_set.
    rewrite Nat2Z.id, <- length_map_to_list.
    rewrite <- (app_nil_r (concat _)).
    eapply decodes_bind_enc; [reflexivity|apply decodes_counters; eassumption|].
    cbv beta. apply decodes_fprintf.
  - reflexivity.
  - unfold upd_eventfd, with_eventfd_counters. cbn.
    rewrite foldl_insert_map_to_list. reflexivity.
  - cbn [app]. rewrite length_map_to_list. reflexivity.
Qed.

(** The executable-page list. *)
Lemma decodes_exec_pages (l : list Z) (s : State) :
  is_u64 (Z.of_nat (length l)) -> Forall is_u64 l ->
  decodes_at R s load_exec_pages (enc_exec_pages l) l s [].
Proof.
  intros Hn Hl.
  eapply decodes_cast.
  - unfold load_exec_pages, enc_exec_pages.
    dec_read decodes_read_val.
    rewrite Nat2Z.id. apply decodes_alloc_read. exact Hl.
  - reflexivity.
  - reflexivity.
  - reflexivity.
Qed.

(** All sections of a blob saved from [s0], parsed in a machine [t] whose
    scheduler block has the size of that of [s0]. *)
Lemma decodes_sections (s0 t : State) :
  well_formed s0 ->
  length (g_sched (sys t)) = length (g_sched (sys s0)) ->
  decodes_at R t load_sections (enc_sections s0)
    (locals_of s0, collect_exec_pages (pages (memory s0)))
    (parsed_into s0 t)
    [restored_epoll (Z.of_nat (size (g_epoll_instances (sys s0))));
     restored_eventfd (Z.of_nat (size (g_eventfd_counters (sys s0))))].
Proof.
  intros (Hcpu & (Hmmap & Hnpg & Hpg & Harena) &
          (Hctx & Hpid & Hefd & Hnep & Hep & Hnev & Hev)) Hlen.
  eapply decodes_cast.
  - unfold load_sections, enc_sections.
    eapply decodes_bind_enc; [reflexivity|apply decodes_header|]; cbv beta.
    eapply decodes_bind_enc; [reflexivity|apply decodes_locals; eassumption|]; cbv beta.
    eapply decodes_bind_enc; [reflexivity|apply decodes_sched; eassumption|]; cbv beta.
    eapply decodes_bind_enc; [reflexivity|apply decodes_epoll; eassumption|]; cbv beta.
    eapply decodes_bind_enc; [reflexivity|apply decodes_eventfd; eassumption|]; cbv beta.
    rewrite <- (app_nil_r (enc_exec_pages _)).
    eapply decodes_bind_enc; [reflexivity| |apply decodes_ret].
    apply decodes_exec_pages; [|apply collect_exec_pages_range].
    pose proof (collect_exec_pages_length (pages (memory s0))).
    unfold is_u64 in *. lia.
  - reflexivity.
  - reflexivity.
  - reflexivity.
Qed.

End Decoding.

(** ** Running the reader *)

Lemma always_refl (s : State) : (fun _ _ : State => True) s s.
Proof. exact I. Qed.

Lemma always_trans (s1 s2 s3 : State) :
  (fun _ _ : State => True) s1 s2 -> (fun _ _ : State => True) s2 s3 ->
  (fun _ _ : State => True) s1 s3.
Proof. intros _ _. exact I. Qed.

Lemma bind_ok {A B : Type} (c : prog A) (k : A -> prog B) (w w' : World) (a : A) :
  c w = (Ok a, w') -> (c ≫= k) w = k a w'.
Proof. intros H. unfold mbind, prog_bind. rewrite H. reflexivity. Qed.

Lemma bind_throw {A B : Type} (c : prog A) (k : A -> prog B) (w w' : World) (e : exn) :
  c w = (Throw e, w') -> (c ≫= k) w = (Throw e, w').
Proof. intros H. unfold mbind, prog_bind. rewrite H. reflexivity. Qed.

Lemma run_read_val (w : nat) (v : Z) (rest : list byte) (st : State) (e : list diag) :
  0 <= v < 2 ^ (Z.of_nat w * 8) ->
  read_val w (mkWorld (le_split w v ++ rest) st e) = (Ok v, mkWorld rest st e).
Proof.
  intros Hv.
  destruct (decodes_read_val _ always_refl always_trans st w v Hv) as (H & _).
  rewrite H, app_nil_r. reflexivity.
Qed.

Lemma run_read_into (bs rest : list byte) (st : State) (e : list diag) :
  read_into (Z.of_nat (length bs)) (mkWorld (bs ++ rest) st e)
  = (Ok bs, mkWorld rest st e).
Proof.
  destruct (decodes_read_into _ always_refl st bs) as (H & _).
  rewrite H, app_nil_r. reflexivity.
Qed.

(** ** One iteration of the chunk loop *)

(** Fewer than 16 bytes left: the loop ends. *)
Lemma load_chunks_exhausted (fuel : nat) (cr td : Z) (w : World) :
  (length (r w) < 16)%nat ->
  load_chunks fuel cr td w = (Ok (cr, td), w).
Proof.
  intros Hlen. destruct fuel as [|fuel]; [reflexivity|].
  cbn [load_chunks]. unfold mbind, prog_bind, remaining.
  destruct (Z.ltb_spec (Z.of_nat (length (r w))) 16); [reflexivity|lia].
Qed.

(** A record whose offset is the sentinel value ends the loop. *)
Lemma load_chunks_sentinel (fuel : nat) (cr td len : Z) (rest : list byte)
  (st : State) (e : list diag) :
  is_u64 len ->
  load_chunks (S fuel) cr td (mkWorld (le_split 8 SENTINEL_ADDR ++ le_split 8 len ++ rest) st e)
  = (Ok (cr, td), mkWorld rest st e).
Proof.
  intros Hlen. cbn [load_chunks].
  unfold mbind at 1, prog_bind at 1, remaining. cbn [r].
  rewrite !length_app, !length_le_split.
  destruct (Z.ltb_spec (Z.of_nat (8 + (8 + length rest))) 16); [lia|].
  erewrite bind_ok by (apply run_read_val; unfold SENTINEL_ADDR; simpl; lia).
  erewrite bind_ok by (apply run_read_val; exact Hlen).
  rewrite Z.eqb_refl. reflexivity.
Qed.

(** A record that lies inside the arena is copied into it. *)
Lemma load_chunks_record (fuel : nat) (cr td offset : Z) (payload rest cur : list byte)
  (st : State) (e : list diag) :
  0 <= offset -> offset + Z.of_nat (length payload) <= Z.of_nat (length cur) ->
  Z.of_nat (length cur) < 2 ^ 63 ->
  load_chunks (S fuel) cr td
    (mkWorld (enc_record offset payload ++ rest) (set_arena_of st cur) e)
  = load_chunks fuel (cr + 1) (td + Z.of_nat (length payload))
      (mkWorld rest
         (set_arena_of st (take (Z.to_nat offset) cur ++ payload ++
                           drop (Z.to_nat offset + length payload) cur)) e).
Proof.
  intros Hoff Hin Hsize. cbn [load_chunks]. unfold enc_record.
  rewrite <- !app_assoc.
  unfold mbind at 1, prog_bind at 1, remaining. cbn [r].
  rewrite !length_app, !length_le_split.
  destruct (Z.ltb_spec (Z.of_nat (8 + (8 + (length payload + length rest)))) 16); [lia|].
  erewrite bind_ok by (apply run_read_val; simpl; lia).
  erewrite bind_ok by (apply run_read_val; simpl; lia).
  destruct (Z.eqb_spec offset SENTINEL_ADDR) as [Heq|_];
    [unfold SENTINEL_ADDR in Heq; lia|].
  unfold mbind at 1, prog_bind at 1, get_live. cbn [live set_arena_of memory arena with_arena].
  unfold to_u64. rewrite Z.mod_small by lia.
  destruct (Z.gtb_spec (offset + Z.of_nat (length payload)) (Z.of_nat (length cur)));
    [lia|].
  erewrite bind_ok by apply run_read_into.
  unfold mbind at 1, prog_bind at 1, memcpy_arena.
  cbn [live set_arena_of memory arena with_arena].
  destruct (Z.leb_spec (offset + Z.of_nat (length payload)) (Z.of_nat (length cur)));
    [|lia].
  reflexivity.
Qed.

(** A record that does not fit the arena (and whose payload is in the
    stream) is reported and stepped over; the arena is not written. *)
Lemma load_chunks_skip (fuel : nat) (cr td offset : Z) (payload rest : list byte)
  (st : State) (e : list diag) :
  is_u64 offset -> offset <> SENTINEL_ADDR -> is_u64 (Z.of_nat (length payload)) ->
  to_u64 (offset + Z.of_nat (length payload)) > Z.of_nat (length (arena (memory st))) ->
  load_chunks (S fuel) cr td (mkWorld (enc_record offset payload ++ rest) st e)
  = load_chunks fuel cr td
      (mkWorld rest st
         (e ++ [chunk_exceeds offset (Z.of_nat (length payload))
                  (Z.of_nat (length (arena (memory st))))])).
Proof.
  intros Hoff Hns Hlen Hbig. cbn [load_chunks]. unfold enc_record.
  rewrite <- !app_assoc.
  unfold mbind at 1, prog_bind at 1, remaining. cbn [r].
  rewrite !length_app, !length_le_split.
  destruct (Z.ltb_spec (Z.of_nat (8 + (8 + (length payload + length rest)))) 16); [lia|].
  erewrite bind_ok by (apply run_read_val; exact Hoff).
  erewrite bind_ok by (apply run_read_val; exact Hlen).
  destruct (Z.eqb_spec offset SENTINEL_ADDR) as [Heq|_]; [contradiction|].
  unfold mbind at 1, prog_bind at 1, get_live. cbn [live].
  destruct (Z.gtb_spec (to_u64 (offset + Z.of_nat (length payload)))
              (Z.of_nat (length (arena (memory st))))); [|lia].
  unfold mbind at 1, prog_bind at 1, fprintf. cbn [r live stderr].
  unfold mbind at 1, prog_bind at 1, remaining. cbn [r live stderr].
  unfold mbind at 1, prog_bind at 1.
  rewrite length_app.
  destruct (Z.leb_spec (Z.of_nat (length payload))
              (Z.of_nat (length payload + length rest))); [|lia].
  unfold skip. cbn [r live stderr].
  rewrite Nat2Z.id, drop_app_length. reflexivity.
Qed.

(** ** All-zero windows *)

Lemma chunk_len_Z : Z.of_nat chunk_len = CHUNK_SIZE.
Proof. unfold chunk_len. apply Z2Nat.id. unfold CHUNK_SIZE. lia. Qed.

Lemma zeros_replicate (n : nat) : zeros n = replicate n Byte.x00.
Proof. unfold zeros. induction n as [|n IH]; simpl; [|rewrite IH]; reflexivity. Qed.

Lemma zeros_add (n m : nat) : zeros (n + m) = zeros n ++ zeros m.
Proof. unfold zeros. apply repeat_app. Qed.

Lemma slice_nat (l : list byte) (o n : nat) :
  slice l (Z.of_nat o) (Z.of_nat n) = take n (drop o l).
Proof. unfold slice. rewrite !Nat2Z.id. reflexivity. Qed.

Lemma all_zero_zeros (l : list byte) :
  Forall (fun b => b = Byte.x00) l <-> l = zeros (length l).
Proof.
  split.
  - induction 1 as [|b l -> _ IH]; simpl; [reflexivity|].
    unfold zeros in *. simpl. rewrite <- IH. reflexivity.
  - intros ->. unfold zeros. apply Forall_forall. intros b Hb.
    apply list_elem_of_In in Hb. apply repeat_spec in Hb. exact Hb.
Qed.

Lemma le_combine_all_zero (l : list byte) :
  Forall (fun b => b = Byte.x00) l -> le_combine l = 0.
Proof.
  intros H. apply all_zero_zeros in H. rewrite H. apply le_combine_0.
Qed.

Lemma le_combine_zero_inv (l : list byte) :
  le_combine l = 0 -> l = zeros (length l).
Proof.
  intros H. apply le_combine_inj.
  - rewrite zeros_length. reflexivity.
  - rewrite H. symmetry. apply le_combine_0.
Qed.

Lemma tail_all_zero_spec (l : list byte) :
  tail_all_zero l = true <-> Forall (fun b => b = Byte.x00) l.
Proof.
  unfold tail_all_zero. rewrite forallb_forall, Forall_forall.
  split; intros H b Hb.
  - apply list_elem_of_In in Hb. specialize (H b Hb).
    apply Z.eqb_eq in H. apply byte.unsigned_inj. rewrite H. reflexivity.
  - apply list_elem_of_In in Hb. rewrite (H b Hb). reflexivity.
Qed.

(** The word-wise test of a full window decides whether its bytes are all
    zero. *)
Lemma chunk_all_zero_spec (a : list byte) (o : nat) :
  (o + chunk_len <= length a)%nat ->
  chunk_all_zero a (Z.of_nat o) = true
  <-> Forall (fun b => b = Byte.x00) (take chunk_len (drop o a)).
Proof.
  intros Hfit. pose proof chunk_len_Z as HC. unfold CHUNK_SIZE in HC.
  unfold chunk_all_zero. rewrite forallb_forall.
  change (CHUNK_SIZE / 8) with 8192.
  split.
  - intros Hq. apply Forall_lookup. intros i b Hi.
    apply lookup_take_Some in Hi as [Hi Hlt].
    rewrite lookup_drop in Hi.
    assert (Hin : In (i / 8)%nat (seq 0 (Z.to_nat 8192))).
    { apply in_seq. split; [lia|].
      assert (Z.of_nat (i / 8) < 8192); [|lia].
      rewrite Nat2Z.inj_div. apply Z.div_lt_upper_bound; lia. }
    specialize (Hq _ Hin). apply Z.eqb_eq in Hq.
    replace (Z.of_nat o + 8 * Z.of_nat (i / 8)) with (Z.of_nat (o + 8 * (i / 8))) in Hq
      by lia.
    change 8 with (Z.of_nat 8) in Hq at 1. rewrite slice_nat in Hq.
    apply le_combine_zero_inv in Hq.
    assert (Hi8 : (i = 8 * (i / 8) + i mod 8)%nat) by (apply Nat.div_mod_eq).
    assert (Hm : (i mod 8 < 8)%nat) by (apply Nat.mod_upper_bound; lia).
    assert (Hlook : take 8 (drop (o + 8 * (i / 8)) a) !! (i mod 8)%nat = Some b).
    { rewrite lookup_take_lt by exact Hm. rewrite lookup_drop.
      rewrite <- Hi. f_equal. lia. }
    rewrite Hq in Hlook. rewrite zeros_replicate in Hlook.
    apply lookup_replicate_1 in Hlook as [-> _]. reflexivity.
  - intros Hz q Hin. apply in_seq in Hin. apply Z.eqb_eq.
    replace (Z.of_nat o + 8 * Z.of_nat q) with (Z.of_nat (o + 8 * q)) by lia.
    change 8 with (Z.of_nat 8) at 1. rewrite slice_nat.
    apply le_combine_all_zero.
    apply Forall_lookup. intros j b Hj.
    apply lookup_take_Some in Hj as [Hj Hlt]. rewrite lookup_drop in Hj.
    rewrite Forall_lookup in Hz. apply (Hz (8 * q + j)%nat).
    apply lookup_take_Some. split; [|lia].
    rewrite lookup_drop. rewrite <- Hj. f_equal. lia.
Qed.

(** Where the loop over full windows stops: at the last window boundary. *)
Lemma full_chunks_end_spec (fuel : nat) (arena_size k : Z) :
  0 <= k -> k * CHUNK_SIZE <= arena_size -> arena_size / CHUNK_SIZE - k <= Z.of_nat fuel ->
  full_chunks_end fuel arena_size (k * CHUNK_SIZE) = arena_size / CHUNK_SIZE * CHUNK_SIZE.
Proof.
  revert k. unfold CHUNK_SIZE.
  induction fuel as [|fuel IH]; intros k Hk Hle Hfuel; cbn [full_chunks_end].
  - pose proof (Z.div_mod arena_size 65536 ltac:(lia)).
    pose proof (Z.mod_pos_bound arena_size 65536 ltac:(lia)). nia.
  - unfold CHUNK_SIZE.
    pose proof (Z.div_mod arena_size 65536 ltac:(lia)).
    pose proof (Z.mod_pos_bound arena_size 65536 ltac:(lia)).
    destruct (Z.leb_spec (k * 65536 + 65536) arena_size) as [Hfit|Hend].
    + replace (k * 65536 + 65536) with ((k + 1) * 65536) by lia.
      apply IH; lia.
    + nia.
Qed.

(** ** The chunk loop on the records of a saved arena *)

Lemma take_chunk_length (a : list byte) (o : nat) :
  (o + chunk_len <= length a)%nat -> length (take chunk_len (drop o a)) = chunk_len.
Proof. intros H. rewrite length_take, length_drop. lia. Qed.

(** Between two windows the arena under reconstruction is the saved arena
    up to the window boundary, and zero from there on. *)
Lemma rebuilt_zero_window (a : list byte) (o : nat) :
  (o + chunk_len <= length a)%nat ->
  Forall (fun b => b = Byte.x00) (take chunk_len (drop o a)) ->
  take o a ++ zeros (length a - o)
  = take (o + chunk_len) a ++ zeros (length a - (o + chunk_len)).
Proof.
  intros Hfit Hz. apply all_zero_zeros in Hz.
  rewrite take_chunk_length in Hz by exact Hfit.
  rewrite <- take_take_drop, Hz, <- app_assoc, <- zeros_add.
  f_equal. f_equal. lia.
Qed.

Lemma rebuilt_copied_window (a : list byte) (o n : nat) :
  (o + n <= length a)%nat ->
  let cur := take o a ++ zeros (length a - o) in
  take o cur ++ take n (drop o a) ++ drop (o + length (take n (drop o a))) cur
  = take (o + n) a ++ zeros (length a - (o + n)).
Proof.
  intros Hfit cur. subst cur.
  assert (Hlen : length (take o a) = o) by (rewrite length_take; lia).
  rewrite take_app_length' by (symmetry; exact Hlen).
  rewrite length_take, length_drop.
  replace (n `min` (length a - o))%nat with n by lia.
  rewrite drop_app_add' by (symmetry; exact Hlen).
  rewrite zeros_replicate, drop_replicate, <- zeros_replicate.
  rewrite app_assoc, take_take_drop. f_equal. f_equal. lia.
Qed.

Lemma load_full_chunks (a : list byte) (fs : nat) :
  forall (o fl : nat) (cr td : Z) (rest : list byte) (st : State) (e : list diag),
  Z.of_nat (length a) < 2 ^ 63 ->
  (o <= length a)%nat ->
  (length (save_full_chunks fs a (Z.of_nat o) [] ++ rest) <= 16 * fl)%nat ->
  let o' := Z.to_nat (full_chunks_end fs (Z.of_nat (length a)) (Z.of_nat o)) in
  exists fl' cr' td',
    load_chunks fl cr td
      (mkWorld (save_full_chunks fs a (Z.of_nat o) [] ++ rest)
               (set_arena_of st (take o a ++ zeros (length a - o))) e)
    = load_chunks fl' cr' td'
        (mkWorld rest (set_arena_of st (take o' a ++ zeros (length a - o'))) e) /\
    (length rest <= 16 * fl')%nat /\ (o <= o' <= length a)%nat.
Proof.
  induction fs as [|fs IH]; intros o fl cr td rest st e Hsize Ho Hfuel;
    cbn [save_full_chunks full_chunks_end] in *.
  - rewrite Nat2Z.id. exists fl, cr, td. split; [reflexivity|]. split; [exact Hfuel|lia].
  - pose proof chunk_len_Z as HC.
    destruct (Z.leb_spec (Z.of_nat o + CHUNK_SIZE) (Z.of_nat (length a))) as [Hfit|Hend].
    + assert (Hfit' : (o + chunk_len <= length a)%nat) by lia.
      replace (Z.of_nat o + CHUNK_SIZE) with (Z.of_nat (o + chunk_len)) in * by lia.
      destruct (chunk_all_zero a (Z.of_nat o)) eqn:Ez.
      * apply chunk_all_zero_spec in Ez; [|exact Hfit'].
        rewrite (rebuilt_zero_window a o Hfit' Ez).
        destruct (IH (o + chunk_len)%nat fl cr td rest st e Hsize Hfit' Hfuel)
          as (fl' & cr' & td' & Hrun & Hfl & Hoo).
        exists fl', cr', td'. split; [exact Hrun|]. split; [exact Hfl|lia].
      * cbv zeta in *. unfold emit_val, emit in *.
        rewrite save_full_chunks_out in *.
        rewrite <- HC in *. rewrite slice_nat in *.
        assert (Hrec : (([] ++ le_split 8 (Z.of_nat o)) ++ le_split 8 (Z.of_nat chunk_len)) ++
                       take chunk_len (drop o a)
                       = enc_record (Z.of_nat o) (take chunk_len (drop o a))).
        { unfold enc_record. rewrite take_chunk_length by exact Hfit'.
          rewrite app_nil_l, <- app_assoc. reflexivity. }
        rewrite Hrec in *. rewrite <- app_assoc in *.
        destruct fl as [|fl].
        { unfold enc_record in Hfuel. rewrite !length_app, !length_le_split in Hfuel. lia. }
        rewrite load_chunks_record;
          [|lia|rewrite take_chunk_length, length_app, length_take, zeros_length by lia; lia
           |rewrite length_app, length_take, zeros_length; lia].
        rewrite Nat2Z.id.
        rewrite (rebuilt_copied_window a o chunk_len Hfit').
        destruct (IH (o + chunk_len)%nat fl (cr + 1)
                    (td + Z.of_nat (length (take chunk_len (drop o a)))) rest st e
                    Hsize Hfit') as (fl' & cr' & td' & Hrun & Hfl & Hoo).
        { unfold enc_record in Hfuel. rewrite !length_app, !length_le_split in Hfuel.
          rewrite length_app. lia. }
        exists fl', cr', td'. split; [exact Hrun|]. split; [exact Hfl|lia].
    + rewrite Nat2Z.id. exists fl, cr, td.
      split; [reflexivity|]. split; [exact Hfuel|lia].
Qed.

Lemma tail_offset_bounds (n : Z) :
  0 <= n -> 0 <= n / CHUNK_SIZE * CHUNK_SIZE <= n.
Proof.
  intros Hn. unfold CHUNK_SIZE.
  pose proof (Z.div_mod n 65536 ltac:(lia)).
  pose proof (Z.mod_pos_bound n 65536 ltac:(lia)). lia.
Qed.

(** The data records of a saved arena, applied to a zeroed arena of the
    same size, rebuild it. *)
Lemma load_enc_chunks (a : list byte) (fl : nat) (rest : list byte) (st : State)
  (e : list diag) :
  Z.of_nat (length a) < 2 ^ 63 ->
  (length (enc_chunks a ++ rest) <= 16 * fl)%nat ->
  exists fl' cr' td',
    load_chunks fl 0 0 (mkWorld (enc_chunks a ++ rest) (set_arena_of st (zeros (length a))) e)
    = load_chunks fl' cr' td' (mkWorld rest (set_arena_of st a) e) /\
    (length rest <= 16 * fl')%nat.
Proof.
  intros Hsize Hfuel. unfold enc_chunks in *.
  rewrite save_tail_out, <- app_assoc in *.
  destruct (load_full_chunks a (length a) 0 fl 0 0 (save_tail a [] ++ rest) st e
              Hsize ltac:(lia) Hfuel) as (fl1 & cr1 & td1 & Hrun & Hfl1 & Hoo).
  cbn zeta in Hrun, Hoo. change (Z.of_nat 0) with 0 in *.
  rewrite take_0, app_nil_l, Nat.sub_0_r in Hrun.
  rewrite Hrun. clear Hrun.
  pose proof (tail_offset_bounds (Z.of_nat (length a)) ltac:(lia)) as Hto.
  assert (Hend : full_chunks_end (length a) (Z.of_nat (length a)) 0
                 = Z.of_nat (length a) / CHUNK_SIZE * CHUNK_SIZE).
  { apply (full_chunks_end_spec _ _ 0); [lia|lia|].
    unfold CHUNK_SIZE in *.
    pose proof (Z.div_mod (Z.of_nat (length a)) 65536 ltac:(lia)).
    pose proof (Z.mod_pos_bound (Z.of_nat (length a)) 65536 ltac:(lia)). lia. }
  rewrite Hend in *. clear Hend.
  set (toff := Z.of_nat (length a) / CHUNK_SIZE * CHUNK_SIZE) in *.
  set (o := Z.to_nat toff) in *.
  assert (Ho : Z.of_nat o = toff) by (unfold o; lia).
  unfold save_tail in *. cbv zeta in *. fold toff in Hfl1 |- *.
  destruct (Z.ltb_spec toff (Z.of_nat (length a))) as [Htail|Hnotail].
  - assert (Hslice : slice a toff (Z.of_nat (length a) - toff) = drop o a).
    { replace (Z.of_nat (length a) - toff) with (Z.of_nat (length a - o)) by lia.
      rewrite <- Ho, slice_nat. apply take_ge. rewrite length_drop. lia. }
    rewrite Hslice in *.
    destruct (tail_all_zero (drop o a)) eqn:Ez; cbn [negb] in *.
    + apply tail_all_zero_spec, all_zero_zeros in Ez.
      rewrite length_drop in Ez. rewrite <- Ez, take_drop.
      rewrite app_nil_l in *. exists fl1, cr1, td1. split; [reflexivity|exact Hfl1].
    + unfold emit_val, emit in *. rewrite app_nil_l in *.
      assert (Hrec : (le_split 8 toff ++ le_split 8 (Z.of_nat (length a) - toff)) ++ drop o a
                     = enc_record (Z.of_nat o) (drop o a)).
      { unfold enc_record. rewrite length_drop, <- app_assoc, Ho.
        replace (Z.of_nat (length a - o)) with (Z.of_nat (length a) - toff) by lia.
        reflexivity. }
      rewrite Hrec in *. rewrite <- app_assoc in *.
      destruct fl1 as [|fl1].
      { unfold enc_record in Hfl1. rewrite !length_app, !length_le_split in Hfl1. lia. }
      rewrite load_chunks_record;
        [|lia|rewrite length_drop, length_app, length_take, zeros_length; lia
         |rewrite length_app, length_take, zeros_length; lia].
      rewrite Nat2Z.id.
      pose proof (rebuilt_copied_window a o (length a - o)%nat ltac:(lia)) as Hreb.
      cbv zeta in Hreb.
      rewrite (take_ge (drop o a)) in Hreb by (rewrite length_drop; lia).
      rewrite Hreb.
      replace (o + (length a - o))%nat with (length a) by lia.
      rewrite Nat.sub_diag, take_ge, app_nil_r by lia.
      eexists fl1, _, _. split; [reflexivity|].
      unfold enc_record in Hfl1. rewrite !length_app, !length_le_split in Hfl1. lia.
  - assert (Hoa : o = length a) by lia.
    rewrite Hoa, Nat.sub_diag, take_ge, app_nil_r by lia.
    rewrite app_nil_l in *. exists fl1, cr1, td1. split; [reflexivity|exact Hfl1].
Qed.

Lemma save_arena_chunks (a : list byte) :
  save_arena [] a = enc_chunks a ++ sentinel_record.
Proof.
  unfold save_arena, save_sentinel, enc_chunks, sentinel_record, emit_val, emit.
  cbv zeta. rewrite <- app_assoc. reflexivity.
Qed.

(** The arena stage of a load, up to the end of the data records. *)
Lemma load_arena_chunks (a rest : list byte) (st : State) (e : list diag) :
  Z.of_nat (length a) < 2 ^ 63 ->
  length (arena (memory st)) = length a ->
  exists fl cr td,
    load_arena (mkWorld (enc_chunks a ++ rest) st e)
    = load_chunks fl cr td (mkWorld rest (arena_loaded st a) e) /\
    (length rest <= 16 * fl)%nat.
Proof.
  intros Hsize Hlen. unfold load_arena.
  unfold mbind at 1, prog_bind at 1, set_memory. cbn [r live stderr cpu memory sys].
  unfold mbind at 1, prog_bind at 1, set_memory. cbn [r live stderr cpu memory sys].
  unfold mbind at 1, prog_bind at 1, remaining. cbn [r live stderr].
  rewrite Nat2Z.id.
  unfold memset_arena. cbn [arena evict_execute_segments]. rewrite Hlen.
  destruct (load_enc_chunks a (length (enc_chunks a ++ rest)) rest
              (mkState (cpu st) (evict_execute_segments (memory st)) (sys st)) e Hsize
              ltac:(lia)) as (fl' & cr' & td' & Hrun & Hfl).
  exists fl', cr', td'. split; [|exact Hfl].
  unfold arena_loaded. rewrite <- Hrun. reflexivity.
Qed.

(** The arena stage of a load on the chunk stream of a saved arena. *)
Lemma load_arena_roundtrip (a rest : list byte) (st : State) (e : list diag) :
  Z.of_nat (length a) < 2 ^ 63 ->
  length (arena (memory st)) = length a ->
  exists cr td,
    load_arena (mkWorld (save_arena [] a ++ rest) st e)
    = (Ok (cr, td), mkWorld rest (arena_loaded st a) e).
Proof.
  intros Hsize Hlen. rewrite save_arena_chunks, <- app_assoc.
  destruct (load_arena_chunks a (sentinel_record ++ rest) st e Hsize Hlen)
    as (fl & cr & td & Hrun & Hfl).
  exists cr, td. rewrite Hrun.
  destruct fl as [|fl].
  { unfold sentinel_record in Hfl. rewrite !length_app, !length_le_split in Hfl. lia. }
  unfold sentinel_record. rewrite <- app_assoc.
  apply load_chunks_sentinel. unfold is_u64. lia.
Qed.

(** The same stream without its sentinel: the loop runs out of input and
    ends with the same arena. *)
Lemma load_arena_without_sentinel (a : list byte) (st : State) (e : list diag) :
  Z.of_nat (length a) < 2 ^ 63 ->
  length (arena (memory st)) = length a ->
  exists cr td,
    load_arena (mkWorld (enc_chunks a) st e)
    = (Ok (cr, td), mkWorld [] (arena_loaded st a) e).
Proof.
  intros Hsize Hlen. rewrite <- (app_nil_r (enc_chunks a)).
  destruct (load_arena_chunks a [] st e Hsize Hlen) as (fl & cr & td & Hrun & Hfl).
  exists cr, td. rewrite Hrun. apply load_chunks_exhausted. simpl. lia.
Qed.

(** ** A complete load of a saved blob *)

Lemma restore_regs (src dst : list Z) (n : nat) :
  length src = n -> length dst = n ->
  foldl (fun rs i => <[i := src !!! i]> rs) dst (seq 0 n) = src.
Proof.
  intros Hsrc Hdst.
  assert (H : forall m, (m <= n)%nat ->
            foldl (fun rs i => <[i := src !!! i]> rs) dst (seq 0 m)
            = take m src ++ drop m dst).
  { induction m as [|m IH]; intros Hm.
    - reflexivity.
    - rewrite seq_S, foldl_app, IH by lia. cbn [foldl Nat.add].
      destruct (lookup_lt_is_Some_2 src m ltac:(lia)) as [x Hx].
      rewrite (list_lookup_total_correct _ _ _ Hx).
      rewrite (take_S_r _ _ _ Hx), <- app_assoc. cbn [app].
      assert (Hlen : length (take m src) = m) by (rewrite length_take; lia).
      rewrite insert_app_r_alt by lia. rewrite Hlen, Nat.sub_diag.
      destruct (lookup_lt_is_Some_2 dst m ltac:(lia)) as [y Hy].
      rewrite (drop_S _ _ _ Hy). reflexivity. }
  rewrite (H n) by lia.
  rewrite take_ge, drop_ge, app_nil_r by lia. reflexivity.
Qed.

Lemma restore_cpu_saved (s : State) (c : Cpu) :
  length (reg (cpu s)) = 32%nat -> length (fl (cpu s)) = 32%nat ->
  length (reg c) = 32%nat -> length (fl c) = 32%nat ->
  restore_cpu (locals_of s) c = cpu s.
Proof.
  intros H1 H2 H3 H4. unfold restore_cpu, locals_of.
  cbn [l_pc l_fcsr l_int_regs l_fp_regs].
  rewrite !restore_regs by assumption.
  destruct (cpu s). reflexivity.
Qed.

Lemma restore_exec_ctx_saved (s : State) :
  restore_exec_ctx (locals_of s) = g_exec_ctx (sys s).
Proof.
  unfold restore_exec_ctx, locals_of. cbn.
  destruct (g_exec_ctx (sys s)) as [? ? ? ? ? ? ? ? ? ? ? ? [|] [|]]; reflexivity.
Qed.

(** The attributes of a page after [restore_exec_pages]. *)
Lemma lookup_restored_pages (l : list Z) (pg : gmap Z PageAttributes) (pn : Z) :
  foldl (fun pg pageno => set_pageno_attr pageno exec_attr pg) pg l !! pn
  = if decide (pn ∈ l) then Some exec_attr else pg !! pn.
Proof.
  revert pg. induction l as [|x l IH]; intros pg; cbn [foldl].
  - rewrite decide_False by apply not_elem_of_nil. reflexivity.
  - rewrite IH. unfold set_pageno_attr.
    destruct (decide (pn ∈ l)) as [Hin|Hnin].
    + rewrite decide_True by (right; exact Hin). reflexivity.
    + destruct (decide (pn = x)) as [->|Hne].
      * rewrite decide_True by left. apply lookup_insert_eq.
      * rewrite decide_False by (intros Hc; apply elem_of_cons in Hc as [?|?]; tauto).
        apply lookup_insert_ne. congruence.
Qed.

(** A blob saved from [s], with or without its sentinel, up to the end of
    the chunk loop: the sections are parsed, the arena is rebuilt, and the
    page table, the CPU and the exec context are still those of [t]. *)
Lemma load_until_arena_saved (s t : State) (last : list byte) :
  well_formed s -> same_layout s t ->
  last = sentinel_record \/ last = [] ->
  exists cr td e,
    load_until_arena
      (start (enc_sections s ++ enc_chunks (arena (memory s)) ++ last) t)
    = (Ok (locals_of s, collect_exec_pages (pages (memory s)), (cr, td)),
       mkWorld [] (arena_loaded (parsed_into s t) (arena (memory s))) e).
Proof.
  intros Hwf (Harena & Hsched & Hreg & Hfl) Hlast.
  pose proof Hwf as ((_ & _ & Hsreg & _ & Hsfl & _) & (_ & _ & _ & Hsize) & _).
  destruct (decodes_sections _ always_refl always_trans ltac:(intros; exact I) s t Hwf Hsched)
    as (Hsec & _).
  assert (Hrun : forall e, exists cr td,
            load_arena (mkWorld (enc_chunks (arena (memory s)) ++ last) (parsed_into s t) e)
            = (Ok (cr, td),
               mkWorld [] (arena_loaded (parsed_into s t) (arena (memory s))) e)).
  { intros e. destruct Hlast as [->| ->].
    - rewrite <- (app_nil_r sentinel_record), app_assoc, <- save_arena_chunks.
      apply load_arena_roundtrip; [exact Hsize|exact Harena].
    - rewrite app_nil_r.
      apply load_arena_without_sentinel; [exact Hsize|exact Harena]. }
  destruct (Hrun ([] ++ [restored_epoll (Z.of_nat (size (g_epoll_instances (sys s))));
                         restored_eventfd (Z.of_nat (size (g_eventfd_counters (sys s))))]))
    as (cr & td & Harun).
  exists cr, td. eexists.
  unfold load_until_arena, start.
  erewrite bind_ok by apply Hsec. cbv beta.
  erewrite bind_ok by apply Harun. reflexivity.
Qed.

(** Everything after the chunk loop, on the world the loop leaves. *)
Lemma restore_saved (s t : State) (counters : Z * Z) (e : list diag) :
  well_formed s -> same_layout s t ->
  exists e',
    restore (locals_of s) (collect_exec_pages (pages (memory s))) counters
      (mkWorld [] (arena_loaded (parsed_into s t) (arena (memory s))) e)
    = (Ok tt, mkWorld [] (restored s t) e').
Proof.
  intros Hwf (Harena & Hsched & Hreg & Hfl).
  pose proof Hwf as ((_ & _ & Hsreg & _ & Hsfl & _) & _).
  eexists. unfold restore, restore_exec_pages.
  unfold mbind, prog_bind, set_memory, set_cpu, set_sys, fprintf.
  cbn [r live stderr cpu memory sys].
  unfold restored, pages_restored, arena_loaded, set_arena_of, parsed_into.
  cbn [r live stderr cpu memory sys with_pages with_arena with_mmap_address
       evict_execute_segments with_exec_ctx with_waiting_for_stdin mmap_address pages
       arena execute_segments g_exec_ctx g_sched g_next_pid g_next_epoll_fd
       g_epoll_instances g_eventfd_counters g_waiting_for_stdin].
  rewrite restore_cpu_saved, restore_exec_ctx_saved by assumption.
  reflexivity.
Qed.

(** A blob saved from [s], with or without its sentinel, loads into a
    machine of the same layout and leaves it in [restored s t]. *)
Lemma load_saved (s t : State) (last : list byte) :
  well_formed s -> same_layout s t ->
  last = sentinel_record \/ last = [] ->
  exists w',
    load_checkpoint
      (start (enc_sections s ++ enc_chunks (arena (memory s)) ++ last) t) = (Ok tt, w') /\
    live w' = restored s t /\ r w' = [].
Proof.
  intros Hwf Hlay Hlast.
  destruct (load_until_arena_saved s t last Hwf Hlay Hlast) as (cr & td & e & Hrun).
  destruct (restore_saved s t (cr, td) e Hwf Hlay) as (e' & Hres).
  eexists. unfold load_checkpoint.
  erewrite bind_ok by apply Hrun. cbn [fst snd].
  split; [exact Hres|]. split; reflexivity.
Qed.

(** ** The claims about save and load *)

Ltac compute_list :=
  match goal with
  | |- Forall _ ?l =>
      let l' := eval vm_compute in l in
      replace l with l' by (vm_compute; reflexivity)
  end.

Ltac compute_size :=
  match goal with
  | |- context [size ?m] =>
      let n := eval vm_compute in (size m) in
      replace (size m) with n by (vm_compute; reflexivity)
  end.

Ltac solve_ranges :=
  repeat match goal with
         | |- _ /\ _ => split
         | |- True => exact I
         | |- (_ <= _)%Z => cbn [fst snd length]; lia
         | |- (_ < _)%Z => cbn [fst snd length]; lia
         | |- @eq nat _ _ => reflexivity
         | |- Forall _ [] => apply Forall_nil
         | |- Forall _ (_ :: _) => apply Forall_cons
         | |- Forall _ _ => compute_list
         | |- context [size _] => compute_size
         | |- is_u64 _ => unfold is_u64
         | |- is_u32 _ => unfold is_u32
         | |- is_i32 _ => unfold is_i32
         | |- wf_instance _ => unfold wf_instance; cbn [fst snd interests]
         | |- wf_interest _ => unfold wf_interest; cbn [fst snd events data]
         | |- wf_counter _ => unfold wf_counter; cbn [fst snd]
         end.

Lemma demo_saved_well_formed : well_formed demo_saved.
Proof.
  unfold well_formed, wf_cpu, wf_memory, wf_sys, wf_exec_ctx, demo_saved.
  cbn [checkpoint.cpu checkpoint.memory checkpoint.sys pc fcsr reg fl mmap_address
       pages arena g_exec_ctx g_next_pid g_next_epoll_fd g_epoll_instances
       g_eventfd_counters brk_base brk_current exec_base exec_rw_start exec_rw_end
       interp_base interp_rw_start interp_rw_end interp_entry original_stack_top
       heap_start heap_size].
  solve_ranges.
Qed.

Lemma demo_same_layout : same_layout demo_saved demo_target.
Proof. unfold same_layout. repeat split. Qed.

Lemma executable_restored (s t : State) (pn : Z) :
  well_formed s ->
  executable (restored s t) pn <-> executable s pn \/ executable t pn.
Proof.
  intros (_ & (_ & _ & Hkeys & _) & _).
  unfold executable at 1. unfold restored. cbn [memory pages].
  unfold pages_restored. rewrite lookup_restored_pages.
  pose proof (elem_of_collect_exec_pages (pages (memory s)) pn Hkeys) as Hcol.
  destruct (decide (pn ∈ collect_exec_pages (pages (memory s)))) as [Hin|Hnin].
  - split.
    + intros _. left. apply Hcol, Hin.
    + intros _. exists exec_attr. split; reflexivity.
  - split.
    + intros Hx. right. exact Hx.
    + intros [Hs|Ht]; [|exact Ht]. apply Hcol in Hs. contradiction.
Qed.

(** C1, as amended.  Let [s] be a well-formed machine state and [t] a
    machine with the arena size and scheduler layout of [s].  Loading the
    blob saved from [s] into [t] succeeds and leaves the CPU state, the
    exec context, the mmap pointer, the scheduler block, the two counters,
    the epoll and eventfd maps and every byte of the arena exactly as in
    [s].  A page is executable afterwards exactly when it was executable
    in [s] or in [t]: the set of executable pages is that of [s] whenever
    [t] had no executable page outside it. *)
Theorem C1_load_save_roundtrip (s t : State) :
  well_formed s -> same_layout s t ->
  exists w',
    load_checkpoint (start (save_checkpoint s) t) = (Ok tt, w') /\
    cpu (live w') = cpu s /\
    g_exec_ctx (sys (live w')) = g_exec_ctx (sys s) /\
    mmap_address (memory (live w')) = mmap_address (memory s) /\
    g_sched (sys (live w')) = g_sched (sys s) /\
    g_next_pid (sys (live w')) = g_next_pid (sys s) /\
    g_next_epoll_fd (sys (live w')) = g_next_epoll_fd (sys s) /\
    g_epoll_instances (sys (live w')) = g_epoll_instances (sys s) /\
    g_eventfd_counters (sys (live w')) = g_eventfd_counters (sys s) /\
    arena (memory (live w')) = arena (memory s) /\
    (forall pn, executable (live w') pn <-> executable s pn \/ executable t pn) /\
    ((forall pn, executable t pn -> executable s pn) ->
     forall pn, executable (live w') pn <-> executable s pn).
Proof.
  intros Hwf Hlay.
  pose proof Hwf as ((_ & _ & Hreg & _ & Hfl & _) & _).
  destruct (load_saved s t sentinel_record Hwf Hlay ltac:(left; reflexivity))
    as (w' & Hload & Hlive & _).
  exists w'. rewrite save_checkpoint_layout, save_arena_chunks by assumption.
  split; [exact Hload|]. rewrite Hlive.
  repeat (split; [reflexivity|]).
  split.
  - intros pn. apply executable_restored, Hwf.
  - intros Hsub pn. rewrite executable_restored by exact Hwf.
    specialize (Hsub pn). tauto.
Qed.

Lemma C1_load_save_roundtrip_witness :
  well_formed demo_saved /\ same_layout demo_saved demo_saved /\
  exists w',
    load_checkpoint (start (save_checkpoint demo_saved) demo_saved) = (Ok tt, w') /\
    cpu (live w') = cpu demo_saved /\
    arena (memory (live w')) = arena (memory demo_saved) /\
    forall pn, executable (live w') pn <-> executable demo_saved pn.
Proof.
  assert (Hlay : same_layout demo_saved demo_saved) by (unfold same_layout; repeat split).
  split; [exact demo_saved_well_formed|]. split; [exact Hlay|].
  destruct (C1_load_save_roundtrip demo_saved demo_saved demo_saved_well_formed Hlay)
    as (w' & Hload & Hcpu & _ & _ & _ & _ & _ & _ & _ & Harena & _ & Hexec).
  exists w'. split; [exact Hload|]. split; [exact Hcpu|]. split; [exact Harena|].
  apply Hexec. intros pn H. exact H.
Defined.

(** C1 as stated fails: loaded into a machine whose page 9 is executable,
    a blob saved from a machine without that page leaves page 9
    executable, so the executable pages are not those of the saved
    state. *)
Lemma C1_stale_executable_page :
  well_formed demo_saved /\ same_layout demo_saved demo_target /\
  exists w',
    load_checkpoint (start (save_checkpoint demo_saved) demo_target) = (Ok tt, w') /\
    executable (live w') 9 /\ ~ executable demo_saved 9.
Proof.
  split; [exact demo_saved_well_formed|]. split; [exact demo_same_layout|].
  eexists. split; [vm_compute; reflexivity|]. split.
  - exists (mkAttr true true true). split; reflexivity.
  - intros (a & Ha & _). vm_compute in Ha. discriminate Ha.
Qed.

(** [restore] always returns; it leaves the arena alone and gives every
    listed page read+execute without write. *)
Lemma restore_returns (l : Locals) (exec_pages : list Z) (counters : Z * Z) (w : World) :
  exists w',
    restore l exec_pages counters w = (Ok tt, w') /\
    arena (memory (live w')) = arena (memory (live w)) /\
    forall pn, pn ∈ exec_pages ->
               pages (memory (live w')) !! pn = Some (mkAttr true false true).
Proof.
  eexists. split; [reflexivity|].
  cbn [live memory arena pages with_pages with_mmap_address cpu sys stderr r].
  split; [reflexivity|].
  intros pn Hin. rewrite lookup_restored_pages, decide_True by exact Hin. reflexivity.
Qed.

(** C7.  Whenever [load_checkpoint] completes, it has gone through the
    chunk loop - which left a world [w_arena] whose arena already holds
    the rewritten bytes - and then through [restore] with the
    executable-page list [exec_pages] it had parsed from the blob.  The
    arena is the same after [restore] as in [w_arena], and every page
    number of the list ends with read and execute set and write cleared.
    For a blob saved from a well-formed state [s] that list holds every
    page that was executable in [s], whatever its read and write bits
    were. *)
Theorem C7_exec_pages_reapplied (w w' : World) :
  load_checkpoint w = (Ok tt, w') ->
  exists l exec_pages counters w_arena,
    load_until_arena w = (Ok (l, exec_pages, counters), w_arena) /\
    restore l exec_pages counters w_arena = (Ok tt, w') /\
    arena (memory (live w')) = arena (memory (live w_arena)) /\
    (forall pn, pn ∈ exec_pages ->
                pages (memory (live w')) !! pn = Some (mkAttr true false true)) /\
    (forall s,
       well_formed s -> r w = save_checkpoint s ->
       length (g_sched (sys (live w))) = length (g_sched (sys s)) ->
       forall pn, executable s pn -> pn ∈ exec_pages).
Proof.
  intros Hload. unfold load_checkpoint in Hload.
  unfold mbind, prog_bind in Hload.
  destruct (load_until_arena w) as [[[[l exec_pages] counters]|x|] w_arena] eqn:Hrun;
    [|discriminate Hload|discriminate Hload].
  cbn [fst snd] in Hload.
  destruct (restore_returns l exec_pages counters w_arena) as (w2 & Hres & Harena & Hpg).
  rewrite Hres in Hload. injection Hload as <-.
  exists l, exec_pages, counters, w_arena.
  split; [reflexivity|]. split; [exact Hres|]. split; [exact Harena|].
  split; [exact Hpg|].
  intros s Hwf Hr Hsched pn Hexec.
  destruct (decodes_sections _ always_refl always_trans ltac:(intros; exact I)
              s (live w) Hwf Hsched) as (Hsec & _).
  pose proof Hwf as ((_ & _ & Hreg & _ & Hfl & _) & _).
  rewrite save_checkpoint_layout in Hr by assumption.
  destruct w as [rw lw ew]. cbn [r live] in *. subst rw.
  unfold load_until_arena in Hrun. rewrite (bind_ok _ _ _ _ _ (Hsec _ ew)) in Hrun.
  unfold mbind, prog_bind in Hrun.
  destruct (load_arena _) as [[c| |] wa] in Hrun; try discriminate Hrun.
  injection Hrun as _ <- _ _.
  destruct Hwf as (_ & (_ & _ & Hkeys & _) & _).
  apply elem_of_collect_exec_pages; assumption.
Qed.

Lemma C7_exec_pages_reapplied_witness :
  load_checkpoint (start (save_checkpoint demo_saved) demo_target)
    = (Ok tt, snd (load_checkpoint (start (save_checkpoint demo_saved) demo_target))) /\
  pages (memory demo_saved) !! 5 = Some (mkAttr true true true) /\
  pages (memory (live (snd (load_checkpoint
                              (start (save_checkpoint demo_saved) demo_target))))) !! 5
    = Some (mkAttr true false true).
Proof.
  assert (Hload : load_checkpoint (start (save_checkpoint demo_saved) demo_target)
                  = (Ok tt, snd (load_checkpoint
                                   (start (save_checkpoint demo_saved) demo_target)))).
  { vm_compute. reflexivity. }
  split; [exact Hload|]. split; [reflexivity|].
  destruct (C7_exec_pages_reapplied _ _ Hload)
    as (l & exec_pages & counters & w_arena & _ & _ & _ & Hpg & Hsaved).
  apply Hpg.
  apply (Hsaved demo_saved demo_saved_well_formed).
  - reflexivity.
  - reflexivity.
  - exists (mkAttr true true true). split; reflexivity.
Defined.

Lemma load_header_rejects (data : list byte) (t : State) (e : list diag) :
  (8 <= length data)%nat ->
  take 8 data <> MAGIC \/
  ((12 <= length data)%nat /\ le_combine (take 4 (drop 8 data)) <> VERSION) ->
  exists x w',
    load_header (mkWorld data t e) = (Throw x, w') /\ live w' = t /\ stderr w' = e /\
    (x = bad_magic \/ x = unsupported_version (le_combine (take 4 (drop 8 data)))).
Proof.
  intros Hlen Hbad. unfold load_header.
  unfold mbind at 1, prog_bind at 1, read_into. cbn [r live stderr].
  destruct (Z.ltb_spec (Z.of_nat (length data)) 8) as [?|_]; [lia|].
  unfold slice. change (Z.to_nat 0) with 0%nat. change (Z.to_nat 8) with 8%nat.
  rewrite drop_0.
  destruct (decide (take 8 data = MAGIC)) as [Hm|Hm].
  - destruct Hbad as [?|[Hlen12 Hver]]; [contradiction|].
    rewrite (bool_decide_eq_true_2 _ Hm). cbn [negb].
    unfold read_val.
    unfold mbind at 1, prog_bind at 1. unfold mbind at 1, prog_bind at 1.
    unfold read_bytes. cbn [r live stderr].
    rewrite length_drop.
    destruct (Z.ltb_spec (Z.of_nat (length data - 8)) (Z.of_nat 4)) as [?|_]; [lia|].
    unfold mret, prog_ret. unfold slice.
    change (Z.to_nat 0) with 0%nat. rewrite Nat2Z.id, drop_0.
    destruct (Z.eqb_spec (le_combine (take 4 (drop 8 data))) VERSION) as [?|_];
      [contradiction|].
    cbn [negb]. unfold throw. eexists _, _.
    split; [reflexivity|]. cbn [live stderr]. repeat split. right. reflexivity.
  - rewrite (bool_decide_eq_false_2 _ Hm). cbn [negb]. unfold throw.
    eexists _, _. split; [reflexivity|]. cbn [live stderr]. repeat split.
    left. reflexivity.
Qed.

(** C5.  A blob whose first eight bytes are not the magic tag, or whose
    version field is not 2, makes [load_checkpoint] raise "bad magic" or
    "unsupported version"; the machine - CPU, memory, exec context, kernel
    state, page table - is exactly what it was, and nothing is printed. *)
Theorem C5_bad_header_rejected (data : list byte) (t : State) :
  (8 <= length data)%nat ->
  take 8 data <> MAGIC \/
  ((12 <= length data)%nat /\ le_combine (take 4 (drop 8 data)) <> VERSION) ->
  exists x w',
    load_checkpoint (start data t) = (Throw x, w') /\
    live w' = t /\ stderr w' = [] /\
    (x = bad_magic \/ x = unsupported_version (le_combine (take 4 (drop 8 data)))).
Proof.
  intros Hlen Hbad.
  destruct (load_header_rejects data t [] Hlen Hbad) as (x & w' & Hrun & Hrest).
  exists x, w'. split; [|exact Hrest].
  unfold load_checkpoint, load_until_arena, load_sections, start.
  apply bind_throw, bind_throw, bind_throw, Hrun.
Qed.

Lemma C5_bad_header_rejected_witness :
  (8 <= length bad_version_blob)%nat /\
  ((12 <= length bad_version_blob)%nat /\
   le_combine (take 4 (drop 8 bad_version_blob)) <> VERSION) /\
  exists x w',
    load_checkpoint (start bad_version_blob demo_target) = (Throw x, w') /\
    live w' = demo_target /\ stderr w' = [] /\
    (x = bad_magic \/
     x = unsupported_version (le_combine (take 4 (drop 8 bad_version_blob)))).
Proof.
  assert (H8 : (8 <= length bad_version_blob)%nat) by (vm_compute; lia).
  assert (Hv : (12 <= length bad_version_blob)%nat /\
               le_combine (take 4 (drop 8 bad_version_blob)) <> VERSION).
  { split; [vm_compute; lia|]. intros H. vm_compute in H. discriminate H. }
  split; [exact H8|]. split; [exact Hv|].
  exact (C5_bad_header_rejected bad_version_blob demo_target H8 (or_intror Hv)).
Defined.

(** ** Blobs cut short *)

Lemma sections_untouched_refl (s : State) : sections_untouched s s.
Proof. repeat split. Qed.

Lemma sections_untouched_trans (s1 s2 s3 : State) :
  sections_untouched s1 s2 -> sections_untouched s2 s3 -> sections_untouched s1 s3.
Proof.
  intros (H1 & H2 & H3 & H4) (K1 & K2 & K3 & K4).
  repeat split; congruence.
Qed.

Lemma sections_untouched_sys (s : State) (f : Syscalls -> Syscalls) :
  g_exec_ctx (f (sys s)) = g_exec_ctx (sys s) ->
  g_waiting_for_stdin (f (sys s)) = g_waiting_for_stdin (sys s) ->
  sections_untouched s (mkState (cpu s) (memory s) (f (sys s))).
Proof. intros H1 H2. repeat split; assumption. Qed.

Lemma length_enc_header : length enc_header = 16%nat.
Proof. reflexivity. Qed.

Lemma length_enc_locals (s : State) :
  length (reg (cpu s)) = 32%nat -> length (fl (cpu s)) = 32%nat ->
  length (enc_locals s) = 640%nat.
Proof.
  intros Hreg Hfl. unfold enc_locals. cbv zeta.
  rewrite !length_app, !length_concat_le_split, !length_le_split, Hreg, Hfl.
  reflexivity.
Qed.

(** A blob that ends inside the header or the fixed-size fields: the load
    raises before anything live is written. *)
Lemma load_sections_short_fixed (s t : State) (n : nat) (e : list diag) :
  well_formed s -> (n < 656)%nat ->
  exists w',
    load_sections (mkWorld (take n (enc_sections s)) t e) = (Throw unexpected_EOF, w') /\
    live w' = t.
Proof.
  intros (Hcpu & Hmem & Hsys) Hn.
  pose proof Hcpu as (_ & _ & Hreg & _ & Hfl & _).
  destruct Hmem as (Hmmap & _). destruct Hsys as (Hctx & _).
  destruct (decodes_header eq (@eq_refl State) (@eq_trans State) t) as (Hok & Hshort & _).
  unfold load_sections, enc_sections.
  destruct (Nat.lt_ge_cases n 16) as [Hlt|Hge].
  - rewrite take_app_le by (rewrite length_enc_header; lia).
    destruct (Hshort ltac:(rewrite length_enc_header; lia) n e) as (w' & Hrun & Heq);
      [rewrite length_enc_header; lia|].
    exists w'. split; [|symmetry; exact Heq]. apply bind_throw, Hrun.
  - rewrite take_app_ge by (rewrite length_enc_header; lia).
    erewrite bind_ok by apply Hok. rewrite length_enc_header.
    destruct (decodes_locals eq (@eq_refl State) (@eq_trans State) s t Hcpu Hmmap Hctx)
      as (_ & Hshort2 & _).
    rewrite take_app_le by (rewrite length_enc_locals by assumption; lia).
    destruct (Hshort2 ltac:(rewrite length_enc_locals by assumption; lia)
                (n - 16)%nat (e ++ [])) as (w' & Hrun & Heq);
      [rewrite length_enc_locals by assumption; lia|].
    exists w'. split; [|symmetry; exact Heq]. apply bind_throw, Hrun.
Qed.


(** ** The sparse codec *)

Lemma save_full_chunks_all_zero (a : list byte) (fuel : nat) :
  Forall (fun b => b = Byte.x00) a ->
  forall o : nat, save_full_chunks fuel a (Z.of_nat o) [] = [].
Proof.
  intros Hz. induction fuel as [|fuel IH]; intros o; cbn [save_full_chunks].
  - reflexivity.
  - pose proof chunk_len_Z as HC.
    destruct (Z.leb_spec (Z.of_nat o + CHUNK_SIZE) (Z.of_nat (length a))) as [Hfit|_];
      [|reflexivity].
    assert (Hfit' : (o + chunk_len <= length a)%nat) by lia.
    assert (Ez : chunk_all_zero a (Z.of_nat o) = true).
    { apply chunk_all_zero_spec; [exact Hfit'|].
      apply Forall_take, Forall_drop, Hz. }
    rewrite Ez.
    replace (Z.of_nat o + CHUNK_SIZE) with (Z.of_nat (o + chunk_len)) by lia.
    apply IH.
Qed.

Lemma save_tail_all_zero (a : list byte) :
  Forall (fun b => b = Byte.x00) a -> save_tail a [] = [].
Proof.
  intros Hz. unfold save_tail. cbv zeta.
  destruct (_ <? _); [|reflexivity].
  assert (Ez : tail_all_zero
                 (slice a (Z.of_nat (length a) / CHUNK_SIZE * CHUNK_SIZE)
                    (Z.of_nat (length a) - Z.of_nat (length a) / CHUNK_SIZE * CHUNK_SIZE))
               = true).
  { apply tail_all_zero_spec. unfold slice. apply Forall_take, Forall_drop, Hz. }
  rewrite Ez. reflexivity.
Qed.

(** C8.  The chunk stream of an arena whose bytes are all zero is the
    sentinel record alone (offset all-bits-set, length 0), whatever the
    size of the arena; and the arena stage of a load, run on that stream
    over any destination arena, ends normally with every byte of the
    destination zero. *)
Theorem C8_all_zero_arena (a : list byte) (st : State) (e : list diag) :
  Forall (fun b => b = Byte.x00) a ->
  save_arena [] a = le_split 8 (2 ^ 64 - 1) ++ le_split 8 0 /\
  exists c w',
    load_arena (mkWorld (save_arena [] a) st e) = (Ok c, w') /\
    arena (memory (live w')) = zeros (length (arena (memory st))) /\
    Forall (fun b => b = Byte.x00) (arena (memory (live w'))).
Proof.
  intros Hz.
  assert (Henc : save_arena [] a = le_split 8 SENTINEL_ADDR ++ le_split 8 0).
  { rewrite save_arena_chunks. unfold enc_chunks.
    change 0 with (Z.of_nat 0) at 1.
    rewrite save_full_chunks_all_zero, save_tail_all_zero by exact Hz.
    reflexivity. }
  split; [exact Henc|]. rewrite Henc.
  unfold load_arena.
  unfold mbind at 1, prog_bind at 1, set_memory. cbn [r live stderr cpu memory sys].
  unfold mbind at 1, prog_bind at 1, set_memory. cbn [r live stderr cpu memory sys].
  unfold mbind at 1, prog_bind at 1, remaining. cbn [r live stderr].
  rewrite length_app, !length_le_split. change (Z.to_nat (Z.of_nat (8 + 8))) with 16%nat.
  rewrite <- (app_nil_r (le_split 8 0)).
  rewrite load_chunks_sentinel by (unfold is_u64; lia).
  eexists _, _. split; [reflexivity|]. cbn [live memory arena memset_arena with_arena
    evict_execute_segments].
  split; [reflexivity|]. apply all_zero_zeros. rewrite zeros_length. reflexivity.
Qed.

Lemma C8_all_zero_arena_witness :
  Forall (fun b => b = Byte.x00) (zeros 5) /\
  save_arena [] (zeros 5) = le_split 8 (2 ^ 64 - 1) ++ le_split 8 0 /\
  exists c w',
    load_arena (mkWorld (save_arena [] (zeros 5)) demo_target []) = (Ok c, w') /\
    arena (memory (live w')) = zeros 3.
Proof.
  assert (Hz : Forall (fun b => b = Byte.x00) (zeros 5)) by (repeat constructor).
  split; [exact Hz|].
  destruct (C8_all_zero_arena (zeros 5) demo_target [] Hz) as (Henc & c & w' & Hrun & Ha & _).
  split; [exact Henc|]. exists c, w'. split; [exact Hrun|exact Ha].
Defined.

(** The loop over full windows emits the records of [window_records]. *)
Lemma save_full_chunks_records (a : list byte) (fuel : nat) :
  forall k : nat,
  let n := Z.to_nat (Z.of_nat (length a) / CHUNK_SIZE) in
  (k <= n)%nat -> (n - k <= fuel)%nat ->
  save_full_chunks fuel a (Z.of_nat k * CHUNK_SIZE) []
  = concat (map (fun rec => enc_record (fst rec) (snd rec))
                (flat_map (window_record a) (seq k (n - k)))).
Proof.
  induction fuel as [|fuel IH]; intros k n Hk Hfuel; cbn [save_full_chunks].
  - replace (n - k)%nat with 0%nat by lia. reflexivity.
  - assert (Hn : Z.of_nat n = Z.of_nat (length a) / CHUNK_SIZE).
    { unfold n. apply Z2Nat.id. apply Z.div_pos; unfold CHUNK_SIZE; lia. }
    pose proof (Z.div_mod (Z.of_nat (length a)) CHUNK_SIZE ltac:(unfold CHUNK_SIZE; lia)) as Hdm.
    pose proof (Z.mod_pos_bound (Z.of_nat (length a)) CHUNK_SIZE
                  ltac:(unfold CHUNK_SIZE; lia)) as Hmb.
    rewrite <- Hn in Hdm.
    destruct (Z.leb_spec (Z.of_nat k * CHUNK_SIZE + CHUNK_SIZE) (Z.of_nat (length a)))
      as [Hfit|Hend].
    + assert (Hlt : (k < n)%nat) by (unfold CHUNK_SIZE in *; nia).
      replace (n - k)%nat with (S (n - S k)) by lia.
      cbn [seq flat_map map]. rewrite map_app, concat_app.
      replace (Z.of_nat k * CHUNK_SIZE + CHUNK_SIZE) with (Z.of_nat (S k) * CHUNK_SIZE)
        by lia.
      unfold window_record at 1. cbv zeta.
      destruct (chunk_all_zero a (Z.of_nat k * CHUNK_SIZE)).
      * cbn [map concat app]. apply IH; lia.
      * cbv zeta. unfold emit_val, emit. rewrite save_full_chunks_out.
        rewrite (IH (S k)) by lia. fold n.
        cbn [map concat fst snd]. unfold enc_record.
        assert (Hlen : Z.of_nat (length (slice a (Z.of_nat k * CHUNK_SIZE) CHUNK_SIZE))
                       = CHUNK_SIZE).
        { unfold slice. rewrite length_take, length_drop. unfold CHUNK_SIZE in *. lia. }
        rewrite Hlen, app_nil_l, app_nil_r, <- !app_assoc. reflexivity.
    + replace (n - k)%nat with 0%nat by (unfold CHUNK_SIZE in *; nia). reflexivity.
Qed.

Lemma window_records_below_tail (a : list byte) :
  Forall (fun rec => fst rec + Z.of_nat (length (snd rec))
                     <= Z.of_nat (length a) / CHUNK_SIZE * CHUNK_SIZE)
         (window_records a).
Proof.
  unfold window_records. apply Forall_forall. intros rec Hin.
  apply list_elem_of_In, in_flat_map in Hin as (k & Hk & Hin).
  apply in_seq in Hk. unfold window_record in Hin. cbv zeta in Hin.
  destruct (chunk_all_zero a (Z.of_nat k * CHUNK_SIZE)); [contradiction Hin|].
  destruct Hin as [<-|[]]. cbn [fst snd].
  assert (Hn : Z.of_nat (Z.to_nat (Z.of_nat (length a) / CHUNK_SIZE))
               = Z.of_nat (length a) / CHUNK_SIZE).
  { apply Z2Nat.id. apply Z.div_pos; unfold CHUNK_SIZE; lia. }
  assert (Hlen : Z.of_nat (length (slice a (Z.of_nat k * CHUNK_SIZE) CHUNK_SIZE))
                 <= CHUNK_SIZE).
  { unfold slice. rewrite length_take. unfold CHUNK_SIZE. lia. }
  unfold CHUNK_SIZE in *. nia.
Qed.

(** C9.  For an arena whose size is not a multiple of 64 KiB and whose
    trailing partial window holds a non-zero byte, the chunk stream is the
    records of the non-zero full windows, then one record for the tail,
    then the sentinel.  The tail record carries the last window boundary
    as its offset and exactly the trailing bytes as its payload; every
    record in front of it ends at or below that boundary, so the tail
    occurs once. *)
Theorem C9_tail_chunk_emitted_once (a : list byte) :
  Z.of_nat (length a) mod CHUNK_SIZE <> 0 ->
  ~ Forall (fun b => b = Byte.x00)
      (drop (Z.to_nat (Z.of_nat (length a) / CHUNK_SIZE * CHUNK_SIZE)) a) ->
  let tail_offset := Z.of_nat (length a) / CHUNK_SIZE * CHUNK_SIZE in
  let tail := drop (Z.to_nat tail_offset) a in
  save_arena [] a = enc_stream (window_records a ++ [(tail_offset, tail)]) /\
  Z.of_nat (length tail) = Z.of_nat (length a) mod CHUNK_SIZE /\
  Z.of_nat (length tail) = Z.of_nat (length a) - tail_offset /\
  Forall (fun rec => fst rec + Z.of_nat (length (snd rec)) <= tail_offset)
         (window_records a).
Proof.
  intros Hmod Hnz tail_offset tail.
  pose proof (Z.div_mod (Z.of_nat (length a)) CHUNK_SIZE ltac:(unfold CHUNK_SIZE; lia)) as Hdm.
  pose proof (Z.mod_pos_bound (Z.of_nat (length a)) CHUNK_SIZE
                ltac:(unfold CHUNK_SIZE; lia)) as Hmb.
  assert (Hto : 0 <= tail_offset < Z.of_nat (length a)).
  { unfold tail_offset. unfold CHUNK_SIZE in *. lia. }
  assert (Hlen : Z.of_nat (length tail) = Z.of_nat (length a) - tail_offset).
  { unfold tail. rewrite length_drop. lia. }
  split; [|split; [unfold tail_offset, CHUNK_SIZE in *; lia|split; [exact Hlen|]]].
  - rewrite save_arena_chunks. unfold enc_stream. f_equal.
    unfold enc_chunks. rewrite save_tail_out.
    rewrite map_app, concat_app. f_equal.
    + pose proof (save_full_chunks_records a (length a) 0) as Hrec.
      cbv zeta in Hrec. rewrite Nat.sub_0_r in Hrec.
      apply Hrec; [lia|].
      assert (Z.of_nat (length a) / CHUNK_SIZE <= Z.of_nat (length a)); [|lia].
      unfold CHUNK_SIZE in *. lia.
    + unfold save_tail. cbv zeta. fold tail_offset.
      destruct (Z.ltb_spec tail_offset (Z.of_nat (length a))) as [_|?]; [|lia].
      assert (Hslice : slice a tail_offset (Z.of_nat (length a) - tail_offset) = tail).
      { unfold slice, tail. apply take_ge. rewrite length_drop. lia. }
      rewrite Hslice.
      destruct (tail_all_zero tail) eqn:Ez.
      { apply tail_all_zero_spec in Ez. contradiction. }
      cbn [negb map concat fst snd]. unfold emit_val, emit, enc_record.
      rewrite Hlen, app_nil_l, app_nil_r, <- app_assoc. reflexivity.
  - apply window_records_below_tail.
Qed.

Lemma C9_tail_chunk_emitted_once_witness :
  Z.of_nat (length (arena (memory demo_saved))) mod CHUNK_SIZE <> 0 /\
  ~ Forall (fun b => b = Byte.x00) (arena (memory demo_saved)) /\
  save_arena [] (arena (memory demo_saved))
    = enc_stream [(0, [Byte.x00; Byte.x01; Byte.x00])].
Proof.
  assert (Hmod : Z.of_nat (length (arena (memory demo_saved))) mod CHUNK_SIZE <> 0).
  { intros H. vm_compute in H. discriminate H. }
  assert (Hnz : ~ Forall (fun b => b = Byte.x00)
                  (drop (Z.to_nat (Z.of_nat (length (arena (memory demo_saved)))
                                   / CHUNK_SIZE * CHUNK_SIZE))
                        (arena (memory demo_saved)))).
  { intros H. apply tail_all_zero_spec in H. vm_compute in H. discriminate H. }
  split; [exact Hmod|]. split; [exact Hnz|].
  destruct (C9_tail_chunk_emitted_once (arena (memory demo_saved)) Hmod Hnz) as (Henc & _).
  exact Henc.
Defined.

(** C6, at the input on which the code breaks it.  The record has offset
    2^64 - 2 and length 3, so offset plus length exceeds the 3-byte arena;
    in 64-bit arithmetic the sum wraps to 1 and passes the test.  The
    record is not skipped and no diagnostic is printed: its payload is
    copied to [arena + offset], outside the arena. *)
Lemma C6_wrapping_record_not_rejected :
  18446744073709551614 + 3 > Z.of_nat (length (arena (memory demo_target))) /\
  to_u64 (18446744073709551614 + 3) = 1 /\
  fst (load_checkpoint (start wrapping_record_blob demo_target)) = OutOfBounds /\
  forallb (fun d => negb (is_chunk_exceeds d))
          (stderr (snd (load_checkpoint (start wrapping_record_blob demo_target)))) = true.
Proof. vm_compute. repeat split. Qed.
(** * The shim under the harness *)

Lemma to_u64_to_i64 (x : Z) : is_u64 x -> to_u64 (to_i64 x) = x.
Proof.
  unfold is_u64, to_u64, to_i64. intros Hx.
  rewrite (Z.mod_small x) by lia.
  destruct (x <? 2 ^ 63) eqn:E.
  - apply Z.mod_small. lia.
  - replace (x - 2 ^ 64) with (x + (-1) * 2 ^ 64) by lia.
    rewrite Z_mod_plus_full. apply Z.mod_small. lia.
Qed.

Lemma to_u64_mod_u32 (x : Z) : to_u64 x mod 2 ^ 32 = x mod 2 ^ 32.
Proof.
  unfold to_u64. apply Z.mod_mod_divide. exists (2 ^ 32). reflexivity.
Qed.

Lemma to_i32_to_u64 (x : Z) : is_i32 x -> to_i32 (to_u64 x) = x.
Proof.
  unfold is_i32, to_i32. intros Hx. rewrite to_u64_mod_u32.
  destruct (Z_lt_dec x 0) as [Hneg | Hpos].
  - replace (x mod 2 ^ 32) with (x + 2 ^ 32).
    + destruct (x + 2 ^ 32 <? 2 ^ 31) eqn:E; lia.
    + symmetry. replace x with (x + 2 ^ 32 + (-1) * 2 ^ 32) at 1 by lia.
      rewrite Z_mod_plus_full. apply Z.mod_small. lia.
  - rewrite Z.mod_small by lia. destruct (x <? 2 ^ 31) eqn:E; lia.
Qed.

Lemma to_u64_idem (x : Z) : to_u64 (to_u64 x) = to_u64 x.
Proof. unfold to_u64. apply Z.mod_mod. lia. Qed.

Lemma to_size_t_u64 (b : vh.Build) (x : Z) : vh.to_size_t b (to_u64 x) = vh.to_size_t b x.
Proof.
  unfold vh.to_size_t. destruct (vh.is_emscripten b).
  - unfold to_u32. apply to_u64_mod_u32.
  - apply to_u64_idem.
Qed.

Lemma to_long_u64 (b : vh.Build) (x : Z) : vh.to_long b (to_u64 x) = vh.to_long b x.
Proof.
  unfold vh.to_long. destruct (vh.is_emscripten b).
  - unfold to_i32. rewrite to_u64_mod_u32. reflexivity.
  - unfold to_i64. fold (to_u64 (to_u64 x)). rewrite to_u64_idem. reflexivity.
Qed.

Lemma to_size_t_long (b : vh.Build) (x : Z) :
  is_u64 x -> vh.to_size_t b (to_u64 (vh_preload.long x)) = vh.to_size_t b x.
Proof.
  intros Hx. unfold vh_preload.long. rewrite to_u64_to_i64 by exact Hx. reflexivity.
Qed.

(** X1.  Whatever its arguments, a call of a function of the shim either
    does not trap ([freeaddrinfo], a [memmove] of at most 1024 bytes), or
    issues one of the raw Linux syscalls close (57), read (63), write (64),
    pread64 (67), and then on a descriptor that is at most 2, or issues a
    hypercall whose number is among 601-604, 703-705, 708 and 800-803, for
    which [setup_vh_harness] installs a handler in either build.  The shim
    never issues 600, 700 or 706. *)
Theorem shim_traps_are_handled
  (L : vh.Libriscv) (b : vh.Build) (inet_ntop : vh.memory -> Z -> list byte)
  (sin_port : vh.memory -> Z -> Z) (c : shim_call) (t : vh_preload.trap) :
  trap_of c = Some t ->
  match t with
  | vh_preload.vh_ecall nr _ _ _ _ _ =>
      In nr [601; 602; 603; 604; 703; 704; 705; 708; 800; 801; 802; 803] /\
      is_Some (vh.setup_vh_harness L b inet_ntop sin_port nr)
  | vh_preload.raw_syscall3 nr fd _ _ => In nr [57; 63; 64] /\ fd <= 2
  | vh_preload.raw_syscall4 nr fd _ _ _ => nr = 67 /\ fd <= 2
  end.
Proof.
  destruct c; cbn [trap_of].
  - intros [= <-]. unfold vh_preload.write.
    destruct (fd =? 99) eqn:E1; [cbn; split; [tauto | eexists; reflexivity] |].
    destruct ((fd >=? 500) && (fd <? 600)) eqn:E2; [cbn; split; [tauto | eexists; reflexivity] |].
    destruct (fd >? 2) eqn:E3; [cbn; split; [tauto | eexists; reflexivity] |].
    cbn. split; [tauto | lia].
  - intros [= <-]. unfold vh_preload.read.
    destruct ((fd >=? 500) && (fd <? 600)) eqn:E2; [cbn; split; [tauto | eexists; reflexivity] |].
    destruct (fd >? 2) eqn:E3; [cbn; split; [tauto | eexists; reflexivity] |].
    cbn. split; [tauto | lia].
  - intros [= <-]. unfold vh_preload.pread.
    destruct (fd >? 2) eqn:E3; [cbn; split; [tauto | eexists; reflexivity] |].
    cbn. split; [reflexivity | lia].
  - intros [= <-]. unfold vh_preload.close.
    destruct (fd >? 2) eqn:E3; [cbn; split; [tauto | eexists; reflexivity] |].
    cbn. split; [tauto | lia].
  - unfold vh_preload.memmove. destruct (n >? 1024) eqn:E.
    + intros [= <-]. cbn. split; [tauto | eexists; reflexivity].
    + destruct (dest <? src); discriminate.
  - intros [= <-]. cbn. split; [tauto | eexists; reflexivity].
  - intros [= <-]. cbn. split; [tauto | eexists; reflexivity].
  - intros [= <-]. cbn. split; [tauto | eexists; reflexivity].
  - intros [= <-]. cbn. split; [tauto | eexists; reflexivity].
  - discriminate.
Qed.

Lemma shim_traps_are_handled_witness :
  trap_of (call_close 7) = Some (vh_preload.vh_ecall 603 7 0 0 0 0) /\
  In 603 [601; 602; 603; 604; 703; 704; 705; 708; 800; 801; 802; 803] /\
  is_Some (vh.setup_vh_harness flat_accessors (vh.Native 0) (fun _ _ => []) (fun _ _ => 0) 603).
Proof.
  split; [reflexivity |].
  apply (shim_traps_are_handled flat_accessors (vh.Native 0) (fun _ _ => []) (fun _ _ => 0)
           (call_close 7) (vh_preload.vh_ecall 603 7 0 0 0 0)).
  reflexivity.
Defined.
Ltac run_ecall :=
  unfold ecall, ecall_machine, hypercall_number;
  cbn [vh.setup_vh_harness Z.eqb Pos.eqb];
  unfold vh.h601, vh.h602, vh.h603, vh.h604, vh.h703, vh.h704, vh.h705, vh.h708,
    vh.h802, vh.h803, vh.with_buffer, vh.sysarg_int, vh.sysarg, forwards;
  cbn [vh.a vh.mem lookup_total list_lookup_total].

(** X2.  The shim and the harness agree on the argument registers.  For
    an [int] descriptor and 64-bit [buf] and [count], the handler that
    runs on the trap of [write], [read], [pread], [close] or [getrandom]
    takes a view of [count] bytes at [buf] (the count cut to the host's
    [size_t]) and calls the host primitive with the shim's own arguments:
    [js_opfs_io(fd, view, count, 601 | 602 | 604, offset)] for storage,
    [js_net_proxy(fd, NULL, 0, 802 | 803, view, count)] for the window
    500-599, [js_compute_offload(708 | 705, view, count, NULL, 0)] for
    descriptor 99 and for [getrandom], and [js_opfs_io(fd, NULL, 0, 603,
    0)] for [close]; [flags] of [getrandom] is dropped. *)
Theorem shim_arguments_reach_the_host
  (L : vh.Libriscv) (b : vh.Build) (inet_ntop : vh.memory -> Z -> list byte)
  (sin_port : vh.memory -> Z -> Z) (a5 a6 : Z) (m : vh.memory)
  (fd buf count offset flags : Z) :
  is_i32 fd -> is_u64 buf -> is_u64 count ->
  let H := vh.host_of b in
  let len := vh.to_size_t b count in
  let run := ecall L b inet_ntop sin_port a5 a6 in
  (2 < fd -> fd <> 99 -> ~ 500 <= fd < 600 ->
     run (vh_preload.write fd buf count) m
     = Some (forwards L m buf len (fun v => vh.js_opfs_io H fd v len 601 0 m))) /\
  (500 <= fd < 600 ->
     run (vh_preload.write fd buf count) m
     = Some (forwards L m buf len (fun v => vh.js_net_proxy H fd vh.nullptr 0 802 v len m))) /\
  (fd = 99 ->
     run (vh_preload.write fd buf count) m
     = Some (forwards L m buf len
               (fun v => vh.js_compute_offload H 708 v len vh.nullptr 0 m))) /\
  (2 < fd -> ~ 500 <= fd < 600 ->
     run (vh_preload.read fd buf count) m
     = Some (forwards L m buf len (fun v => vh.js_opfs_io H fd v len 602 0 m))) /\
  (500 <= fd < 600 ->
     run (vh_preload.read fd buf count) m
     = Some (forwards L m buf len (fun v => vh.js_net_proxy H fd vh.nullptr 0 803 v len m))) /\
  (2 < fd ->
     run (vh_preload.pread fd buf count offset) m
     = Some (forwards L m buf len
               (fun v => vh.js_opfs_io H fd v len 604 (vh.to_long b offset) m))) /\
  (2 < fd ->
     run (vh_preload.close fd) m
     = Some (let '(ret, m') := vh.js_opfs_io H fd vh.nullptr 0 603 0 m in
             vh.set_result ret m')) /\
  run (vh_preload.getrandom buf count flags) m
  = Some (forwards L m buf len (fun v => vh.js_compute_offload H 705 v len vh.nullptr 0 m)).
Proof.
  intros Hfd Hbuf Hcount H len run. subst H len run.
  assert (Hb : to_u64 (vh_preload.long buf) = buf)
    by (apply to_u64_to_i64; exact Hbuf).
  assert (Hc : vh.to_size_t b (to_u64 (vh_preload.long count)) = vh.to_size_t b count)
    by (apply to_size_t_long; exact Hcount).
  assert (Hf : to_i32 (to_u64 fd) = fd) by (apply to_i32_to_u64; exact Hfd).
  repeat split.
  - intros H2 H99 Hw. unfold vh_preload.write.
    replace (fd =? 99) with false by lia.
    replace ((fd >=? 500) && (fd <? 600)) with false by lia.
    replace (fd >? 2) with true by lia.
    run_ecall. rewrite Hb, Hc, Hf. reflexivity.
  - intros Hw. unfold vh_preload.write.
    replace (fd =? 99) with false by lia.
    replace ((fd >=? 500) && (fd <? 600)) with true by lia.
    run_ecall. rewrite Hb, Hc, Hf. reflexivity.
  - intros ->. unfold vh_preload.write. cbn [Z.eqb Pos.eqb].
    run_ecall. rewrite Hb, Hc. reflexivity.
  - intros H2 Hw. unfold vh_preload.read.
    replace ((fd >=? 500) && (fd <? 600)) with false by lia.
    replace (fd >? 2) with true by lia.
    run_ecall. rewrite Hb, Hc, Hf. reflexivity.
  - intros Hw. unfold vh_preload.read.
    replace ((fd >=? 500) && (fd <? 600)) with true by lia.
    run_ecall. rewrite Hb, Hc, Hf. reflexivity.
  - intros H2. unfold vh_preload.pread.
    replace (fd >? 2) with true by lia.
    run_ecall. rewrite Hb, Hc, Hf, to_long_u64. reflexivity.
  - intros H2. unfold vh_preload.close.
    replace (fd >? 2) with true by lia.
    run_ecall. rewrite Hf. reflexivity.
  - unfold vh_preload.getrandom. run_ecall. rewrite Hb, Hc. reflexivity.
Qed.

Lemma shim_arguments_reach_the_host_witness :
  is_i32 7 /\ is_u64 4096 /\ is_u64 16 /\
  ecall flat_accessors (vh.Native 0) (fun _ _ => []) (fun _ _ => 0) 0 0
        (vh_preload.pread 7 4096 16 32) ramp
  = Some (forwards flat_accessors ramp 4096 16
            (fun v => vh.js_opfs_io (vh.native_stubs 0) 7 v 16 604 32 ramp)).
Proof.
  assert (H7 : is_i32 7) by (unfold is_i32; lia).
  assert (Hb : is_u64 4096) by (unfold is_u64; lia).
  assert (Hc : is_u64 16) by (unfold is_u64; lia).
  split; [exact H7 | split; [exact Hb | split; [exact Hc |]]].
  pose proof (shim_arguments_reach_the_host flat_accessors (vh.Native 0)
                (fun _ _ => []) (fun _ _ => 0) 0 0 ramp 7 4096 16 32 0 H7 Hb Hc)
    as (_ & _ & _ & _ & _ & Hp & _).
  apply Hp. lia.
Defined.
Lemma host_memmove_spec (d s len : Z) (m : vh.memory) :
  (forall i, 0 <= i < len -> vh.host_memmove d s len m (d + i) = m (s + i)) /\
  (forall x, ~ d <= x < d + len -> vh.host_memmove d s len m x = m x).
Proof.
  unfold vh.host_memmove. split.
  - intros i Hi.
    replace ((d <=? d + i) && (d + i <? d + len)) with true by lia.
    f_equal. lia.
  - intros x Hx.
    replace ((d <=? x) && (x <? d + len)) with false by lia. reflexivity.
Qed.

(** X3.  A [memmove] of more than 1024 bytes, offloaded to the host,
    copies like the local loops.  When the length fits the host's
    [size_t] and libriscv hands out views of the two ranges, the shim
    traps with hypercall 703, the handler sets the result to [dest] (which
    the shim returns), byte [i] of the destination holds what byte [i] of
    the source held before the call, overlapping ranges included, and no
    byte outside the destination changes. *)
Theorem memmove_offloaded_copies
  (L : vh.Libriscv) (b : vh.Build) (inet_ntop : vh.memory -> Z -> list byte)
  (sin_port : vh.memory -> Z -> Z) (a5 a6 : Z) (m : vh.memory) (dest src n : Z) :
  1024 < n -> is_u64 dest -> is_u64 src -> is_u64 n ->
  vh.to_size_t b n = n ->
  vh.memarray L m 1 dest n = Some (vh.view dest) ->
  vh.memarray L m 1 src n = Some (vh.view src) ->
  exists t m',
    vh_preload.memmove m dest src n = vh_preload.offloaded t /\
    hypercall_number t = Some 703 /\
    ecall L b inet_ntop sin_port a5 a6 t m = Some (vh.set_result dest m') /\
    ret_ptr (vh.result_register dest) = dest /\
    (forall i, 0 <= i < n -> m' (dest + i) = m (src + i)) /\
    (forall x, ~ dest <= x < dest + n -> m' x = m x).
Proof.
  intros Hn Hd Hs Hn64 Hsz Hvd Hvs.
  exists (vh_preload.vh_ecall 703 (vh_preload.long dest) (vh_preload.long src)
            (vh_preload.long n) 0 0), (vh.host_memmove dest src n m).
  split.
  { unfold vh_preload.memmove. replace (n >? 1024) with true by lia. reflexivity. }
  split; [reflexivity |].
  split.
  { run_ecall.
    unfold vh_preload.long. rewrite !to_u64_to_i64 by assumption.
    rewrite Hsz, Hvd, Hvs.
    replace (n >? 0) with true by lia. reflexivity. }
  split.
  { unfold ret_ptr, vh.result_register. rewrite to_u64_idem. apply to_u64_small. exact Hd. }
  apply host_memmove_spec.
Qed.

Lemma memmove_offloaded_copies_witness :
  exists t m',
    vh_preload.memmove ramp 8192 8200 2000 = vh_preload.offloaded t /\
    hypercall_number t = Some 703 /\
    ecall flat_accessors (vh.Native 0) (fun _ _ => []) (fun _ _ => 0) 0 0 t ramp
    = Some (vh.set_result 8192 m') /\
    ret_ptr (vh.result_register 8192) = 8192 /\
    (forall i, 0 <= i < 2000 -> m' (8192 + i) = ramp (8200 + i)) /\
    (forall x, ~ 8192 <= x < 8192 + 2000 -> m' x = ramp x).
Proof.
  apply (memmove_offloaded_copies flat_accessors (vh.Native 0) (fun _ _ => [])
           (fun _ _ => 0) 0 0 ramp 8192 8200 2000);
    try (unfold is_u64; lia); reflexivity.
Defined.


Lemma to_i64_range (x : Z) : - 2 ^ 63 <= to_i64 x < 2 ^ 63.
Proof.
  unfold to_i64. pose proof (Z.mod_pos_bound x (2 ^ 64) ltac:(lia)) as Hm.
  destruct (x mod 2 ^ 64 <? 2 ^ 63) eqn:E; lia.
Qed.

Lemma to_i64_small (x : Z) : - 2 ^ 63 <= x < 2 ^ 63 -> to_i64 x = x.
Proof.
  intros Hx. unfold to_i64.
  destruct (Z.ltb_spec x 0) as [Hneg | Hpos].
  - replace (x mod 2 ^ 64) with (x + 2 ^ 64)
      by (apply Z.mod_unique with (q := -1); lia).
    destruct (x + 2 ^ 64 <? 2 ^ 63) eqn:E; lia.
  - rewrite Z.mod_small by lia.
    destruct (x <? 2 ^ 63) eqn:E; lia.
Qed.

Lemma to_i32_range (x : Z) : - 2 ^ 31 <= to_i32 x < 2 ^ 31.
Proof.
  unfold to_i32. pose proof (Z.mod_pos_bound x (2 ^ 32) ltac:(lia)) as Hm.
  destruct (x mod 2 ^ 32 <? 2 ^ 31) eqn:E; lia.
Qed.

(** X5.  [gettimeofday(tv, tz)] under the harness: [tz] is ignored; a
    null [tv] writes nothing; otherwise the handler stores, as two 64-bit
    values at [tv] and [tv + 8], the quotient by 1000 of the host's
    milliseconds - received as a [long] of the build - and 1000 times the
    remainder, and the result is 0 in both cases.  The two values
    recombine to that [long] ([sec * 10^6 + usec = ms * 1000]), [usec] is
    within a second and has the sign of [ms].  On the Emscripten build
    the [long] has 32 bits, so that [sec] stays within 2147483 seconds of
    zero whatever the host's clock reads.  With the native clock
    ([clock_gettime]'s [tv_sec] and [tv_nsec] combined as in lines 58-62)
    the guest gets [tv_sec] itself and the microseconds rounded down to a
    whole millisecond. *)
Theorem gettimeofday_splits_the_clock
  (L : vh.Libriscv) (b : vh.Build) (inet_ntop : vh.memory -> Z -> list byte)
  (sin_port : vh.memory -> Z -> Z) (a5 a6 : Z) (m : vh.memory) (tv tz : Z) :
  is_u64 tv ->
  let ms := vh.to_long b (vh.js_gettime_ms (vh.host_of b)) in
  let sec := Z.quot ms 1000 in
  let usec := Z.rem ms 1000 * 1000 in
  ecall L b inet_ntop sin_port a5 a6 (vh_preload.gettimeofday tv tz) m
  = Some (if tv =? 0 then vh.set_result 0 m
          else match vh.write_i64 L m tv sec with
               | None => vh.raised
               | Some m1 =>
                   match vh.write_i64 L m1 (to_u64 (tv + 8)) usec with
                   | None => vh.raised
                   | Some m2 => vh.set_result 0 m2
                   end
               end) /\
  sec * 1000000 + usec = ms * 1000 /\
  - 1000000 < usec < 1000000 /\
  (0 <= ms -> 0 <= usec) /\
  (ms <= 0 -> usec <= 0) /\
  (vh.is_emscripten b = true -> - 2147483 <= sec <= 2147483) /\
  (forall tv_sec tv_nsec,
     0 <= tv_sec < 2 ^ 50 -> 0 <= tv_nsec < 1000000000 ->
     b = vh.Native (vh.clock_gettime_ms tv_sec tv_nsec) ->
     sec = tv_sec /\ usec <= Z.quot tv_nsec 1000 < usec + 1000).
Proof.
  intros Htv ms sec usec. split.
  - unfold vh_preload.gettimeofday. run_ecall.
    unfold vh_preload.long. rewrite to_u64_to_i64 by exact Htv.
    destruct (tv =? 0); reflexivity.
  - pose proof (Z.quot_rem' ms 1000) as Hqr.
    pose proof (Z.rem_bound_abs ms 1000 ltac:(lia)) as Habs.
    assert (Hpos : 0 <= ms -> 0 <= Z.rem ms 1000)
      by (intros Hms; apply Z.rem_nonneg; lia).
    assert (Hneg : ms <= 0 -> Z.rem ms 1000 <= 0)
      by (intros Hms; apply Z.rem_nonpos; lia).
    split; [subst sec usec; lia |].
    split; [subst sec usec; lia |].
    split; [subst sec usec; lia |].
    split; [subst sec usec; lia |].
    split.
    { intros Hb. assert (Hms : - 2 ^ 31 <= ms < 2 ^ 31).
      { subst ms. unfold vh.to_long. rewrite Hb. apply to_i32_range. }
      change (2 ^ 31) with 2147483648 in Hms.
      subst sec. destruct (Z.le_gt_cases 0 ms) as [Hs | Hs].
      - specialize (Hpos Hs). lia.
      - specialize (Hneg ltac:(lia)). lia. }
    intros tv_sec tv_nsec Hsec Hnsec ->.
    subst sec usec ms. cbn [vh.host_of vh.native_stubs vh.js_gettime_ms].
    unfold vh.to_long. cbn [vh.is_emscripten].
    rewrite (to_i64_small (vh.clock_gettime_ms tv_sec tv_nsec))
      by (unfold vh.clock_gettime_ms; apply to_i64_range).
    unfold vh.clock_gettime_ms.
    rewrite (Z.quot_div_nonneg tv_nsec 1000000), (Z.quot_div_nonneg tv_nsec 1000) by lia.
    pose proof (Z.div_mod tv_nsec 1000000 ltac:(lia)) as Hd1.
    pose proof (Z.mod_pos_bound tv_nsec 1000000 ltac:(lia)) as Hm1.
    pose proof (Z.div_mod tv_nsec 1000 ltac:(lia)) as Hd2.
    pose proof (Z.mod_pos_bound tv_nsec 1000 ltac:(lia)) as Hm2.
    set (q := tv_nsec / 1000000) in *.
    assert (Hq : 0 <= q < 1000) by lia.
    assert (Hwrap : to_i64 (tv_sec * 1000 + q) = tv_sec * 1000 + q).
    { unfold to_i64. rewrite Z.mod_small by lia.
      destruct (tv_sec * 1000 + q <? 2 ^ 63) eqn:E; lia. }
    rewrite Hwrap.
    rewrite (Z.quot_div_nonneg (tv_sec * 1000 + q) 1000) by lia.
    rewrite Z.rem_mod_nonneg by lia.
    assert (Hdiv : (tv_sec * 1000 + q) / 1000 = tv_sec).
    { symmetry. apply (Z.div_unique _ _ _ q); lia. }
    assert (Hmod : (tv_sec * 1000 + q) mod 1000 = q).
    { symmetry. apply (Z.mod_unique _ _ tv_sec q); lia. }
    rewrite Hdiv, Hmod. split; [reflexivity | lia].
Qed.

Lemma gettimeofday_splits_the_clock_witness :
  is_u64 4096 /\
  ecall flat_accessors (vh.Native (vh.clock_gettime_ms 1700000000 123456789))
        (fun _ _ => []) (fun _ _ => 0) 0 0
        (vh_preload.gettimeofday 4096 0) ramp
  = Some (vh.set_result 0
            (vh.host_memcpy 4104 (le_split 8 123000)
               (vh.host_memcpy 4096 (le_split 8 1700000000) ramp))).
Proof.
  assert (Htv : is_u64 4096) by (unfold is_u64; lia).
  split; [exact Htv |].
  destruct (gettimeofday_splits_the_clock flat_accessors
              (vh.Native (vh.clock_gettime_ms 1700000000 123456789))
              (fun _ _ => []) (fun _ _ => 0) 0 0 ramp 4096 0 Htv) as [H _].
  exact H.
Defined.

Lemma host_memcpy_spec (p : Z) (bs : list byte) (m : vh.memory) :
  (forall i, (i < length bs)%nat -> vh.host_memcpy p bs m (p + Z.of_nat i) = bs !!! i) /\
  (forall x, ~ p <= x < p + Z.of_nat (length bs) -> vh.host_memcpy p bs m x = m x).
Proof.
  unfold vh.host_memcpy. split.
  - intros i Hi.
    replace ((p <=? p + Z.of_nat i) && (p + Z.of_nat i <? p + Z.of_nat (length bs)))
      with true by lia.
    f_equal. lia.
  - intros x Hx.
    replace ((p <=? x) && (x <? p + Z.of_nat (length bs))) with false by lia.
    reflexivity.
Qed.

(** [strlen] finds the first NUL of the array. *)
Lemma strlen_some (bs : list byte) (n : nat) :
  vh.strlen bs = Some n ->
  (n < length bs)%nat /\ bs !!! n = Byte.x00 /\
  (forall i, (i < n)%nat -> bs !!! i <> Byte.x00).
Proof.
  revert n. induction bs as [| x t IH]; intros n; cbn [vh.strlen]; [discriminate |].
  destruct (bool_decide (x = Byte.x00)) eqn:Ex.
  - intros [= <-]. apply bool_decide_eq_true in Ex.
    cbn [length]. split; [lia |]. split; [exact Ex |]. intros i Hi. lia.
  - apply bool_decide_eq_false in Ex.
    destruct (vh.strlen t) as [k |]; [| discriminate].
    cbn. intros [= <-]. destruct (IH k eq_refl) as (Hk & Hnul & Hbefore).
    split; [lia |]. split; [exact Hnul |].
    intros [| i] Hi; [exact Ex | apply Hbefore; lia].
Qed.

(** [strlen] runs off the array exactly when it holds no NUL. *)
Lemma strlen_none (bs : list byte) :
  vh.strlen bs = None <-> Forall (fun c => c <> Byte.x00) bs.
Proof.
  induction bs as [| x t IH]; cbn [vh.strlen].
  - split; [constructor | reflexivity].
  - destruct (bool_decide (x = Byte.x00)) eqn:Ex.
    + apply bool_decide_eq_true in Ex. split; [discriminate |].
      intros H. inversion H; subst. congruence.
    + apply bool_decide_eq_false in Ex.
      destruct (vh.strlen t) as [k |]; cbn.
      * split; [discriminate |]. intros H. inversion H; subst.
        destruct IH as [_ IH]. discriminate (IH ltac:(assumption)).
      * split; [| reflexivity]. intros _. constructor; [exact Ex | apply IH; reflexivity].
Qed.

Lemma ip_buf_after_length (stored : list byte) : length (vh.ip_buf_after stored) = 64%nat.
Proof.
  unfold vh.ip_buf_after. rewrite length_app, length_take, length_replicate. lia.
Qed.

(** An array without NUL has been filled by the host to its last byte. *)
Lemma ip_buf_after_full (stored : list byte) :
  Forall (fun c => c <> Byte.x00) (vh.ip_buf_after stored) -> (64 <= length stored)%nat.
Proof.
  unfold vh.ip_buf_after. intros H. apply Forall_app in H as [_ H].
  destruct (64 - length stored)%nat as [| k] eqn:E; [lia |].
  cbn in H. inversion H; subst. congruence.
Qed.

(** X6.  The getaddrinfo handler (801, Emscripten build).  It is left by
    an exception only if [memstring] or [memarray] raised.  When it
    returns, it reports the value of [js_dns_resolve] for the node name,
    and it writes guest memory only on success: if the resolver's value is
    not 0 or the result pointer is null, memory is untouched; otherwise,
    through the view at the result pointer, the bytes of the 64-byte
    [ip_buf] up to and including its first NUL are stored - [n] bytes
    other than NUL followed by the terminating NUL, at most 64 in all -
    and every other byte is unchanged.  The one remaining case is
    undefined in the source: the resolver succeeded, the result pointer
    is a view, and the host has filled all 64 bytes of [ip_buf] without a
    NUL, so that [strlen] runs past the array. *)
Theorem getaddrinfo_writes_only_on_success
  (L : vh.Libriscv) (js : vh.Host) (M : vh.Machine) :
  match vh.h801 L (vh.Emscripten js) M with
  | vh.raised =>
      vh.memstring L (vh.mem M) (vh.sysarg M 0) = None \/
      vh.memarray L (vh.mem M) 1 (vh.sysarg M 3) 128 = None
  | vh.set_result v mem' =>
      exists node stored,
        vh.memstring L (vh.mem M) (vh.sysarg M 0) = Some node /\
        vh.js_dns_resolve js node (Z.of_nat (length node)) 64 0 = (v, stored) /\
        (v <> 0 \/ vh.sysarg M 3 = 0 -> mem' = vh.mem M) /\
        (forall p,
           v = 0 -> vh.sysarg M 3 <> 0 ->
           vh.memarray L (vh.mem M) 1 (vh.sysarg M 3) 128 = Some (vh.view p) ->
           exists n,
             (n < 64)%nat /\
             (forall i, (i < n)%nat ->
                        mem' (p + Z.of_nat i) = vh.ip_buf_after stored !!! i /\
                        mem' (p + Z.of_nat i) <> Byte.x00) /\
             mem' (p + Z.of_nat n) = Byte.x00 /\
             (forall x, ~ p <= x <= p + Z.of_nat n -> mem' x = vh.mem M x))
  | vh.overrun =>
      exists node stored p,
        vh.memstring L (vh.mem M) (vh.sysarg M 0) = Some node /\
        vh.js_dns_resolve js node (Z.of_nat (length node)) 64 0 = (0, stored) /\
        vh.sysarg M 3 <> 0 /\
        vh.memarray L (vh.mem M) 1 (vh.sysarg M 3) 128 = Some (vh.view p) /\
        (64 <= length stored)%nat /\
        Forall (fun c => c <> Byte.x00) (take 64 stored)
  end.
Proof.
  unfold vh.h801. cbn [vh.is_emscripten vh.host_of].
  destruct (vh.memstring L (vh.mem M) (vh.sysarg M 0)) as [node |]; [| left; reflexivity].
  destruct (vh.js_dns_resolve js node (Z.of_nat (length node)) 64 0) as [ret stored] eqn:Hdns.
  cbv zeta.
  destruct (Z.eqb_spec ret 0) as [-> | Hret].
  - destruct (Z.eqb_spec (vh.sysarg M 3) 0) as [Hres | Hres]; cbn [negb].
    + exists node, stored. split; [reflexivity |]. split; [exact Hdns |].
      split; [reflexivity |]. intros p _ Hnz. contradiction.
    + destruct (vh.memarray L (vh.mem M) 1 (vh.sysarg M 3) 128) as [[| p | s] |] eqn:Hview.
      * exists node, stored. split; [reflexivity |]. split; [exact Hdns |].
        split; [intros [? | ?]; [lia | contradiction] |]. intros p _ _ [=].
      * destruct (vh.strlen (vh.ip_buf_after stored)) as [n |] eqn:Hlen.
        -- exists node, stored. split; [reflexivity |]. split; [exact Hdns |].
           split; [intros [? | ?]; [lia | contradiction] |].
           intros p' _ _ [= <-].
           destruct (strlen_some _ _ Hlen) as (Hn & Hnul & Hbefore).
           rewrite ip_buf_after_length in Hn.
           assert (Htake : length (take (n + 1) (vh.ip_buf_after stored)) = (n + 1)%nat).
           { rewrite length_take, ip_buf_after_length. lia. }
           destruct (host_memcpy_spec p (take (n + 1) (vh.ip_buf_after stored)) (vh.mem M))
             as [Hin Hout].
           assert (Hat : forall i, (i <= n)%nat ->
                     vh.host_memcpy p (take (n + 1) (vh.ip_buf_after stored)) (vh.mem M)
                       (p + Z.of_nat i) = vh.ip_buf_after stored !!! i).
           { intros i Hi. rewrite Hin by lia.
             rewrite !list_lookup_total_alt, lookup_take_lt by lia. reflexivity. }
           exists n. split; [exact Hn |]. split; [| split].
           ++ intros i Hi. rewrite Hat by lia. split; [reflexivity | apply Hbefore, Hi].
           ++ rewrite Hat by lia. exact Hnul.
           ++ intros x Hx. apply Hout. rewrite Htake. lia.
        -- apply strlen_none in Hlen.
           exists node, stored, p. split; [reflexivity |]. split; [exact Hdns |].
           split; [exact Hres |]. split; [reflexivity |].
           split; [exact (ip_buf_after_full _ Hlen) |].
           unfold vh.ip_buf_after in Hlen. apply Forall_app in Hlen as [Hlen _]. exact Hlen.
      * exists node, stored. split; [reflexivity |]. split; [exact Hdns |].
        split; [intros [? | ?]; [lia | contradiction] |]. intros p _ _ [=].
      * right. reflexivity.
  - exists node, stored. split; [reflexivity |]. split; [exact Hdns |].
    split; [reflexivity |]. intros p Hz. contradiction.
Qed.

Lemma getaddrinfo_writes_only_on_success_witness :
  exists mem' n,
    vh.h801 flat_accessors (vh.Emscripten demo_host)
      (vh.mkMachine [4096; 0; 0; 8192; 0; 0; 0; 801] (fun _ => Byte.xff))
    = vh.set_result 0 mem' /\
    (n < 64)%nat /\
    (forall i, (i < n)%nat -> mem' (8192 + Z.of_nat i) <> Byte.x00) /\
    mem' (8192 + Z.of_nat n) = Byte.x00 /\
    (forall x, ~ 8192 <= x <= 8192 + Z.of_nat n -> mem' x = Byte.xff).
Proof.
  pose proof (getaddrinfo_writes_only_on_success flat_accessors demo_host
                (vh.mkMachine [4096; 0; 0; 8192; 0; 0; 0; 801] (fun _ => Byte.xff))) as H.
  assert (Hrun : vh.h801 flat_accessors (vh.Emscripten demo_host)
                   (vh.mkMachine [4096; 0; 0; 8192; 0; 0; 0; 801] (fun _ => Byte.xff))
                 = vh.set_result 0
                     (vh.host_memcpy 8192
                        [Byte.x31; Byte.x2e; Byte.x32; Byte.x2e; Byte.x33; Byte.x2e; Byte.x34;
                         Byte.x00]
                        (fun _ => Byte.xff)))
    by reflexivity.
  rewrite Hrun in H. destruct H as (node & stored & _ & _ & _ & Hwrite).
  destruct (Hwrite 8192 eq_refl ltac:(vm_compute; discriminate) eq_refl)
    as (n & Hn & Hbefore & Hnul & Hout).
  eexists. exists n. split; [exact Hrun |]. split; [exact Hn |].
  split; [intros i Hi; apply (Hbefore i Hi) |]. split; [exact Hnul | exact Hout].
Defined.
(** * The loader on arbitrary input *)

Lemma bind_inv {A B : Type} (c : prog A) (f : A -> prog B) (w w' : World) (res : result B) :
  (c ≫= f) w = (res, w') ->
  match c w with
  | (Ok a, w1) => f a w1 = (res, w')
  | (Throw x, w1) => res = Throw x /\ w' = w1
  | (OutOfBounds, w1) => res = OutOfBounds /\ w' = w1
  end.
Proof.
  unfold mbind, prog_bind. destruct (c w) as [[a | x |] w1]; intros H.
  - exact H.
  - injection H as <- <-. split; reflexivity.
  - injection H as <- <-. split; reflexivity.
Qed.

Section Parsing.

Variable O : Prop.
Variable E : exn -> Prop.
Variable R : World -> World -> Prop.
Hypothesis E_eof : E unexpected_EOF.
Hypothesis R_refl : forall w, R w w.
Hypothesis R_trans : forall w1 w2 w3, R w1 w2 -> R w2 w3 -> R w1 w3.
(** [R] does not look at the reader. *)
Hypothesis R_reader : forall w bs, R w (mkWorld bs (live w) (stderr w)).

Lemma parses_ret {A : Type} (a : A) : parses O E R 0 (fun x => x = a) (mret a).
Proof.
  intros w res w' [= <- <-]. split; [apply R_refl |]. split; [reflexivity | lia].
Qed.

Lemma parses_bind {A B : Type} (k1 k2 : nat) (Q1 : A -> Prop) (Q2 : B -> Prop)
  (c : prog A) (f : A -> prog B) :
  parses O E R k1 Q1 c ->
  (forall a, Q1 a -> parses O E R k2 Q2 (f a)) ->
  parses O E R (k1 + k2) Q2 (c ≫= f).
Proof.
  intros Hc Hf w res w' Hrun. apply bind_inv in Hrun.
  destruct (c w) as [[a | x |] w1] eqn:Hcw; specialize (Hc _ _ _ Hcw).
  - destruct Hc as (HR1 & HQ1 & Hk1).
    destruct (Hf a HQ1 _ _ _ Hrun) as (HR2 & Hres).
    split; [eapply R_trans; eassumption |].
    destruct res as [b | x |]; [| exact Hres | exact Hres].
    destruct Hres as (HQ2 & Hk2). split; [exact HQ2 | lia].
  - destruct Hrun as [-> ->]. exact Hc.
  - destruct Hrun as [-> ->]. exact Hc.
Qed.

Lemma parses_weaken {A : Type} (k k' : nat) (Q Q' : A -> Prop) (c : prog A) :
  parses O E R k Q c -> (k' <= k)%nat -> (forall a, Q a -> Q' a) ->
  parses O E R k' Q' c.
Proof.
  intros Hc Hk HQ w res w' Hrun. destruct (Hc _ _ _ Hrun) as (HR & Hres).
  split; [exact HR |]. destruct res as [a | x |]; [| exact Hres | exact Hres].
  destruct Hres as (Ha & Hlen). split; [apply HQ; exact Ha | lia].
Qed.

(** [read_into] leaves its buffers only for a length of 2^63 or more. *)
Lemma parses_read_into (len : Z) :
  (2 ^ 63 <= len -> O) ->
  parses O E R (Z.to_nat len) (fun bs => Z.of_nat (length bs) = Z.max 0 len) (read_into len).
Proof.
  intros HO w res w'. unfold read_into.
  destruct (Z.ltb_spec (Z.of_nat (length (r w))) len) as [Hlt | Hge].
  - destruct (Z.ltb_spec len (2 ^ 63)) as [Hsmall | Hbig]; intros [= <- <-].
    + split; [apply R_refl | exact E_eof].
    + split; [apply R_refl | exact (HO Hbig)].
  - intros [= <- <-]. split; [apply R_reader |].
    cbn [r]. unfold slice. rewrite length_take, !length_drop.
    change (Z.to_nat 0) with 0%nat. rewrite Nat.sub_0_r. split; lia.
Qed.

Lemma parses_read_bytes (n : Z) :
  parses O E R (Z.to_nat n) (fun bs => Z.of_nat (length bs) = Z.max 0 n) (read_bytes n).
Proof.
  intros w res w'. unfold read_bytes.
  destruct (Z.ltb_spec (Z.of_nat (length (r w))) n) as [Hlt | Hge].
  - intros [= <- <-]. split; [apply R_refl | exact E_eof].
  - intros [= <- <-]. split; [apply R_reader |].
    cbn [r]. unfold slice. rewrite length_take, !length_drop.
    change (Z.to_nat 0) with 0%nat. rewrite Nat.sub_0_r. split; lia.
Qed.

Lemma parses_read_val (n : nat) :
  parses O E R n (fun v => 0 <= v < 2 ^ (8 * Z.of_nat n)) (read_val n).
Proof.
  unfold read_val.
  apply (parses_weaken (Z.to_nat (Z.of_nat n) + 0) n
           (fun v => 0 <= v < 2 ^ (8 * Z.of_nat n)) _).
  - eapply parses_bind; [apply parses_read_bytes |]. intros bs Hbs. cbv beta in Hbs.
    eapply parses_weaken; [apply (parses_ret (le_combine bs)) | apply Nat.le_refl |].
    intros v ->.
    pose proof (le_combine_bound bs) as Hb.
    replace (8 * Z.of_nat n) with (8 * Z.of_nat (length bs)) by lia. exact Hb.
  - rewrite Nat2Z.id. lia.
  - intros v Hv. exact Hv.
Qed.

Lemma parses_read_i32 : parses O E R 4 is_i32 read_i32.
Proof.
  unfold read_i32.
  apply (parses_weaken (4 + 0) 4 is_i32 _).
  - eapply parses_bind; [apply parses_read_val |]. intros v Hv. cbv beta in Hv.
    eapply parses_weaken; [apply (parses_ret (to_i32 v)) | apply Nat.le_refl |].
    intros x ->. unfold is_i32, to_i32.
    pose proof (Z.mod_pos_bound v (2 ^ 32) ltac:(lia)) as Hm.
    destruct (v mod 2 ^ 32 <? 2 ^ 31) eqn:Hlt; lia.
  - lia.
  - intros v Hv. exact Hv.
Qed.

Lemma parses_any {A : Type} (k k' : nat) (Q : A -> Prop) (c : prog A) :
  parses O E R k Q c -> (k' <= k)%nat -> parses O E R k' (fun _ => True) c.
Proof. intros Hc Hk. eapply parses_weaken; [exact Hc | exact Hk | intros; exact I]. Qed.

Lemma parses_ret_any {A : Type} (a : A) : parses O E R 0 (fun _ => True) (mret a).
Proof. eapply parses_any; [apply parses_ret | lia]. Qed.

Lemma parses_read_val_any (n : nat) : parses O E R n (fun _ => True) (read_val n).
Proof. eapply parses_any; [apply parses_read_val | lia]. Qed.

Lemma parses_read_i32_any : parses O E R 4 (fun _ => True) read_i32.
Proof. eapply parses_any; [apply parses_read_i32 | lia]. Qed.

Lemma parses_read_array (n w : nat) :
  parses O E R (n * w) (fun _ => True) (read_array n w).
Proof.
  induction n as [| n IH]; cbn [read_array].
  - apply parses_ret_any.
  - apply (parses_any (w + (n * w + 0)) _ (fun _ => True)); [| lia].
    eapply parses_bind; [apply parses_read_val_any |]. intros v _.
    eapply parses_bind; [apply IH |]. intros vs _. apply parses_ret_any.
Qed.

Lemma parses_fprintf (d : diag) :
  (forall w, R w (mkWorld (r w) (live w) (stderr w ++ [d]))) ->
  parses O E R 0 (fun _ => True) (fprintf d).
Proof.
  intros Hd w res w' [= <- <-]. split; [apply Hd |]. cbn [r]. split; [exact I | lia].
Qed.

Lemma parses_get_live : parses O E R 0 (fun _ => True) get_live.
Proof.
  intros w res w' [= <- <-]. split; [apply R_refl |]. split; [exact I | lia].
Qed.

Lemma parses_set_sys (f : Syscalls -> Syscalls) :
  (forall w, R w (mkWorld (r w) (mkState (cpu (live w)) (memory (live w)) (f (sys (live w))))
                    (stderr w))) ->
  parses O E R 0 (fun _ => True) (set_sys f).
Proof.
  intros Hf w res w' [= <- <-]. split; [apply Hf |]. cbn [r]. split; [exact I | lia].
Qed.

Lemma parses_set_memory (f : Memory -> Memory) :
  (forall w, R w (mkWorld (r w) (mkState (cpu (live w)) (f (memory (live w))) (sys (live w)))
                    (stderr w))) ->
  parses O E R 0 (fun _ => True) (set_memory f).
Proof.
  intros Hf w res w' [= <- <-]. split; [apply Hf |]. cbn [r]. split; [exact I | lia].
Qed.

Lemma parses_remaining : parses O E R 0 (fun _ => True) remaining.
Proof.
  intros w res w' [= <- <-]. split; [apply R_refl |]. split; [exact I | lia].
Qed.

Lemma parses_skip (len : Z) : parses O E R 0 (fun _ => True) (skip len).
Proof.
  intros w res w' [= <- <-]. split; [apply R_reader |]. cbn [r].
  rewrite length_drop. split; [exact I | lia].
Qed.

End Parsing.
Lemma parses_throw {A : Type} (O : Prop) (E : exn -> Prop) (R : World -> World -> Prop)
  (k : nat) (Q : A -> Prop) (x : exn) :
  (forall w, R w w) -> E x -> parses O E R k Q (throw x : prog A).
Proof. intros HR Hx w res w' [= <- <-]. split; [apply HR | exact Hx]. Qed.

Lemma load_exn_eof : load_exn unexpected_EOF.
Proof. left. reflexivity. Qed.

Lemma untouched_refl (w : World) : untouched w w.
Proof. split; reflexivity. Qed.

Lemma untouched_trans (w1 w2 w3 : World) :
  untouched w1 w2 -> untouched w2 w3 -> untouched w1 w3.
Proof. intros [H1 H2] [H3 H4]. split; congruence. Qed.

Lemma untouched_reader (w : World) (bs : list byte) :
  untouched w (mkWorld bs (live w) (stderr w)).
Proof. split; reflexivity. Qed.

Lemma framed_refl (w : World) : framed w w.
Proof. unfold framed, load_frame. repeat split; reflexivity. Qed.

Lemma framed_trans (w1 w2 w3 : World) : framed w1 w2 -> framed w2 w3 -> framed w1 w3.
Proof.
  unfold framed, load_frame.
  intros (A1 & A2 & A3 & A4 & A5 & A6 & A7) (B1 & B2 & B3 & B4 & B5 & B6 & B7).
  repeat split; congruence.
Qed.

Lemma framed_reader (w : World) (bs : list byte) :
  framed w (mkWorld bs (live w) (stderr w)).
Proof. unfold framed. cbn [live]. unfold load_frame. repeat split; reflexivity. Qed.

Lemma blob_exn_eof : blob_exn unexpected_EOF.
Proof. left. exact load_exn_eof. Qed.

Lemma blob_exn_length : blob_exn length_error.
Proof. right. reflexivity. Qed.

Lemma framed_diag (w : World) (d : diag) :
  framed w (mkWorld (r w) (live w) (stderr w ++ [d])).
Proof. unfold framed. cbn [live]. unfold load_frame. repeat split; reflexivity. Qed.

Lemma framed_epoll (w : World) (f : gmap Z EpollInstance -> gmap Z EpollInstance) :
  framed w (mkWorld (r w)
              (mkState (cpu (live w)) (memory (live w))
                 (with_epoll_instances f (sys (live w)))) (stderr w)).
Proof. unfold framed, load_frame; cbn. repeat split; reflexivity. Qed.

Lemma framed_eventfd (w : World) (f : gmap Z Z -> gmap Z Z) :
  framed w (mkWorld (r w)
              (mkState (cpu (live w)) (memory (live w))
                 (with_eventfd_counters f (sys (live w)))) (stderr w)).
Proof. unfold framed, load_frame; cbn. repeat split; reflexivity. Qed.

Lemma maps_only_refl (w : World) : maps_only w w.
Proof. unfold maps_only, sections_untouched. repeat split; reflexivity. Qed.

Lemma maps_only_trans (w1 w2 w3 : World) :
  maps_only w1 w2 -> maps_only w2 w3 -> maps_only w1 w3.
Proof.
  unfold maps_only, sections_untouched.
  intros ((A1 & A2 & A3 & A4) & A5 & A6 & A7) ((B1 & B2 & B3 & B4) & B5 & B6 & B7).
  repeat split; congruence.
Qed.

Lemma maps_only_reader (w : World) (bs : list byte) :
  maps_only w (mkWorld bs (live w) (stderr w)).
Proof. unfold maps_only, sections_untouched. cbn [live]. repeat split; reflexivity. Qed.

Lemma maps_only_diag (w : World) (d : diag) :
  maps_only w (mkWorld (r w) (live w) (stderr w ++ [d])).
Proof. unfold maps_only, sections_untouched. cbn [live]. repeat split; reflexivity. Qed.

Lemma maps_only_epoll (w : World) (f : gmap Z EpollInstance -> gmap Z EpollInstance) :
  maps_only w (mkWorld (r w)
                 (mkState (cpu (live w)) (memory (live w))
                    (with_epoll_instances f (sys (live w)))) (stderr w)).
Proof. unfold maps_only, sections_untouched; cbn. repeat split; reflexivity. Qed.

Lemma maps_only_eventfd (w : World) (f : gmap Z Z -> gmap Z Z) :
  maps_only w (mkWorld (r w)
                 (mkState (cpu (live w)) (memory (live w))
                    (with_eventfd_counters f (sys (live w)))) (stderr w)).
Proof. unfold maps_only, sections_untouched; cbn. repeat split; reflexivity. Qed.

Lemma eventfd_only_refl (w : World) : eventfd_only w w.
Proof. split; [apply maps_only_refl | reflexivity]. Qed.

Lemma eventfd_only_trans (w1 w2 w3 : World) :
  eventfd_only w1 w2 -> eventfd_only w2 w3 -> eventfd_only w1 w3.
Proof.
  intros [A1 A2] [B1 B2]. split; [eapply maps_only_trans; eassumption | congruence].
Qed.

Lemma eventfd_only_reader (w : World) (bs : list byte) :
  eventfd_only w (mkWorld bs (live w) (stderr w)).
Proof. split; [apply maps_only_reader | reflexivity]. Qed.

Lemma eventfd_only_diag (w : World) (d : diag) :
  eventfd_only w (mkWorld (r w) (live w) (stderr w ++ [d])).
Proof. split; [apply maps_only_diag | reflexivity]. Qed.

Lemma eventfd_only_eventfd (w : World) (f : gmap Z Z -> gmap Z Z) :
  eventfd_only w (mkWorld (r w)
                    (mkState (cpu (live w)) (memory (live w))
                       (with_eventfd_counters f (sys (live w)))) (stderr w)).
Proof. split; [apply maps_only_eventfd | reflexivity]. Qed.

Lemma same_live_refl (w : World) : same_live w w.
Proof. reflexivity. Qed.

Lemma same_live_trans (w1 w2 w3 : World) :
  same_live w1 w2 -> same_live w2 w3 -> same_live w1 w3.
Proof. unfold same_live. congruence. Qed.

Lemma same_live_reader (w : World) (bs : list byte) :
  same_live w (mkWorld bs (live w) (stderr w)).
Proof. reflexivity. Qed.

Ltac parse_side :=
  solve [ assumption
        | exact I
        | exact load_exn_eof | exact blob_exn_eof | exact blob_exn_length
        | exact untouched_refl | exact untouched_trans | exact untouched_reader
        | exact framed_refl | exact framed_trans | exact framed_reader
        | exact framed_diag | exact framed_epoll | exact framed_eventfd
        | exact maps_only_refl | exact maps_only_trans | exact maps_only_reader
        | exact maps_only_diag | exact maps_only_epoll | exact maps_only_eventfd
        | exact eventfd_only_refl | exact eventfd_only_trans | exact eventfd_only_reader
        | exact eventfd_only_diag | exact eventfd_only_eventfd
        | exact same_live_refl | exact same_live_trans | exact same_live_reader ].

Ltac parse_with lem := eapply lem; try parse_side.

Lemma untouched_framed (w w' : World) : untouched w w' -> framed w w'.
Proof.
  intros [H _]. unfold framed. rewrite H. unfold load_frame. repeat split; reflexivity.
Qed.

(** The header on any input. *)
Lemma load_header_parses :
  parses False load_exn untouched 16 (fun _ => True) load_header.
Proof.
  unfold load_header.
  eapply parses_any with (k := (Z.to_nat 8 + (4 + (4 + 0)))%nat); [| lia].
  parse_with parses_bind; [parse_with parses_read_into; lia |].
  intros magic _.
  destruct (negb (bool_decide (magic = MAGIC))).
  { apply parses_throw; [exact untouched_refl | right; left; reflexivity]. }
  parse_with parses_bind; [parse_with parses_read_val_any |].
  intros version _.
  destruct (negb (version =? VERSION)) eqn:Hv.
  { apply parses_throw; [exact untouched_refl |]. right; right. exists version.
    split; [reflexivity |]. rewrite negb_true_iff in Hv. lia. }
  parse_with parses_bind; [parse_with parses_read_val_any |].
  intros _ _.
  parse_with parses_ret_any.
Qed.
Lemma parses_mono {A : Type} (O O' : Prop) (E E' : exn -> Prop)
  (R R' : World -> World -> Prop) (k : nat) (Q : A -> Prop) (c : prog A) :
  parses O E R k Q c -> (O -> O') -> (forall x, E x -> E' x) ->
  (forall w w', R w w' -> R' w w') -> parses O' E' R' k Q c.
Proof.
  intros Hc HO HE HR w res w' Hrun. destruct (Hc _ _ _ Hrun) as (H1 & H2).
  split; [apply HR; exact H1 |]. destruct res; auto.
Qed.

Ltac parse_atom :=
  lazymatch goal with
  | |- parses _ _ _ _ _ (read_val _) => parse_with parses_read_val_any
  | |- parses _ _ _ _ _ read_i32 => parse_with parses_read_i32_any
  | |- parses _ _ _ _ _ (read_array _ _) => parse_with parses_read_array
  | |- parses _ _ _ _ _ (mret _) => parse_with parses_ret_any
  | |- parses _ _ _ _ _ get_live => parse_with parses_get_live
  | |- parses _ _ _ _ _ remaining => parse_with parses_remaining
  | |- parses _ _ _ _ _ (skip _) => parse_with parses_skip
  end.

Ltac parse_steps :=
  repeat lazymatch goal with
         | |- parses _ _ _ _ _ (_ ≫= _) =>
             parse_with parses_bind; [parse_atom | intros ? _]
         | |- parses _ _ _ _ _ _ => parse_atom
         end.

(** The fixed-size fields on any input. *)
Lemma load_locals_parses :
  parses False load_exn untouched 640 (fun _ => True) load_locals.
Proof.
  unfold load_locals.
  eapply parses_any; [parse_steps | cbn; lia].
Qed.

Ltac frame_step :=
  intros ?; unfold framed, load_frame; cbn; repeat split; reflexivity.

(** The scheduler block and the two counters on any input. *)
Lemma load_sched_parses (w w' : World) (res : result unit) :
  load_sched w = (res, w') ->
  framed w w' /\
  match res with
  | Ok _ => (length (g_sched (sys (live w))) + 8 + length (r w') <= length (r w))%nat
  | Throw x => x = unexpected_EOF
  | OutOfBounds => 2 ^ 63 <= Z.of_nat (length (g_sched (sys (live w))))
  end.
Proof.
  unfold load_sched, read_i32, read_val, read_into, read_bytes, set_sys, get_live, mbind,
    prog_bind, mret, prog_ret.
  intros H. cbn [r live stderr sys cpu memory] in H.
  assert (Hslice : length (slice (r w) 0 (Z.of_nat (length (g_sched (sys (live w))))))
                   = Nat.min (length (g_sched (sys (live w)))) (length (r w))).
  { unfold slice. rewrite length_take, length_drop, Nat2Z.id.
    change (Z.to_nat 0) with 0%nat. rewrite Nat.sub_0_r. reflexivity. }
  repeat match type of H with
         | context [if ?c then _ else _] =>
             destruct c eqn:?; cbn [r live stderr sys cpu memory] in H
         end;
    injection H as <- <-;
    cbn [r live stderr sys cpu memory] in *;
    (split;
     [ unfold framed, load_frame; cbn; repeat split; try reflexivity; rewrite Hslice; lia
     | first [ reflexivity
             | rewrite ?length_drop, ?Nat2Z.id in *;
               repeat match goal with
                      | Hc : (_ <? _) = false |- _ => apply Z.ltb_ge in Hc
                      end; lia ] ]).
Qed.

(** The sections behind the scheduler block, on any input, for a relation
    [R] that they respect. *)
Section Maps.

Variable O : Prop.
Variable E : exn -> Prop.
Variable R : World -> World -> Prop.
Hypothesis E_eof : E unexpected_EOF.
Hypothesis E_length : E length_error.
Hypothesis R_refl : forall w, R w w.
Hypothesis R_trans : forall w1 w2 w3, R w1 w2 -> R w2 w3 -> R w1 w3.
Hypothesis R_reader : forall w bs, R w (mkWorld bs (live w) (stderr w)).
Hypothesis R_diag : forall w d, R w (mkWorld (r w) (live w) (stderr w ++ [d])).
Hypothesis R_epoll : forall w f,
  R w (mkWorld (r w)
         (mkState (cpu (live w)) (memory (live w)) (with_epoll_instances f (sys (live w))))
         (stderr w)).
Hypothesis R_eventfd : forall w f,
  R w (mkWorld (r w)
         (mkState (cpu (live w)) (memory (live w)) (with_eventfd_counters f (sys (live w))))
         (stderr w)).

Lemma load_interests_parses (n : nat) (epfd : Z) :
  parses O E R 0 (fun _ => True) (load_interests n epfd).
Proof.
  induction n as [| n IH]; cbn [load_interests].
  - parse_with parses_ret_any.
  - eapply parses_any; [| apply Nat.le_0_l].
    parse_with parses_bind; [parse_atom | intros fd _].
    parse_with parses_bind; [parse_atom | intros ev _].
    parse_with parses_bind; [parse_atom | intros da _].
    parse_with parses_bind; [parse_with parses_set_sys; intros; apply R_epoll | intros _ _].
    exact IH.
Qed.

Lemma load_instances_parses (n : nat) :
  parses O E R 0 (fun _ => True) (load_instances n).
Proof.
  induction n as [| n IH]; cbn [load_instances].
  - parse_with parses_ret_any.
  - eapply parses_any; [| apply Nat.le_0_l].
    parse_with parses_bind; [parse_atom | intros epfd _].
    parse_with parses_bind; [parse_atom | intros ni _].
    parse_with parses_bind; [parse_with parses_set_sys; intros; apply R_epoll | intros _ _].
    parse_with parses_bind; [apply load_interests_parses | intros _ _].
    exact IH.
Qed.

Lemma load_epoll_parses : parses O E R 4 (fun _ => True) load_epoll.
Proof.
  unfold load_epoll.
  eapply parses_any with (k := (4 + (0 + (0 + 0)))%nat); [| lia].
  parse_with parses_bind; [parse_atom | intros n _].
  parse_with parses_bind; [parse_with parses_set_sys; intros; apply R_epoll | intros _ _].
  parse_with parses_bind; [apply load_instances_parses | intros _ _].
  parse_with parses_fprintf. intros; apply R_diag.
Qed.

Lemma load_counters_parses (n : nat) :
  parses O E R 0 (fun _ => True) (load_counters n).
Proof.
  induction n as [| n IH]; cbn [load_counters].
  - parse_with parses_ret_any.
  - eapply parses_any; [| apply Nat.le_0_l].
    parse_with parses_bind; [parse_atom | intros fd _].
    parse_with parses_bind; [parse_atom | intros cn _].
    parse_with parses_bind; [parse_with parses_set_sys; intros; apply R_eventfd | intros _ _].
    exact IH.
Qed.

Lemma load_eventfd_parses : parses O E R 4 (fun _ => True) load_eventfd.
Proof.
  unfold load_eventfd.
  eapply parses_any with (k := (4 + (0 + (0 + 0)))%nat); [| lia].
  parse_with parses_bind; [parse_atom | intros n _].
  parse_with parses_bind; [parse_with parses_set_sys; intros; apply R_eventfd | intros _ _].
  parse_with parses_bind; [apply load_counters_parses | intros _ _].
  parse_with parses_fprintf. intros; apply R_diag.
Qed.

Lemma alloc_exec_pages_parses (n : Z) :
  parses O E R 0 (fun _ => True) (alloc_exec_pages n).
Proof.
  unfold alloc_exec_pages.
  eapply parses_any; [| apply Nat.le_0_l].
  parse_with parses_bind; [parse_atom | intros rem _].
  destruct ((n >? max_size) && (rem <? 8 * n)).
  - apply parses_throw; [exact R_refl | exact E_length].
  - parse_with parses_ret_any.
Qed.

Lemma load_exec_pages_parses : parses O E R 8 (fun _ => True) load_exec_pages.
Proof.
  unfold load_exec_pages.
  eapply parses_any with (k := (8 + (0 + 0))%nat); [| lia].
  parse_with parses_bind; [parse_atom | intros n _].
  parse_with parses_bind; [apply alloc_exec_pages_parses | intros _ _].
  eapply parses_any; [parse_with parses_read_array | apply Nat.le_0_l].
Qed.

End Maps.

Lemma memcpy_arena_parses (guest_addr : Z) (bs : list byte) :
  0 <= guest_addr ->
  parses True load_exn framed 0 (fun _ => True) (memcpy_arena guest_addr bs).
Proof.
  intros Hga w res w'. unfold memcpy_arena, set_memory, out_of_bounds.
  destruct (Z.leb_spec (guest_addr + Z.of_nat (length bs))
              (Z.of_nat (length (arena (memory (live w)))))) as [Hfit | Hno];
    intros [= <- <-].
  - split; [| split; [exact I | cbn [r]; lia]].
    unfold framed, load_frame; cbn. repeat split; try reflexivity.
    rewrite !length_app, length_take, length_drop. lia.
  - split; [apply framed_refl | exact I].
Qed.

Ltac parse_any := eapply parses_any; [| apply Nat.le_0_l].

Lemma load_chunks_parses (fuel : nat) (cr td : Z) :
  parses True load_exn framed 0 (fun _ => True) (load_chunks fuel cr td).
Proof.
  revert cr td. induction fuel as [| fuel IH]; intros cr td; cbn [load_chunks].
  - parse_with parses_ret_any.
  - parse_any.
    parse_with parses_bind; [parse_atom | intros rem _].
    destruct (rem <? 16); [parse_any; parse_with parses_ret_any |].
    parse_any.
    parse_with parses_bind; [parse_with parses_read_val | intros guest_addr Hga].
    parse_with parses_bind; [parse_atom | intros len _].
    destruct (guest_addr =? SENTINEL_ADDR); [parse_any; parse_with parses_ret_any |].
    parse_any.
    parse_with parses_bind; [parse_atom | intros s _].
    destruct (to_u64 (guest_addr + len) >? Z.of_nat (length (arena (memory s)))).
    + parse_any.
      parse_with parses_bind; [parse_with parses_fprintf; try frame_step | intros _ _].
      parse_with parses_bind; [parse_atom | intros rem' _].
      parse_with parses_bind; [| intros _ _; apply IH].
      destruct (len <=? rem'); parse_any; parse_atom.
    + parse_any.
      parse_with parses_bind;
        [parse_any; parse_with parses_read_into; intros; exact I | intros bs _].
      parse_with parses_bind; [apply memcpy_arena_parses; cbv beta in Hga; lia | intros _ _].
      apply IH.
Qed.

Lemma load_arena_parses : parses True load_exn framed 0 (fun _ => True) load_arena.
Proof.
  unfold load_arena.
  eapply parses_any; [| apply Nat.le_0_l].
  parse_with parses_bind; [parse_with parses_set_memory; try frame_step | intros _ _].
  parse_with parses_bind; [parse_with parses_set_memory | intros _ _].
  { intros w. unfold framed, load_frame; cbn. repeat split; try reflexivity.
    apply zeros_length. }
  parse_with parses_bind; [parse_atom | intros rem _].
  apply load_chunks_parses.
Qed.
(** ** The fixed-size part, read at its offsets *)

Lemma read_into_at (data : list byte) (k n : nat) (st : State) (e : list diag) :
  (k + n <= length data)%nat ->
  read_into (Z.of_nat n) (mkWorld (drop k data) st e)
  = (Ok (take n (drop k data)), mkWorld (drop (k + n) data) st e).
Proof.
  intros Hlen. unfold read_into. cbn [r live stderr].
  destruct (Z.ltb_spec (Z.of_nat (length (drop k data))) (Z.of_nat n)) as [Hlt | _].
  { rewrite length_drop in Hlt. lia. }
  unfold slice. change (Z.to_nat 0) with 0%nat. rewrite drop_0, Nat2Z.id, drop_drop.
  reflexivity.
Qed.

Lemma read_bytes_at (data : list byte) (k n : nat) (st : State) (e : list diag) :
  (k + n <= length data)%nat ->
  read_bytes (Z.of_nat n) (mkWorld (drop k data) st e)
  = (Ok (take n (drop k data)), mkWorld (drop (k + n) data) st e).
Proof.
  intros Hlen. unfold read_bytes. cbn [r live stderr].
  destruct (Z.ltb_spec (Z.of_nat (length (drop k data))) (Z.of_nat n)) as [Hlt | _].
  { rewrite length_drop in Hlt. lia. }
  unfold slice. change (Z.to_nat 0) with 0%nat. rewrite drop_0, Nat2Z.id, drop_drop.
  reflexivity.
Qed.

Lemma read_val_at (data : list byte) (k n : nat) (st : State) (e : list diag) :
  (k + n <= length data)%nat ->
  read_val n (mkWorld (drop k data) st e)
  = (Ok (le_combine (take n (drop k data))), mkWorld (drop (k + n) data) st e).
Proof.
  intros Hlen. unfold read_val.
  erewrite bind_ok by (apply read_bytes_at; exact Hlen). reflexivity.
Qed.

Lemma read_array_at (data : list byte) (n w : nat) (st : State) (e : list diag) :
  forall k : nat,
  (k + n * w <= length data)%nat ->
  read_array n w (mkWorld (drop k data) st e)
  = (Ok (map (fun i => le_combine (take w (drop (k + w * i) data))) (seq 0 n)),
     mkWorld (drop (k + n * w) data) st e).
Proof.
  induction n as [| n IH]; intros k Hlen; cbn [read_array].
  - cbn [seq map]. rewrite Nat.mul_0_l, Nat.add_0_r. reflexivity.
  - erewrite bind_ok by (apply read_val_at; lia).
    erewrite bind_ok by (apply IH; lia).
    cbn [seq map]. rewrite Nat.mul_0_r, Nat.add_0_r.
    rewrite <- seq_shift, map_map.
    replace (k + w + n * w)%nat with (k + S n * w)%nat by lia.
    unfold mret, prog_ret. do 3 f_equal.
    apply map_ext. intros i. do 3 f_equal. lia.
Qed.

Lemma load_header_ok (data : list byte) (st : State) (e : list diag) (w' : World) :
  load_header (mkWorld data st e) = (Ok tt, w') ->
  (16 <= length data)%nat /\ take 8 data = MAGIC /\
  le_combine (take 4 (drop 8 data)) = VERSION /\
  w' = mkWorld (drop 16 data) st e.
Proof.
  intros Hrun.
  destruct (load_header_parses _ _ _ Hrun) as (_ & _ & Hlen). cbn [r] in Hlen.
  assert (H16 : (16 <= length data)%nat) by lia.
  split; [exact H16 |].
  revert Hrun. unfold load_header.
  rewrite <- (drop_0 data) at 1.
  erewrite bind_ok by (apply (read_into_at data 0 8); lia).
  rewrite drop_0.
  destruct (bool_decide (take 8 data = MAGIC)) eqn:Hmagic; cbn [negb]; [| discriminate].
  apply bool_decide_eq_true in Hmagic.
  erewrite bind_ok by (apply (read_val_at data 8 4); lia).
  destruct (le_combine (take 4 (drop 8 data)) =? VERSION) eqn:Hver; cbn [negb];
    [| discriminate].
  erewrite bind_ok by (apply (read_val_at data 12 4); lia).
  intros [= <-]. repeat split; [exact Hmagic | lia].
Qed.

Lemma load_locals_at (data : list byte) (st : State) (e : list diag) :
  (656 <= length data)%nat ->
  load_locals (mkWorld (drop 16 data) st e)
  = (Ok (locals_at data), mkWorld (drop 656 data) st e).
Proof.
  intros Hlen. unfold load_locals.
  repeat first
    [ erewrite bind_ok by (apply read_val_at; cbn; lia)
    | erewrite bind_ok by (apply read_array_at; cbn; lia) ].
  reflexivity.
Qed.
Ltac bind_ok_inv H a w1 Hc :=
  apply bind_inv in H;
  match type of H with
  | match ?cw with _ => _ end =>
      destruct cw as [[a | ? |] w1] eqn:Hc;
      [ | destruct H as [? _]; discriminate | destruct H as [? _]; discriminate ]
  end.

Lemma load_sched_parses8 : parses True blob_exn framed 8 (fun _ => True) load_sched.
Proof.
  intros w res w' Hrun. destruct (load_sched_parses _ _ _ Hrun) as (HR & Hres).
  split; [exact HR |]. destruct res as [[] | x |].
  - split; [exact I | lia].
  - subst x. exact blob_exn_eof.
  - exact I.
Qed.

(** Everything in front of the chunk stream, on any input. *)
Lemma load_sections_parses :
  parses True blob_exn framed 680 (fun _ => True) load_sections.
Proof.
  unfold load_sections.
  eapply parses_any with (k := (16 + (640 + (8 + (4 + (4 + (8 + 0))))))%nat); [| lia].
  parse_with parses_bind.
  { eapply parses_mono; [apply load_header_parses | tauto | intros x Hx; left; exact Hx
                        | apply untouched_framed]. }
  intros _ _.
  parse_with parses_bind.
  { eapply parses_mono; [apply load_locals_parses | tauto | intros x Hx; left; exact Hx
                        | apply untouched_framed]. }
  intros l _.
  parse_with parses_bind; [apply load_sched_parses8 | intros _ _].
  parse_with parses_bind; [parse_with load_epoll_parses | intros _ _].
  parse_with parses_bind; [parse_with load_eventfd_parses | intros _ _].
  parse_with parses_bind; [parse_with load_exec_pages_parses | intros ep _].
  parse_with parses_ret_any.
Qed.

Lemma load_until_arena_parses :
  parses True blob_exn framed 680 (fun _ => True) load_until_arena.
Proof.
  unfold load_until_arena.
  eapply parses_any with (k := (680 + (0 + 0))%nat); [| lia].
  parse_with parses_bind; [apply load_sections_parses | intros le _].
  parse_with parses_bind.
  { eapply parses_mono; [apply load_arena_parses | auto | intros x Hx; left; exact Hx
                        | auto]. }
  intros c _.
  parse_with parses_ret_any.
Qed.

Lemma load_throws_early (w w' : World) (x : exn) :
  load_sections w = (Throw x, w') -> load_checkpoint w = (Throw x, w').
Proof.
  intros H. unfold load_checkpoint, load_until_arena.
  erewrite bind_throw; [reflexivity |].
  erewrite bind_throw; [reflexivity | exact H].
Qed.

(** X7.  Any input shorter than 656 bytes (header and fixed-size fields)
    is rejected, whatever it holds: [load_checkpoint] raises "unexpected
    EOF", "bad magic" or "unsupported version", the machine and the
    globals are exactly as before and nothing has been printed. *)
Theorem short_blob_rejected_untouched (data : list byte) (t : State) :
  (length data < 656)%nat ->
  exists x w',
    load_checkpoint (start data t) = (Throw x, w') /\
    live w' = t /\ stderr w' = [] /\ load_exn x.
Proof.
  intros Hshort.
  destruct (load_header (start data t)) as [[[] | x |] wh] eqn:Hh.
  - destruct (load_header_parses _ _ _ Hh) as ((Hl & He) & _ & Hlen).
    cbn [start r live stderr] in Hl, He, Hlen.
    destruct (load_locals wh) as [[l | x |] wl] eqn:Hloc.
    + destruct (load_locals_parses _ _ _ Hloc) as (_ & _ & Hlen2). lia.
    + destruct (load_locals_parses _ _ _ Hloc) as ((Hl2 & He2) & Hx).
      exists x, wl. split.
      * apply load_throws_early. unfold load_sections.
        erewrite bind_ok by exact Hh. erewrite bind_throw by exact Hloc. reflexivity.
      * split; [congruence | split; [congruence | exact Hx]].
    + destruct (load_locals_parses _ _ _ Hloc) as (_ & []).
  - destruct (load_header_parses _ _ _ Hh) as ((Hl & He) & Hx).
    exists x, wh. split.
    + apply load_throws_early. unfold load_sections.
      erewrite bind_throw by exact Hh. reflexivity.
    + split; [exact Hl | split; [exact He | exact Hx]].
  - destruct (load_header_parses _ _ _ Hh) as (_ & []).
Qed.

Lemma short_blob_rejected_untouched_witness :
  exists x w',
    load_checkpoint (start (take 100 (save_checkpoint demo_saved)) demo_target)
    = (Throw x, w') /\
    live w' = demo_target /\ stderr w' = [] /\ load_exn x.
Proof.
  apply short_blob_rejected_untouched. rewrite length_take. lia.
Defined.

(** On a blob - fewer than 2^63 bytes - the vector of executable pages
    raises [std::length_error] exactly when the count exceeds
    [max_size()]. *)
Lemma alloc_exec_pages_blob (n : Z) (w : World) :
  Z.of_nat (length (r w)) < 2 ^ 63 ->
  alloc_exec_pages n w
  = if n >? max_size then (Throw length_error, w) else (Ok tt, w).
Proof.
  intros Hw. unfold alloc_exec_pages, remaining, mbind, prog_bind, throw, mret, prog_ret.
  destruct (Z.gtb_spec n max_size) as [Hbig | Hsmall]; cbn [andb]; [| reflexivity].
  destruct (Z.ltb_spec (Z.of_nat (length (r w))) (8 * n)) as [_ | Hge]; [reflexivity |].
  unfold max_size in Hbig. lia.
Qed.

(** X8.  Whatever the input, a [load_checkpoint] that ends in one of
    the exceptions the loader raises itself - "unexpected EOF", "bad
    magic", "unsupported version" with a version other than 2, or the
    [std::length_error] of the vector of executable pages - has not
    reached the restore at its end: the CPU (pc, fcsr, registers), the
    page table, the mmap pointer, the exec context and the resume flag are
    exactly as they were, and the arena and the scheduler block have
    their sizes. *)
Theorem failed_load_leaves_frame (data : list byte) (t : State) (x : exn) (w' : World) :
  load_checkpoint (start data t) = (Throw x, w') ->
  load_frame t (live w') /\ blob_exn x.
Proof.
  intros Hrun. unfold load_checkpoint in Hrun. apply bind_inv in Hrun.
  destruct (load_until_arena (start data t)) as [[a | x0 |] w1] eqn:Hua.
  - destruct (restore_returns (fst (fst a)) (snd (fst a)) (snd a) w1) as (w2 & Hres & _).
    rewrite Hres in Hrun. discriminate.
  - destruct Hrun as [[= ->] ->].
    destruct (load_until_arena_parses _ _ _ Hua) as (HR & Hx).
    split; [exact HR | exact Hx].
  - destruct Hrun as [[=] _].
Qed.

Lemma failed_load_leaves_frame_witness :
  fst (load_checkpoint (start absurd_count_blob demo_target)) = Throw length_error /\
  load_frame demo_target (live (snd (load_checkpoint (start absurd_count_blob demo_target)))) /\
  blob_exn length_error.
Proof.
  split; [vm_compute; reflexivity |].
  apply (failed_load_leaves_frame absurd_count_blob demo_target).
  vm_compute. reflexivity.
Defined.
Lemma restore_run (l : Locals) (exec_pages : list Z) (counters : Z * Z) (w : World) :
  exists e',
    restore l exec_pages counters w
    = (Ok tt,
       mkWorld (r w)
         (mkState
            (restore_cpu l (cpu (live w)))
            (mkMemory (l_mmap_addr l)
               (foldl (fun pg pageno => set_pageno_attr pageno exec_attr pg)
                      (pages (memory (live w))) exec_pages)
               (arena (memory (live w))) (execute_segments (memory (live w))))
            (mkSyscalls (restore_exec_ctx l) (g_sched (sys (live w)))
               (g_next_pid (sys (live w))) (g_next_epoll_fd (sys (live w)))
               (g_epoll_instances (sys (live w))) (g_eventfd_counters (sys (live w)))
               true))
         e').
Proof. eexists. reflexivity. Qed.

(** X9.  What every accepted input guarantees.  If [load_checkpoint]
    completes on [data], then [data] has at least 680 bytes plus the size
    of the scheduler block, starts with the tag and version 2, and the
    machine holds what sits at the fixed offsets of [data]: the pc is the
    64-bit value at byte 16, fcsr the 32-bit value at 24, register [xi]
    the value at [32 + 8i], [fi] the value at [288 + 8i], the mmap
    pointer the value at 544, the exec context the fields from 552 on
    (a flag is set when its byte is not 0).  The resume flag is set, the
    arena and the scheduler block kept their sizes, and a page keeps its
    attributes unless it became read+execute. *)
Theorem accepted_blob_fields (data : list byte) (t : State) (w' : World) :
  load_checkpoint (start data t) = (Ok tt, w') ->
  (680 + length (g_sched (sys t)) <= length data)%nat /\
  slice data 0 8 = MAGIC /\
  le_combine (slice data 8 4) = VERSION /\
  cpu (live w') = restore_cpu (locals_at data) (cpu t) /\
  pc (cpu (live w')) = le_combine (slice data 16 8) /\
  fcsr (cpu (live w')) = le_combine (slice data 24 4) /\
  (length (reg (cpu t)) = 32%nat ->
   reg (cpu (live w')) = map (fun i => le_combine (slice data (32 + 8 * Z.of_nat i) 8)) (seq 0 32)) /\
  (length (fl (cpu t)) = 32%nat ->
   fl (cpu (live w')) = map (fun i => le_combine (slice data (288 + 8 * Z.of_nat i) 8)) (seq 0 32)) /\
  mmap_address (memory (live w')) = le_combine (slice data 544 8) /\
  g_exec_ctx (sys (live w')) = restore_exec_ctx (locals_at data) /\
  g_waiting_for_stdin (sys (live w')) = true /\
  length (arena (memory (live w'))) = length (arena (memory t)) /\
  length (g_sched (sys (live w'))) = length (g_sched (sys t)) /\
  (forall pn a, pages (memory t) !! pn = Some a ->
     pages (memory (live w')) !! pn = Some a \/
     pages (memory (live w')) !! pn = Some exec_attr).
Proof.
  intros Hrun. unfold load_checkpoint in Hrun.
  bind_ok_inv Hrun x w1 Hua.
  destruct x as [[l ep] c]. cbn [fst snd] in Hrun.
  unfold load_until_arena in Hua.
  bind_ok_inv Hua sec w2 Hsec.
  bind_ok_inv Hua cnt w3 Harena.
  injection Hua as E1 E2 E3. subst sec cnt w3.
  unfold load_sections in Hsec.
  bind_ok_inv Hsec u wh Hh. destruct u.
  unfold start in Hh.
  destruct (load_header_ok _ _ _ _ Hh) as (H16 & Hmagic & Hver & ->).
  bind_ok_inv Hsec loc wl Hloc.
  destruct (load_locals_parses _ _ _ Hloc) as (_ & _ & Hlen). cbn [r] in Hlen.
  rewrite length_drop in Hlen.
  rewrite load_locals_at in Hloc by lia. injection Hloc as E1 E2. subst loc wl.
  bind_ok_inv Hsec u2 ws Hsched. destruct u2.
  destruct (load_sched_parses _ _ _ Hsched) as (Hf1 & Hlen1).
  cbn [r live] in Hlen1. rewrite length_drop in Hlen1.
  assert (Hrest : parses True blob_exn framed 16 (fun x => fst x = locals_at data)
                    (load_epoll;; load_eventfd;; exec_pages ← load_exec_pages;
                     mret (locals_at data, exec_pages))).
  { eapply parses_weaken with (k := (4 + (4 + (8 + 0)))%nat) (Q := fun x => fst x = locals_at data);
      [| lia | auto].
    parse_with parses_bind; [parse_with load_epoll_parses | intros _ _].
    parse_with parses_bind; [parse_with load_eventfd_parses | intros _ _].
    parse_with parses_bind; [parse_with load_exec_pages_parses | intros ep' _].
    eapply parses_weaken; [parse_with parses_ret | apply Nat.le_refl |].
    intros x ->. reflexivity. }
  destruct (Hrest _ _ _ Hsec) as (Hf2 & Hl & Hlen2). cbn [fst] in Hl. subst l.
  destruct (load_arena_parses _ _ _ Harena) as (Hf3 & _).
  pose proof (framed_trans _ _ _ (framed_trans _ _ _ Hf1 Hf2) Hf3) as Hf.
  unfold framed, load_frame in Hf. cbn [live] in Hf.
  destruct Hf as (Fcpu & Fpages & Fmmap & Farena & Fctx & Fwait & Fsched).
  destruct (restore_run (locals_at data) ep c w1) as (e' & Hres).
  rewrite Hres in Hrun. injection Hrun as E1. subst w'.
  cbn [live cpu memory sys mmap_address arena pages g_exec_ctx g_waiting_for_stdin g_sched].
  rewrite Fcpu.
  split; [lia |].
  split; [exact Hmagic |].
  split; [exact Hver |].
  split; [reflexivity |].
  split; [reflexivity |].
  split; [reflexivity |].
  split.
  { intros H32. unfold restore_cpu. cbn [reg].
    rewrite (restore_regs _ _ 32); [| reflexivity | exact H32].
    cbn [locals_at l_int_regs]. apply map_ext. intros i. unfold u64_at, slice.
    do 3 f_equal. lia. }
  split.
  { intros H32. unfold restore_cpu. cbn [fl].
    rewrite (restore_regs _ _ 32); [| reflexivity | exact H32].
    cbn [locals_at l_fp_regs]. apply map_ext. intros i. unfold u64_at, slice.
    do 3 f_equal. lia. }
  split; [reflexivity |].
  split; [reflexivity |].
  split; [reflexivity |].
  split; [exact Farena |].
  split; [exact Fsched |].
  intros pn a Hpn. rewrite lookup_restored_pages, Fpages.
  destruct (decide (pn ∈ ep)); [right; reflexivity | left; exact Hpn].
Qed.

Lemma accepted_blob_fields_witness :
  (680 + length (g_sched (sys demo_target)) <= length (save_checkpoint demo_saved))%nat /\
  pc (cpu (live (snd (load_checkpoint (start (save_checkpoint demo_saved) demo_target)))))
  = le_combine (slice (save_checkpoint demo_saved) 16 8).
Proof.
  destruct (accepted_blob_fields (save_checkpoint demo_saved) demo_target
              (snd (load_checkpoint (start (save_checkpoint demo_saved) demo_target))))
    as (H1 & _ & _ & _ & H5 & _).
  - vm_compute. reflexivity.
  - split; [exact H1 | exact H5].
Defined.
(** * Chunk streams in general *)

Lemma write_at_length (cur : list byte) (rec : Z * list byte) :
  0 <= fst rec -> fits (length cur) rec = true ->
  length (write_at cur rec) = length cur.
Proof.
  unfold fits, write_at. intros Hoff Hfit. apply Z.leb_le in Hfit.
  rewrite !length_app, length_take, length_drop. lia.
Qed.

Lemma enc_record_length (offset : Z) (payload : list byte) :
  length (enc_record offset payload) = (16 + length payload)%nat.
Proof. unfold enc_record. rewrite !length_app, !length_le_split. lia. Qed.

(** The chunk loop on a list of records, up to what follows them. *)
Lemma load_chunks_records (recs : list (Z * list byte)) :
  forall (fuel : nat) (cr td : Z) (rest cur : list byte) (st : State) (e : list diag),
  Forall plain_record recs ->
  Z.of_nat (length cur) < 2 ^ 63 ->
  (length (enc_records recs ++ rest) <= fuel)%nat ->
  let n := length cur in
  let fit := List.filter (fits n) recs in
  let unfit := List.filter (fun rec => negb (fits n rec)) recs in
  exists fuel',
    load_chunks fuel cr td (mkWorld (enc_records recs ++ rest) (set_arena_of st cur) e)
    = load_chunks fuel' (cr + Z.of_nat (length fit)) (td + payload_bytes fit)
        (mkWorld rest (set_arena_of st (foldl write_at cur fit))
           (e ++ map (warning n) unfit)) /\
    (length rest <= fuel')%nat /\
    length (foldl write_at cur fit) = n.
Proof.
  induction recs as [| [offset payload] recs IH];
    intros fuel cr td rest cur st e Hplain Hsize Hfuel n fit unfit.
  - exists fuel. subst fit unfit. cbn [List.filter length foldl map payload_bytes foldr].
    rewrite !Z.add_0_r, app_nil_r. split; [reflexivity | split; [exact Hfuel | reflexivity]].
  - apply Forall_cons in Hplain as [(Hoff & Hns & Hwrap) Hplain]. cbn [fst snd] in *.
    unfold enc_records in Hfuel |- *. cbn [map concat] in Hfuel |- *.
    rewrite <- app_assoc in Hfuel |- *. fold (enc_records recs) in Hfuel |- *.
    cbn [fst snd] in Hfuel |- *.
    rewrite length_app, enc_record_length in Hfuel.
    destruct fuel as [| fuel]; [lia |].
    subst fit unfit. cbn [List.filter].
    destruct (fits n (offset, payload)) eqn:Hfit; cbn [negb].
    + pose proof Hfit as Hfit'. unfold fits in Hfit'. cbn [fst snd] in Hfit'.
      apply Z.leb_le in Hfit'.
      rewrite load_chunks_record by (subst n; lia).
      change (take (Z.to_nat offset) cur ++ payload ++
              drop (Z.to_nat offset + length payload) cur)
        with (write_at cur (offset, payload)).
      assert (Hlen : length (write_at cur (offset, payload)) = n)
        by (apply write_at_length; [exact Hoff | exact Hfit]).
      destruct (IH fuel (cr + 1) (td + Z.of_nat (length payload)) rest
                  (write_at cur (offset, payload)) st e Hplain)
        as (fuel' & Hrun & Hfuel' & Hlen'); [rewrite Hlen; exact Hsize | lia |].
      rewrite Hlen in Hrun, Hlen'. exists fuel'.
      cbn [length foldl payload_bytes foldr snd].
      rewrite Hrun. split; [| split; [exact Hfuel' | exact Hlen']].
      rewrite Nat2Z.inj_succ, <- Z.add_1_l, !Z.add_assoc. reflexivity.
    + pose proof Hfit as Hfit'. unfold fits in Hfit'. cbn [fst snd] in Hfit'.
      apply Z.leb_gt in Hfit'.
      rewrite load_chunks_skip.
      * cbn [set_arena_of memory arena with_arena].
        destruct (IH fuel cr td rest cur st
                    (e ++ [chunk_exceeds offset (Z.of_nat (length payload))
                             (Z.of_nat (length cur))]) Hplain Hsize)
          as (fuel' & Hrun & Hfuel' & Hlen'); [lia |].
        exists fuel'. rewrite Hrun. cbn [map]. unfold warning at 2. cbn [fst snd].
        rewrite <- app_assoc. cbn [app].
        split; [reflexivity | split; [exact Hfuel' | exact Hlen']].
      * unfold is_u64. lia.
      * exact Hns.
      * unfold is_u64. lia.
      * cbn [set_arena_of memory arena with_arena]. unfold to_u64.
        rewrite Z.mod_small by lia. subst n. lia.
Qed.

Lemma load_arena_start (bs : list byte) (st : State) (e : list diag) :
  load_arena (mkWorld bs st e)
  = load_chunks (length bs) 0 0
      (mkWorld bs (set_arena_of
                     (mkState (cpu st) (evict_execute_segments (memory st)) (sys st))
                     (zeros (length (arena (memory st))))) e).
Proof.
  unfold load_arena.
  unfold mbind at 1, prog_bind at 1, set_memory. cbn [r live stderr cpu memory sys].
  unfold mbind at 1, prog_bind at 1, set_memory. cbn [r live stderr cpu memory sys].
  unfold mbind at 1, prog_bind at 1, remaining. cbn [r live stderr].
  rewrite Nat2Z.id. reflexivity.
Qed.

(** X10.  The arena stage on any stream of records whose offset is not
    the sentinel and whose end does not wrap around 2^64, ended by the
    sentinel (followed by anything) or by fewer than 16 bytes.  It never
    raises: the arena is zeroed, the records that fit are copied in stream
    order (a later record overwrites an earlier one), each record that
    does not fit is reported once, in order, and stepped over; the
    counters are the number and the payload bytes of the records copied.
    After the sentinel the reader stands right behind it; without a
    sentinel the stream is accepted all the same. *)
Theorem chunk_stream_semantics (recs : list (Z * list byte)) (terminator junk : list byte)
  (st : State) (e : list diag) :
  Forall plain_record recs ->
  Z.of_nat (length (arena (memory st))) < 2 ^ 63 ->
  terminator = sentinel_record ++ junk \/ (length terminator < 16)%nat ->
  let n := length (arena (memory st)) in
  let fit := List.filter (fits n) recs in
  let unfit := List.filter (fun rec => negb (fits n rec)) recs in
  exists w',
    load_arena (mkWorld (enc_records recs ++ terminator) st e)
    = (Ok (Z.of_nat (length fit), payload_bytes fit), w') /\
    arena (memory (live w')) = foldl write_at (zeros n) fit /\
    length (arena (memory (live w'))) = n /\
    stderr w' = e ++ map (warning n) unfit /\
    (terminator = sentinel_record ++ junk -> r w' = junk) /\
    ((length terminator < 16)%nat -> r w' = terminator).
Proof.
  intros Hplain Hsize Hterm n fit unfit. subst n fit unfit.
  rewrite load_arena_start.
  destruct (load_chunks_records recs (length (enc_records recs ++ terminator)) 0 0
              terminator (zeros (length (arena (memory st))))
              (mkState (cpu st) (evict_execute_segments (memory st)) (sys st)) e Hplain)
    as (fuel' & Hrun & Hfuel' & Hlen).
  { rewrite zeros_length. exact Hsize. }
  { lia. }
  cbv zeta in Hrun, Hlen. rewrite zeros_length in Hrun, Hlen.
  rewrite Hrun, !Z.add_0_l.
  assert (Hs : length sentinel_record = 16%nat) by reflexivity.
  destruct Hterm as [-> | Hshort].
  - destruct fuel' as [| fuel'].
    { rewrite length_app in Hfuel'. lia. }
    unfold sentinel_record. rewrite <- app_assoc.
    rewrite load_chunks_sentinel by (unfold is_u64; lia).
    eexists. split; [reflexivity |].
    cbn [live set_arena_of memory arena with_arena stderr r].
    split; [reflexivity |]. split; [exact Hlen |]. split; [reflexivity |].
    split; [intros Heq; apply app_inv_head in Heq; congruence |].
    intros Hshort. rewrite !length_app, !length_le_split in Hshort. lia.
  - rewrite load_chunks_exhausted by exact Hshort.
    eexists. split; [reflexivity |].
    cbn [live set_arena_of memory arena with_arena stderr r].
    split; [reflexivity |]. split; [exact Hlen |]. split; [reflexivity |].
    split; [| reflexivity].
    intros ->. rewrite length_app in Hshort. lia.
Qed.

Lemma chunk_stream_semantics_witness :
  exists w',
    load_arena
      (mkWorld (enc_records [(1, [Byte.x11; Byte.x22]); (2, [Byte.x33; Byte.x44]);
                             (2, [Byte.x55])] ++ [Byte.xff])
               demo_target [])
    = (Ok (2, 3), w') /\
    arena (memory (live w')) = [Byte.x00; Byte.x11; Byte.x55] /\
    stderr w' = [chunk_exceeds 2 2 3].
Proof.
  destruct (chunk_stream_semantics
              [(1, [Byte.x11; Byte.x22]); (2, [Byte.x33; Byte.x44]); (2, [Byte.x55])]
              [Byte.xff] [] demo_target [])
    as (w' & Hrun & Harena & _ & Herr & _).
  - repeat constructor; cbn; unfold SENTINEL_ADDR; lia.
  - cbn. lia.
  - right. cbn. lia.
  - exists w'. split; [exact Hrun | split; [exact Harena | exact Herr]].
Defined.
(** * The layout and the size of a blob *)

Lemma save_checkpoint_fixed (s : State) :
  save_checkpoint s
  = save_exec_ctx (save_cpu (save_header []) (cpu s)) (mmap_address (memory s))
      (g_exec_ctx (sys s))
    ++ enc_sched (sys s) ++ enc_epoll (g_epoll_instances (sys s))
    ++ enc_eventfd (g_eventfd_counters (sys s))
    ++ enc_exec_pages (collect_exec_pages (pages (memory s)))
    ++ save_arena [] (arena (memory s)).
Proof.
  unfold save_checkpoint. cbv zeta.
  rewrite save_arena_out, save_exec_pages_layout, save_eventfd_layout, save_epoll_layout,
    save_sched_layout, <- !app_assoc. reflexivity.
Qed.

Lemma fixed_length (s : State) :
  length (save_exec_ctx (save_cpu (save_header []) (cpu s)) (mmap_address (memory s))
            (g_exec_ctx (sys s))) = 656%nat.
Proof. reflexivity. Qed.

Lemma slice_app_at (pre x post : list byte) (k : nat) :
  length pre = k ->
  slice (pre ++ x ++ post) (Z.of_nat k) (Z.of_nat (length x)) = x.
Proof.
  intros <-. unfold slice. rewrite !Nat2Z.id, drop_app_length, take_app_length.
  reflexivity.
Qed.

Lemma slice_drop_app (pre rest : list byte) (k n : Z) (m : nat) :
  length pre = m -> 0 <= k ->
  slice (pre ++ rest) (Z.of_nat m + k) n = slice rest k n.
Proof.
  intros <- Hk. unfold slice. f_equal.
  rewrite Z2Nat.inj_add, Nat2Z.id by lia.
  rewrite drop_app_ge by lia. f_equal. lia.
Qed.

(** X11.  The layout of a blob, for every machine state: tag at byte 0,
    version at 8, flags 0 at 12, pc at 16, fcsr at 24, pad at 28, [xi] at
    [32 + 8i], [fi] at [288 + 8i], mmap pointer at 544, brk base and
    current at 552 and 560, the ten exec-context addresses from 568 to
    640, the two flags at 648 and 649, six zero bytes, the scheduler block
    at 656, then next-pid, next-epoll-fd and the epoll count; the last 16
    bytes are the sentinel record.  Every scalar is little-endian. *)
Theorem blob_layout (s : State) :
  let blob := save_checkpoint s in
  let x := g_exec_ctx (sys s) in
  let n := Z.of_nat (length (g_sched (sys s))) in
  slice blob 0 8 = MAGIC /\
  slice blob 8 4 = le_split 4 VERSION /\
  slice blob 12 4 = le_split 4 0 /\
  slice blob 16 8 = le_split 8 (pc (cpu s)) /\
  slice blob 24 4 = le_split 4 (fcsr (cpu s)) /\
  slice blob 28 4 = le_split 4 0 /\
  (forall i, (i < 32)%nat ->
     slice blob (32 + 8 * Z.of_nat i) 8 = le_split 8 (reg (cpu s) !!! i)) /\
  (forall i, (i < 32)%nat ->
     slice blob (288 + 8 * Z.of_nat i) 8 = le_split 8 (fl (cpu s) !!! i)) /\
  slice blob 544 8 = le_split 8 (mmap_address (memory s)) /\
  slice blob 552 8 = le_split 8 (brk_base x) /\
  slice blob 560 8 = le_split 8 (brk_current x) /\
  slice blob 568 8 = le_split 8 (exec_base x) /\
  slice blob 576 8 = le_split 8 (exec_rw_start x) /\
  slice blob 584 8 = le_split 8 (exec_rw_end x) /\
  slice blob 592 8 = le_split 8 (interp_base x) /\
  slice blob 600 8 = le_split 8 (interp_rw_start x) /\
  slice blob 608 8 = le_split 8 (interp_rw_end x) /\
  slice blob 616 8 = le_split 8 (interp_entry x) /\
  slice blob 624 8 = le_split 8 (original_stack_top x) /\
  slice blob 632 8 = le_split 8 (heap_start x) /\
  slice blob 640 8 = le_split 8 (heap_size x) /\
  slice blob 648 1 = le_split 1 (bool_to_Z (brk_overridden x)) /\
  slice blob 649 1 = le_split 1 (bool_to_Z (dynamic x)) /\
  slice blob 650 6 = zeros 6 /\
  slice blob 656 n = g_sched (sys s) /\
  slice blob (656 + n) 4 = le_split 4 (g_next_pid (sys s)) /\
  slice blob (660 + n) 4 = le_split 4 (g_next_epoll_fd (sys s)) /\
  slice blob (664 + n) 4 = le_split 4 (to_u32 (Z.of_nat (size (g_epoll_instances (sys s))))) /\
  drop (length blob - 16) blob = sentinel_record.
Proof.
  intros blob x n. subst blob x n. rewrite save_checkpoint_fixed.
  pose proof (fixed_length s) as Hfix.
  set (fixed := save_exec_ctx (save_cpu (save_header []) (cpu s)) (mmap_address (memory s))
                  (g_exec_ctx (sys s))) in *.
  repeat match goal with
         | |- slice _ ?k _ = _ /\ _ =>
             lazymatch k with
             | context [length] => fail
             | _ => split; [subst fixed; reflexivity |]
             end
         end.
  split.
  { intros i Hi. subst fixed.
    do 32 (destruct i as [| i]; [reflexivity |]). lia. }
  split.
  { intros i Hi. subst fixed.
    do 32 (destruct i as [| i]; [reflexivity |]). lia. }
  repeat match goal with
         | |- slice _ ?k _ = _ /\ _ =>
             lazymatch k with
             | context [length] => fail
             | _ => split; [subst fixed; reflexivity |]
             end
         end.
  unfold enc_sched, enc_epoll. rewrite <- !app_assoc.
  split.
  { change 656 with (Z.of_nat 656). apply slice_app_at. exact Hfix. }
  rewrite (app_assoc fixed).
  assert (Hpre : length (fixed ++ g_sched (sys s)) = (656 + length (g_sched (sys s)))%nat)
    by (rewrite length_app, Hfix; reflexivity).
  split.
  { replace (656 + Z.of_nat (length (g_sched (sys s))))
      with (Z.of_nat (656 + length (g_sched (sys s))) + 0) by lia.
    rewrite (slice_drop_app _ _ _ _ _ Hpre) by lia. reflexivity. }
  split.
  { replace (660 + Z.of_nat (length (g_sched (sys s))))
      with (Z.of_nat (656 + length (g_sched (sys s))) + 4) by lia.
    rewrite (slice_drop_app _ _ _ _ _ Hpre) by lia. reflexivity. }
  split.
  { replace (664 + Z.of_nat (length (g_sched (sys s))))
      with (Z.of_nat (656 + length (g_sched (sys s))) + 8) by lia.
    rewrite (slice_drop_app _ _ _ _ _ Hpre) by lia. reflexivity. }
  rewrite save_arena_chunks, !app_assoc.
  rewrite length_app. change (length sentinel_record) with 16%nat.
  rewrite Nat.add_sub. apply drop_app_length.
Qed.
(** * The sparse encoding of the arena *)

Lemma enc_records_app (l1 l2 : list (Z * list byte)) :
  enc_records (l1 ++ l2) = enc_records l1 ++ enc_records l2.
Proof. unfold enc_records. rewrite map_app, concat_app. reflexivity. Qed.

Lemma chunk_size_pos : 0 < CHUNK_SIZE.
Proof. reflexivity. Qed.

Lemma windows_count (a : list byte) :
  let n := Z.to_nat (Z.of_nat (length a) / CHUNK_SIZE) in
  Z.of_nat n = Z.of_nat (length a) / CHUNK_SIZE /\
  Z.of_nat n * CHUNK_SIZE <= Z.of_nat (length a) < Z.of_nat n * CHUNK_SIZE + CHUNK_SIZE /\
  (n <= length a)%nat.
Proof.
  cbv zeta.
  pose proof (Z.div_mod (Z.of_nat (length a)) CHUNK_SIZE ltac:(unfold CHUNK_SIZE; lia)) as Hdm.
  pose proof (Z.mod_pos_bound (Z.of_nat (length a)) CHUNK_SIZE chunk_size_pos) as Hmb.
  assert (Hn : Z.of_nat (Z.to_nat (Z.of_nat (length a) / CHUNK_SIZE))
               = Z.of_nat (length a) / CHUNK_SIZE).
  { apply Z2Nat.id. apply Z.div_pos; unfold CHUNK_SIZE; lia. }
  rewrite Hn. unfold CHUNK_SIZE in *. lia.
Qed.

Lemma save_tail_record (a : list byte) : save_tail a [] = enc_records (tail_record a).
Proof.
  unfold save_tail, tail_record. cbv zeta.
  destruct (Z.ltb_spec (Z.of_nat (length a) / CHUNK_SIZE * CHUNK_SIZE) (Z.of_nat (length a)))
    as [Hlt | Hge]; [| reflexivity].
  cbn [andb].
  destruct (negb (tail_all_zero _)); [| reflexivity].
  unfold emit_val, emit, enc_records, enc_record. cbn [map concat fst snd app].
  rewrite app_nil_r, <- app_assoc. do 2 f_equal.
  unfold slice. rewrite length_take, length_drop.
  pose proof (tail_offset_bounds (Z.of_nat (length a)) ltac:(lia)) as Hb.
  set (off := Z.of_nat (length a) / CHUNK_SIZE * CHUNK_SIZE) in *.
  f_equal. lia.
Qed.

Lemma save_arena_as_records (a : list byte) :
  save_arena [] a = enc_records (arena_records a) ++ sentinel_record.
Proof.
  rewrite save_arena_chunks. f_equal.
  unfold enc_chunks, arena_records. rewrite save_tail_out, enc_records_app. f_equal.
  - pose proof (save_full_chunks_records a (length a) 0) as Hrec.
    cbv zeta in Hrec. rewrite Nat.sub_0_r in Hrec.
    apply Hrec; [lia |]. destruct (windows_count a) as (_ & _ & Hn). lia.
  - apply save_tail_record.
Qed.

Lemma window_record_sparse (a : list byte) (k : nat) (rec : Z * list byte) :
  (k < Z.to_nat (Z.of_nat (length a) / CHUNK_SIZE))%nat ->
  In rec (window_record a k) ->
  fst rec = Z.of_nat k * CHUNK_SIZE /\ Z.of_nat (length (snd rec)) = CHUNK_SIZE /\
  sparse_record a rec.
Proof.
  intros Hk Hin. unfold window_record in Hin. cbv zeta in Hin.
  destruct (chunk_all_zero a (Z.of_nat k * CHUNK_SIZE)) eqn:Hz; [contradiction Hin |].
  destruct Hin as [<- | []]. cbn [fst snd].
  destruct (windows_count a) as (Hn & Hb & _). cbv zeta in Hn, Hb.
  assert (Hfit : Z.of_nat k * CHUNK_SIZE + CHUNK_SIZE <= Z.of_nat (length a))
    by (unfold CHUNK_SIZE in *; nia).
  assert (Hlen : Z.of_nat (length (slice a (Z.of_nat k * CHUNK_SIZE) CHUNK_SIZE)) = CHUNK_SIZE).
  { unfold slice. rewrite length_take, length_drop. unfold CHUNK_SIZE in *. lia. }
  split; [reflexivity |]. split; [exact Hlen |].
  unfold sparse_record. cbn [fst snd]. rewrite Hlen.
  split; [unfold CHUNK_SIZE; lia |].
  split; [apply Z.mod_mul; unfold CHUNK_SIZE; lia |].
  split; [reflexivity |].
  split; [exact Hfit |].
  split; [left; reflexivity |].
  intros Hall.
  assert (Hnat : Z.of_nat k * CHUNK_SIZE = Z.of_nat (k * chunk_len)).
  { rewrite Nat2Z.inj_mul, chunk_len_Z. reflexivity. }
  rewrite Hnat in Hz, Hall.
  rewrite <- chunk_len_Z, slice_nat in Hall.
  apply chunk_all_zero_spec in Hall; [congruence |].
  apply Nat2Z.inj_le. rewrite Nat2Z.inj_add, <- Hnat, chunk_len_Z. exact Hfit.
Qed.

Lemma tail_record_sparse (a : list byte) (rec : Z * list byte) :
  In rec (tail_record a) ->
  fst rec = Z.of_nat (length a) / CHUNK_SIZE * CHUNK_SIZE /\ sparse_record a rec.
Proof.
  unfold tail_record. cbv zeta. intros Hin.
  destruct (Z.ltb_spec (Z.of_nat (length a) / CHUNK_SIZE * CHUNK_SIZE) (Z.of_nat (length a)))
    as [Hlt | Hge]; [| contradiction Hin].
  cbn [andb] in Hin.
  destruct (tail_all_zero _) eqn:Hz; [contradiction Hin |].
  cbn [negb] in Hin. destruct Hin as [<- | []]. cbn [fst snd].
  split; [reflexivity |].
  pose proof (tail_offset_bounds (Z.of_nat (length a)) ltac:(lia)) as Hb.
  set (off := Z.of_nat (length a) / CHUNK_SIZE * CHUNK_SIZE) in *.
  assert (Hlen : Z.of_nat (length (slice a off (Z.of_nat (length a) - off)))
                 = Z.of_nat (length a) - off).
  { unfold slice. rewrite length_take, length_drop. lia. }
  unfold sparse_record. cbn [fst snd]. rewrite Hlen.
  split; [lia |].
  split; [unfold off; apply Z.mod_mul; unfold CHUNK_SIZE; lia |].
  split; [reflexivity |].
  split; [lia |].
  split; [right; lia |].
  intros Hall. apply tail_all_zero_spec in Hall. congruence.
Qed.

Lemma arena_records_sparse (a : list byte) : Forall (sparse_record a) (arena_records a).
Proof.
  unfold arena_records. apply Forall_app. split.
  - unfold window_records. apply Forall_forall. intros rec Hin.
    apply list_elem_of_In, in_flat_map in Hin as (k & Hk & Hin).
    apply in_seq in Hk.
    apply (window_record_sparse a k rec); [lia | exact Hin].
  - apply Forall_forall. intros rec Hin. apply list_elem_of_In in Hin.
    apply tail_record_sparse. exact Hin.
Qed.

Lemma windows_sorted (a : list byte) (m : nat) :
  forall k : nat,
  (k + m = Z.to_nat (Z.of_nat (length a) / CHUNK_SIZE))%nat ->
  StronglySorted record_before (flat_map (window_record a) (seq k m) ++ tail_record a) /\
  Forall (fun rec => Z.of_nat k * CHUNK_SIZE <= fst rec)
         (flat_map (window_record a) (seq k m) ++ tail_record a).
Proof.
  induction m as [| m IH]; intros k Hk.
  - cbn [seq flat_map app].
    destruct (windows_count a) as (Hn & _). cbv zeta in Hn.
    assert (Htail : Forall (fun rec => Z.of_nat k * CHUNK_SIZE <= fst rec) (tail_record a)).
    { apply Forall_forall. intros rec Hin. apply list_elem_of_In in Hin.
      destruct (tail_record_sparse a rec Hin) as (-> & _). rewrite <- Hn. lia. }
    split; [| exact Htail].
    unfold tail_record in *. cbv zeta in *.
    destruct (_ && _); repeat constructor.
  - cbn [seq flat_map]. rewrite <- app_assoc.
    destruct (IH (S k) ltac:(lia)) as (Hsorted & Hlow).
    assert (Hlow' : Forall (fun rec => Z.of_nat k * CHUNK_SIZE <= fst rec)
                      (flat_map (window_record a) (seq (S k) m) ++ tail_record a)).
    { eapply Forall_impl; [exact Hlow |]. cbv beta. intros rec Hrec.
      unfold CHUNK_SIZE in *. lia. }
    destruct (window_record a k) as [| rec [| rec' l]] eqn:Hw.
    + cbn [app]. split; [exact Hsorted | exact Hlow'].
    + cbn [app].
      destruct (window_record_sparse a k rec ltac:(lia)) as (Hoff & Hlen & _).
      { rewrite Hw. left. reflexivity. }
      split.
      * constructor; [exact Hsorted |].
        eapply Forall_impl; [exact Hlow |]. cbv beta. intros rec2 Hrec2.
        unfold record_before. rewrite Hoff, Hlen. unfold CHUNK_SIZE in *. lia.
      * constructor; [lia | exact Hlow'].
    + unfold window_record in Hw. cbv zeta in Hw.
      destruct (chunk_all_zero a (Z.of_nat k * CHUNK_SIZE)); discriminate.
Qed.

Lemma filter_all {A : Type} (f : A -> bool) (l : list A) :
  Forall (fun x => f x = true) l -> List.filter f l = l.
Proof.
  induction 1 as [| x l Hx _ IH]; cbn [List.filter]; [reflexivity |].
  rewrite Hx, IH. reflexivity.
Qed.

Lemma sparse_record_plain (a : list byte) (rec : Z * list byte) :
  Z.of_nat (length a) < 2 ^ 63 -> sparse_record a rec ->
  plain_record rec /\ fits (length a) rec = true.
Proof.
  intros Hsize (H0 & _ & _ & Hfit & _). unfold plain_record, fits, SENTINEL_ADDR.
  split; [lia | apply Z.leb_le; exact Hfit].
Qed.

Lemma arena_records_rebuild (a : list byte) :
  Z.of_nat (length a) < 2 ^ 63 ->
  foldl write_at (zeros (length a)) (arena_records a) = a.
Proof.
  intros Hsize.
  pose proof (arena_records_sparse a) as Hsparse.
  assert (Hplain : Forall plain_record (arena_records a)).
  { eapply Forall_impl; [exact Hsparse |]. intros rec Hrec.
    apply (sparse_record_plain a rec Hsize Hrec). }
  assert (Hfits : Forall (fun rec => fits (length a) rec = true) (arena_records a)).
  { eapply Forall_impl; [exact Hsparse |]. intros rec Hrec.
    apply (sparse_record_plain a rec Hsize Hrec). }
  set (st := set_arena_of demo_target a).
  assert (Hst : length (arena (memory st)) = length a) by reflexivity.
  destruct (load_arena_roundtrip a [] st [] Hsize Hst) as (cr & td & Hround).
  rewrite save_arena_as_records, <- app_assoc, load_arena_start in Hround.
  destruct (load_chunks_records (arena_records a)
              (length (enc_records (arena_records a) ++ sentinel_record ++ [])) 0 0
              (sentinel_record ++ []) (zeros (length (arena (memory st))))
              (mkState (cpu st) (evict_execute_segments (memory st)) (sys st)) [] Hplain)
    as (fuel' & Hrun & Hfuel' & _).
  { rewrite zeros_length. exact Hsize. }
  { lia. }
  cbv zeta in Hrun. rewrite zeros_length, Hst in Hrun.
  rewrite (filter_all _ _ Hfits) in Hrun.
  rewrite Hst, Hrun in Hround.
  destruct fuel' as [| fuel'].
  { rewrite length_app in Hfuel'. change (length sentinel_record) with 16%nat in Hfuel'. lia. }
  unfold sentinel_record in Hround at 1. rewrite <- app_assoc in Hround.
  rewrite load_chunks_sentinel in Hround by (unfold is_u64; lia).
  apply (f_equal (fun x => arena (memory (live (snd x))))) in Hround.
  exact Hround.
Qed.

(** X12.  The sparse encoding of an arena, record by record.  The chunk
    stream is the records [arena_records] followed by the sentinel; each
    record starts at a multiple of 64 KiB, carries the bytes of the arena
    from there up to the end of the window or of the arena, and holds a
    non-zero byte (an all-zero window is never stored); the records are in
    ascending order and do not overlap; and writing them onto a zeroed
    buffer of the same size gives the arena back. *)
Theorem sparse_arena_records (a : list byte) :
  save_arena [] a = enc_records (arena_records a) ++ sentinel_record /\
  Forall (sparse_record a) (arena_records a) /\
  StronglySorted record_before (arena_records a) /\
  (Z.of_nat (length a) < 2 ^ 63 ->
   foldl write_at (zeros (length a)) (arena_records a) = a).
Proof.
  split; [apply save_arena_as_records |].
  split; [apply arena_records_sparse |].
  split; [| apply arena_records_rebuild].
  unfold arena_records, window_records.
  apply (windows_sorted a _ 0). lia.
Qed.
(** * Loading a saved blob: report, trailing bytes, idempotence, injectivity *)

Lemma restore_report (l : Locals) (exec_pages : list Z) (counters : Z * Z) (w : World) :
  restore l exec_pages counters w
  = (Ok tt,
     mkWorld (r w)
       (mkState
          (restore_cpu l (cpu (live w)))
          (mkMemory (l_mmap_addr l)
             (foldl (fun pg pageno => set_pageno_attr pageno exec_attr pg)
                    (pages (memory (live w))) exec_pages)
             (arena (memory (live w))) (execute_segments (memory (live w))))
          (mkSyscalls (restore_exec_ctx l) (g_sched (sys (live w)))
             (g_next_pid (sys (live w))) (g_next_epoll_fd (sys (live w)))
             (g_epoll_instances (sys (live w))) (g_eventfd_counters (sys (live w)))
             true))
       (((stderr w ++ [restored_exec_pages (Z.of_nat (length exec_pages))])
         ++ [loaded (fst counters) (snd counters) (l_pc l)])
        ++ [loaded_mm (l_mmap_addr l) (l_brk_base l) (l_brk_current l)])).
Proof. reflexivity. Qed.

Lemma filter_none {A : Type} (f : A -> bool) (l : list A) :
  Forall (fun x => f x = true) l -> List.filter (fun x => negb (f x)) l = [].
Proof.
  induction 1 as [| x l Hx _ IH]; cbn [List.filter]; [reflexivity |].
  rewrite Hx. exact IH.
Qed.

Lemma enc_records_length (l : list (Z * list byte)) :
  Z.of_nat (length (enc_records l)) = 16 * Z.of_nat (length l) + payload_bytes l.
Proof.
  induction l as [| rec l IH]; [reflexivity |].
  unfold enc_records in *. cbn [map concat].
  rewrite length_app, enc_record_length, Nat2Z.inj_add, IH.
  cbn [payload_bytes foldr length]. fold (payload_bytes l). lia.
Qed.

(** The arena stage on the stream of a saved arena, with its counters. *)
Lemma load_arena_saved (a junk : list byte) (st : State) (e : list diag) :
  Z.of_nat (length a) < 2 ^ 63 ->
  length (arena (memory st)) = length a ->
  load_arena (mkWorld (save_arena [] a ++ junk) st e)
  = (Ok (Z.of_nat (length (arena_records a)), payload_bytes (arena_records a)),
     mkWorld junk (arena_loaded st a) e).
Proof.
  intros Hsize Hst.
  pose proof (arena_records_sparse a) as Hsparse.
  assert (Hplain : Forall plain_record (arena_records a)).
  { eapply Forall_impl; [exact Hsparse |]. intros rec Hrec.
    apply (sparse_record_plain a rec Hsize Hrec). }
  assert (Hfits : Forall (fun rec => fits (length a) rec = true) (arena_records a)).
  { eapply Forall_impl; [exact Hsparse |]. intros rec Hrec.
    apply (sparse_record_plain a rec Hsize Hrec). }
  rewrite save_arena_as_records, <- app_assoc, load_arena_start.
  destruct (load_chunks_records (arena_records a)
              (length (enc_records (arena_records a) ++ sentinel_record ++ junk)) 0 0
              (sentinel_record ++ junk) (zeros (length (arena (memory st))))
              (mkState (cpu st) (evict_execute_segments (memory st)) (sys st)) e Hplain)
    as (fuel' & Hrun & Hfuel' & _).
  { rewrite zeros_length, Hst. exact Hsize. }
  { lia. }
  cbv zeta in Hrun. rewrite zeros_length, Hst in Hrun.
  rewrite (filter_all _ _ Hfits) in Hrun.
  rewrite Hst, Hrun.
  destruct fuel' as [| fuel'].
  { rewrite length_app in Hfuel'. change (length sentinel_record) with 16%nat in Hfuel'. lia. }
  unfold sentinel_record at 1. rewrite <- app_assoc.
  rewrite load_chunks_sentinel by (unfold is_u64; lia).
  rewrite !Z.add_0_l, arena_records_rebuild by exact Hsize.
  rewrite (filter_none _ _ Hfits). cbn [map]. rewrite app_nil_r. reflexivity.
Qed.

(** The whole load of a saved blob followed by any bytes. *)
Lemma load_saved_report (s t : State) (junk : list byte) :
  well_formed s -> same_layout s t ->
  load_checkpoint (start (save_checkpoint s ++ junk) t)
  = (Ok tt,
     mkWorld junk (restored s t)
       [restored_epoll (Z.of_nat (size (g_epoll_instances (sys s))));
        restored_eventfd (Z.of_nat (size (g_eventfd_counters (sys s))));
        restored_exec_pages (Z.of_nat (length (collect_exec_pages (pages (memory s)))));
        loaded (Z.of_nat (length (arena_records (arena (memory s)))))
               (payload_bytes (arena_records (arena (memory s)))) (pc (cpu s));
        loaded_mm (mmap_address (memory s)) (brk_base (g_exec_ctx (sys s)))
                  (brk_current (g_exec_ctx (sys s)))]).
Proof.
  intros Hwf Hlay.
  pose proof Hlay as (Harena & Hsched & Hreg & Hfl).
  pose proof Hwf as ((_ & _ & Hsreg & _ & Hsfl & _) & (_ & _ & _ & Hsize) & _).
  destruct (decodes_sections _ always_refl always_trans ltac:(intros; exact I) s t Hwf Hsched)
    as (Hsec & _).
  rewrite save_checkpoint_layout by assumption. rewrite <- app_assoc.
  unfold load_checkpoint, load_until_arena, start.
  erewrite bind_ok; [| erewrite bind_ok by apply Hsec; cbv beta;
                       erewrite bind_ok by (apply load_arena_saved; [exact Hsize | exact Harena]);
                       reflexivity].
  cbn [fst snd]. rewrite restore_report.
  destruct (restore_saved s t (0, 0) [] Hwf Hlay) as (e' & Hres).
  rewrite restore_report in Hres.
  apply (f_equal (fun x => live (snd x))) in Hres. cbn [snd live] in Hres.
  cbn [r live stderr]. rewrite Hres. reflexivity.
Qed.

(** X13.  Bytes after the sentinel are never read: a saved blob followed
    by anything loads exactly like the blob alone (same machine, same
    diagnostics), and the reader stops right behind the sentinel. *)
Theorem trailing_bytes_ignored (s t : State) (junk : list byte) :
  well_formed s -> same_layout s t ->
  exists w w_junk,
    load_checkpoint (start (save_checkpoint s) t) = (Ok tt, w) /\
    load_checkpoint (start (save_checkpoint s ++ junk) t) = (Ok tt, w_junk) /\
    live w_junk = live w /\ stderr w_junk = stderr w /\
    r w = [] /\ r w_junk = junk.
Proof.
  intros Hwf Hlay. do 2 eexists.
  split.
  { rewrite <- (app_nil_r (save_checkpoint s)).
    apply (load_saved_report s t [] Hwf Hlay). }
  split; [apply (load_saved_report s t junk Hwf Hlay) |].
  repeat split; reflexivity.
Qed.

Lemma trailing_bytes_ignored_witness :
  exists w w_junk,
    load_checkpoint (start (save_checkpoint demo_saved) demo_target) = (Ok tt, w) /\
    load_checkpoint (start (save_checkpoint demo_saved ++ [Byte.x01; Byte.x02]) demo_target)
    = (Ok tt, w_junk) /\
    live w_junk = live w /\ stderr w_junk = stderr w /\
    r w = [] /\ r w_junk = [Byte.x01; Byte.x02].
Proof.
  apply (trailing_bytes_ignored demo_saved demo_target [Byte.x01; Byte.x02]
           demo_saved_well_formed demo_same_layout).
Defined.

(** X14.  What a complete load of a saved blob prints, in order: the
    number of epoll instances, the number of eventfd counters, the number
    of executable pages, then the number of chunk records and their
    payload bytes with the pc, then the mmap pointer and the brk range -
    each as saved.  The chunk stream is 16 bytes per record plus the
    payload plus the sentinel. *)
Theorem load_report (s t : State) :
  well_formed s -> same_layout s t ->
  exists w,
    load_checkpoint (start (save_checkpoint s) t) = (Ok tt, w) /\
    stderr w
    = [restored_epoll (Z.of_nat (size (g_epoll_instances (sys s))));
       restored_eventfd (Z.of_nat (size (g_eventfd_counters (sys s))));
       restored_exec_pages (Z.of_nat (length (collect_exec_pages (pages (memory s)))));
       loaded (Z.of_nat (length (arena_records (arena (memory s)))))
              (payload_bytes (arena_records (arena (memory s)))) (pc (cpu s));
       loaded_mm (mmap_address (memory s)) (brk_base (g_exec_ctx (sys s)))
                 (brk_current (g_exec_ctx (sys s)))] /\
    Z.of_nat (length (save_arena [] (arena (memory s))))
    = 16 * Z.of_nat (length (arena_records (arena (memory s))))
      + payload_bytes (arena_records (arena (memory s))) + 16.
Proof.
  intros Hwf Hlay. eexists. split.
  { rewrite <- (app_nil_r (save_checkpoint s)).
    apply (load_saved_report s t [] Hwf Hlay). }
  split; [reflexivity |].
  rewrite save_arena_as_records, length_app, Nat2Z.inj_add, enc_records_length.
  change (length sentinel_record) with 16%nat. lia.
Qed.

Lemma load_report_witness :
  exists w,
    load_checkpoint (start (save_checkpoint demo_saved) demo_target) = (Ok tt, w) /\
    stderr w
    = [restored_epoll 2; restored_eventfd 1; restored_exec_pages 1;
       loaded 1 3 4096; loaded_mm 77 1 2].
Proof.
  destruct (load_report demo_saved demo_target demo_saved_well_formed demo_same_layout)
    as (w & Hrun & Herr & _).
  exists w. split; [exact Hrun |]. rewrite Herr. vm_compute. reflexivity.
Defined.
Lemma restored_twice (s t : State) : restored s (restored s t) = restored s t.
Proof.
  unfold restored. f_equal. f_equal.
  unfold pages_restored. cbn [memory pages].
  apply map_eq. intros pn. rewrite !lookup_restored_pages.
  destruct (decide (pn ∈ collect_exec_pages (pages (memory s)))); reflexivity.
Qed.

Lemma same_layout_restored (s t : State) :
  well_formed s -> same_layout s (restored s t).
Proof.
  intros ((_ & _ & Hreg & _ & Hfl & _) & _).
  unfold same_layout, restored. cbn [memory arena sys g_sched cpu].
  repeat split; assumption.
Qed.

(** X15.  Loading is idempotent: a second load of the same saved blob
    into the machine the first load left succeeds and leaves that machine
    unchanged. *)
Theorem load_idempotent (s t : State) :
  well_formed s -> same_layout s t ->
  exists w1 w2,
    load_checkpoint (start (save_checkpoint s) t) = (Ok tt, w1) /\
    load_checkpoint (start (save_checkpoint s) (live w1)) = (Ok tt, w2) /\
    live w2 = live w1.
Proof.
  intros Hwf Hlay. do 2 eexists.
  split.
  { rewrite <- (app_nil_r (save_checkpoint s)).
    apply (load_saved_report s t [] Hwf Hlay). }
  cbn [live]. split.
  { rewrite <- (app_nil_r (save_checkpoint s)).
    apply (load_saved_report s (restored s t) [] Hwf (same_layout_restored s t Hwf)). }
  cbn [live]. apply restored_twice.
Qed.

Lemma load_idempotent_witness :
  exists w1 w2,
    load_checkpoint (start (save_checkpoint demo_saved) demo_target) = (Ok tt, w1) /\
    load_checkpoint (start (save_checkpoint demo_saved) (live w1)) = (Ok tt, w2) /\
    live w2 = live w1.
Proof.
  apply (load_idempotent demo_saved demo_target demo_saved_well_formed demo_same_layout).
Defined.

(** X16.  [save_checkpoint] is injective on what it saves: two
    well-formed states with arenas and scheduler blocks of the same size
    and the same blob have the same CPU, mmap pointer, arena, exec
    context, scheduler block, counters, epoll and eventfd maps, and the
    same executable pages. *)
Theorem save_checkpoint_injective (s1 s2 : State) :
  well_formed s1 -> well_formed s2 ->
  length (arena (memory s1)) = length (arena (memory s2)) ->
  length (g_sched (sys s1)) = length (g_sched (sys s2)) ->
  save_checkpoint s1 = save_checkpoint s2 ->
  cpu s1 = cpu s2 /\
  mmap_address (memory s1) = mmap_address (memory s2) /\
  arena (memory s1) = arena (memory s2) /\
  g_exec_ctx (sys s1) = g_exec_ctx (sys s2) /\
  g_sched (sys s1) = g_sched (sys s2) /\
  g_next_pid (sys s1) = g_next_pid (sys s2) /\
  g_next_epoll_fd (sys s1) = g_next_epoll_fd (sys s2) /\
  g_epoll_instances (sys s1) = g_epoll_instances (sys s2) /\
  g_eventfd_counters (sys s1) = g_eventfd_counters (sys s2) /\
  (forall pn, executable s1 pn <-> executable s2 pn).
Proof.
  intros Hwf1 Hwf2 Harena Hsched Hblob.
  pose proof Hwf1 as ((_ & _ & Hreg & _ & Hfl & _) & _).
  set (t := mkState (cpu s1) (with_pages (fun _ => ∅) (memory s1)) (sys s1)).
  assert (Hlay1 : same_layout s1 t) by (repeat split; assumption).
  assert (Hlay2 : same_layout s2 t).
  { unfold same_layout, t. cbn [memory arena sys g_sched cpu with_pages].
    repeat split; [exact Harena | exact Hsched | exact Hreg | exact Hfl]. }
  pose proof (load_saved_report s1 t [] Hwf1 Hlay1) as H1.
  pose proof (load_saved_report s2 t [] Hwf2 Hlay2) as H2.
  rewrite Hblob, H2 in H1.
  apply (f_equal (fun x => live (snd x))) in H1. cbn [snd live] in H1.
  assert (Hexec : forall s, well_formed s -> forall pn,
                    executable (restored s t) pn <-> executable s pn).
  { intros s Hwf pn. rewrite (executable_restored s t pn Hwf).
    split; [| tauto]. intros [H | (a & Ha & _)]; [exact H |].
    unfold t in Ha. cbn [memory pages with_pages] in Ha.
    rewrite lookup_empty in Ha. discriminate. }
  repeat split;
    try (apply (f_equal (fun x => cpu x)) in H1; cbn in H1; congruence);
    try (apply (f_equal (fun x => mmap_address (memory x))) in H1; cbn in H1; congruence);
    try (apply (f_equal (fun x => arena (memory x))) in H1; cbn in H1; congruence);
    try (apply (f_equal (fun x => sys x)) in H1; cbn in H1; injection H1; congruence).
  - intros Hx. apply (Hexec s2 Hwf2). rewrite H1. apply (Hexec s1 Hwf1). exact Hx.
  - intros Hx. apply (Hexec s1 Hwf1). rewrite <- H1. apply (Hexec s2 Hwf2). exact Hx.
Qed.

Lemma demo_twin_well_formed : well_formed demo_twin.
Proof.
  unfold well_formed, wf_cpu, wf_memory, wf_sys, wf_exec_ctx, demo_twin.
  cbn [checkpoint.cpu checkpoint.memory checkpoint.sys pc fcsr reg fl mmap_address
       pages arena g_exec_ctx g_next_pid g_next_epoll_fd g_epoll_instances
       g_eventfd_counters brk_base brk_current exec_base exec_rw_start exec_rw_end
       interp_base interp_rw_start interp_rw_end interp_entry original_stack_top
       heap_start heap_size].
  solve_ranges.
Qed.

Lemma save_checkpoint_injective_witness :
  demo_saved <> demo_twin /\
  pages (memory demo_saved) <> pages (memory demo_twin) /\
  save_checkpoint demo_saved = save_checkpoint demo_twin /\
  cpu demo_saved = cpu demo_twin /\
  arena (memory demo_saved) = arena (memory demo_twin) /\
  g_epoll_instances (sys demo_saved) = g_epoll_instances (sys demo_twin) /\
  (forall pn, executable demo_saved pn <-> executable demo_twin pn).
Proof.
  assert (Hblob : save_checkpoint demo_saved = save_checkpoint demo_twin)
    by (vm_compute; reflexivity).
  destruct (save_checkpoint_injective demo_saved demo_twin demo_saved_well_formed
              demo_twin_well_formed eq_refl eq_refl Hblob)
    as (H1 & _ & H3 & _ & _ & _ & _ & H8 & _ & H10).
  split.
  { intros H. apply (f_equal (fun s => g_waiting_for_stdin (sys s))) in H. discriminate H. }
  split.
  { intros H. apply (f_equal (fun pg => pg !! 6)) in H. vm_compute in H. discriminate H. }
  split; [exact Hblob |].
  split; [exact H1 |]. split; [exact H3 |]. split; [exact H8 | exact H10].
Defined.

Lemma length_enc_instances (l : list (Z * EpollInstance)) :
  length (concat (map enc_instance l))
  = foldr (fun e n => (8 + 16 * size (interests (snd e)) + n)%nat) 0%nat l.
Proof.
  induction l as [| e l IH]; [reflexivity |].
  cbn [map concat foldr]. rewrite length_app, IH. f_equal.
  unfold enc_instance. rewrite !length_app, !length_le_split.
  assert (Hi : forall li : list (Z * EpollInterest),
             length (concat (map enc_interest li)) = (16 * length li)%nat).
  { induction li as [| i li IHi]; [reflexivity |].
    cbn [map concat length]. rewrite length_app, IHi.
    unfold enc_interest. rewrite !length_app, !length_le_split. lia. }
  rewrite Hi, length_map_to_list. lia.
Qed.

Lemma length_enc_counters (l : list (Z * Z)) :
  length (concat (map enc_counter l)) = (12 * length l)%nat.
Proof.
  induction l as [| e l IH]; [reflexivity |].
  cbn [map concat length]. rewrite length_app, IH.
  unfold enc_counter. rewrite !length_app, !length_le_split. lia.
Qed.

Lemma windows_length (a : list byte) (m : nat) :
  forall k : nat,
  Z.of_nat (length (enc_records (flat_map (window_record a) (seq k m))))
  <= Z.of_nat m * (16 + CHUNK_SIZE).
Proof.
  induction m as [| m IH]; intros k; [cbn; lia |].
  cbn [seq flat_map]. rewrite enc_records_app, length_app, Nat2Z.inj_add.
  specialize (IH (S k)).
  assert (Hw : Z.of_nat (length (enc_records (window_record a k))) <= 16 + CHUNK_SIZE).
  { unfold window_record. cbv zeta. destruct (chunk_all_zero a _).
    - cbn. unfold CHUNK_SIZE. lia.
    - unfold enc_records. cbn [map concat fst snd]. rewrite app_nil_r, enc_record_length.
      unfold slice. rewrite length_take. pose proof chunk_size_pos. lia. }
  lia.
Qed.

(** X17.  The size of a blob: 680 bytes, plus the scheduler block, 8
    bytes per epoll instance and 16 per interest, 12 per eventfd counter,
    8 per executable page (at most one per page-table entry), plus the
    chunk stream; the chunk stream takes at least 16 bytes and at most the
    arena size plus 16 bytes per full window plus 32. *)
Theorem blob_size (s : State) :
  let a := arena (memory s) in
  length (save_checkpoint s)
  = (680 + length (g_sched (sys s)) + epoll_bytes (g_epoll_instances (sys s))
     + 12 * size (g_eventfd_counters (sys s))
     + 8 * length (collect_exec_pages (pages (memory s)))
     + length (save_arena [] a))%nat /\
  (length (collect_exec_pages (pages (memory s))) <= size (pages (memory s)))%nat /\
  16 <= Z.of_nat (length (save_arena [] a))
     <= Z.of_nat (length a) + 16 * (Z.of_nat (length a) / CHUNK_SIZE) + 32.
Proof.
  intros a. subst a. split; [| split; [apply collect_exec_pages_length |]].
  - rewrite save_checkpoint_fixed, !length_app, fixed_length.
    unfold enc_sched, enc_epoll, enc_eventfd, enc_exec_pages, epoll_bytes.
    rewrite !length_app, !length_le_split, length_enc_instances, length_enc_counters,
      length_concat_le_split, length_map_to_list.
    lia.
  - rewrite save_arena_as_records, length_app, Nat2Z.inj_add.
    change (length sentinel_record) with 16%nat.
    unfold arena_records, window_records.
    rewrite enc_records_app, length_app, Nat2Z.inj_add.
    pose proof (windows_length (arena (memory s))
                  (Z.to_nat (Z.of_nat (length (arena (memory s))) / CHUNK_SIZE)) 0) as Hw.
    destruct (windows_count (arena (memory s))) as (Hn & Hb & _). cbv zeta in Hn, Hb.
    rewrite Hn in Hw, Hb.
    assert (Ht : Z.of_nat (length (enc_records (tail_record (arena (memory s)))))
                 <= 16 + (Z.of_nat (length (arena (memory s)))
                          - Z.of_nat (length (arena (memory s))) / CHUNK_SIZE * CHUNK_SIZE)).
    { unfold tail_record. cbv zeta.
      destruct (Z.ltb_spec (Z.of_nat (length (arena (memory s))) / CHUNK_SIZE * CHUNK_SIZE)
                  (Z.of_nat (length (arena (memory s))))) as [Hlt | Hge]; cbn [andb].
      - destruct (negb _); [| cbn; lia].
        unfold enc_records. cbn [map concat fst snd]. rewrite app_nil_r, enc_record_length.
        unfold slice. rewrite length_take. lia.
      - cbn. lia. }
    set (q := Z.of_nat (length (arena (memory s))) / CHUNK_SIZE) in *.
    unfold CHUNK_SIZE in *. lia.
Qed.

Lemma read_val_enough (w : nat) (bs : list byte) (st : State) (e : list diag) :
  (w <= length bs)%nat ->
  read_val w (mkWorld bs st e)
  = (Ok (le_combine (take w bs)), mkWorld (drop w bs) st e).
Proof.
  intros Hlen. pose proof (read_val_at bs 0 w st e) as H.
  rewrite drop_0 in H. apply H. lia.
Qed.

Lemma read_val_short (w : nat) (bs : list byte) (st : State) (e : list diag) :
  (length bs < w)%nat ->
  read_val w (mkWorld bs st e) = (Throw unexpected_EOF, mkWorld bs st e).
Proof.
  intros Hlen. unfold read_val, read_bytes, mbind, prog_bind. cbn [r].
  destruct (Z.ltb_spec (Z.of_nat (length bs)) (Z.of_nat w)) as [_ | Hge]; [reflexivity | lia].
Qed.

(** X18.  Scalars survive [emit_val] and [Reader::read]: reading [w]
    bytes where [emit_val] wrote a value gives the value modulo 2^(8w) and
    leaves the reader right behind it; an [int32_t] comes back with its
    sign.  With fewer than [w] bytes left the read raises "unexpected EOF"
    and does not advance; otherwise it returns the little-endian value of
    the next [w] bytes and advances by [w]. *)
Theorem reader_roundtrip (w : nat) (val : Z) (out rest : list byte) (st : State)
  (e : list diag) :
  read_val w (mkWorld (drop (length out) (emit_val w out val) ++ rest) st e)
  = (Ok (val mod 2 ^ (8 * Z.of_nat w)), mkWorld rest st e) /\
  (is_i32 val ->
   read_i32 (mkWorld (drop (length out) (emit_val 4 out val) ++ rest) st e)
   = (Ok val, mkWorld rest st e)) /\
  (forall bs, (length bs < w)%nat ->
     read_val w (mkWorld bs st e) = (Throw unexpected_EOF, mkWorld bs st e)) /\
  (forall bs, (w <= length bs)%nat ->
     read_val w (mkWorld bs st e)
     = (Ok (le_combine (take w bs)), mkWorld (drop w bs) st e)).
Proof.
  unfold emit_val, emit. rewrite !drop_app_length.
  assert (Hrun : forall n v,
            read_val n (mkWorld (le_split n v ++ rest) st e)
            = (Ok (le_combine (le_split n v)), mkWorld rest st e)).
  { intros n v. rewrite read_val_enough by (rewrite length_app, length_le_split; lia).
    rewrite <- (length_le_split n v) at 1 3.
    rewrite take_app_length, drop_app_length. reflexivity. }
  split; [| split; [| split]].
  - rewrite Hrun, le_combine_split, (Z.mul_comm (Z.of_nat w) 8). reflexivity.
  - intros Hval. unfold read_i32. erewrite bind_ok by apply Hrun.
    rewrite (le_combine_split_i32 val Hval). reflexivity.
  - intros bs Hlen. apply read_val_short. exact Hlen.
  - intros bs Hlen. apply read_val_enough. exact Hlen.
Qed.
(** * Records cut short *)

(** A record that fits, with less payload in the stream than it declares. *)
Lemma load_chunks_cut (fuel : nat) (cr td offset len : Z) (part cur : list byte)
  (st : State) (e : list diag) :
  0 <= offset -> offset + len <= Z.of_nat (length cur) ->
  Z.of_nat (length cur) < 2 ^ 63 -> Z.of_nat (length part) < len ->
  load_chunks (S fuel) cr td
    (mkWorld (le_split 8 offset ++ le_split 8 len ++ part) (set_arena_of st cur) e)
  = (Throw unexpected_EOF, mkWorld part (set_arena_of st cur) e).
Proof.
  intros Hoff Hin Hsize Hcut. cbn [load_chunks].
  unfold mbind at 1, prog_bind at 1, remaining. cbn [r].
  rewrite !length_app, !length_le_split.
  destruct (Z.ltb_spec (Z.of_nat (8 + (8 + length part))) 16); [lia |].
  erewrite bind_ok by (apply run_read_val; simpl; lia).
  erewrite bind_ok by (apply run_read_val; simpl; lia).
  destruct (Z.eqb_spec offset SENTINEL_ADDR) as [Heq | _];
    [unfold SENTINEL_ADDR in Heq; lia |].
  unfold mbind at 1, prog_bind at 1, get_live. cbn [live set_arena_of memory arena with_arena].
  unfold to_u64. rewrite Z.mod_small by lia.
  destruct (Z.gtb_spec (offset + len) (Z.of_nat (length cur))); [lia |].
  unfold mbind at 1, prog_bind at 1, read_into. cbn [r].
  destruct (Z.ltb_spec (Z.of_nat (length part)) len); [| lia].
  destruct (Z.ltb_spec len (2 ^ 63)); [reflexivity | lia].
Qed.

(** A record that does not fit, with less payload in the stream than it
    declares: the reader stays where the payload starts. *)
Lemma load_chunks_unfit_cut (fuel : nat) (cr td offset len : Z) (rest : list byte)
  (st : State) (e : list diag) :
  is_u64 offset -> offset <> SENTINEL_ADDR -> is_u64 len ->
  to_u64 (offset + len) > Z.of_nat (length (arena (memory st))) ->
  Z.of_nat (length rest) < len ->
  load_chunks (S fuel) cr td (mkWorld (le_split 8 offset ++ le_split 8 len ++ rest) st e)
  = load_chunks fuel cr td
      (mkWorld rest st
         (e ++ [chunk_exceeds offset len (Z.of_nat (length (arena (memory st))))])).
Proof.
  intros Hoff Hns Hlen Hbig Hcut. cbn [load_chunks].
  unfold mbind at 1, prog_bind at 1, remaining. cbn [r].
  rewrite !length_app, !length_le_split.
  destruct (Z.ltb_spec (Z.of_nat (8 + (8 + length rest))) 16); [lia |].
  unfold is_u64 in *.
  erewrite bind_ok by (apply run_read_val; simpl; lia).
  erewrite bind_ok by (apply run_read_val; simpl; lia).
  destruct (Z.eqb_spec offset SENTINEL_ADDR) as [Heq | _]; [contradiction |].
  unfold mbind at 1, prog_bind at 1, get_live. cbn [live].
  destruct (Z.gtb_spec (to_u64 (offset + len)) (Z.of_nat (length (arena (memory st)))));
    [| lia].
  unfold mbind at 1, prog_bind at 1, fprintf. cbn [r live stderr].
  unfold mbind at 1, prog_bind at 1, remaining. cbn [r live stderr].
  destruct (Z.leb_spec len (Z.of_nat (length rest))); [lia |].
  unfold mbind at 1, prog_bind at 1, mret, prog_ret.
  reflexivity.
Qed.

(** X19.  A record that does not fit the arena and declares more payload
    than the stream still holds is reported but not stepped over
    ([if (r.remaining() >= len) r.p += len]): no "unexpected EOF" is
    raised, the reader stays right behind the 16-byte header, and with
    fewer than 16 bytes left the arena stage completes with a zeroed arena
    and no record copied. *)
Theorem unfit_record_cut_short (offset len : Z) (rest : list byte) (st : State)
  (e : list diag) :
  is_u64 offset -> offset <> SENTINEL_ADDR -> is_u64 len ->
  to_u64 (offset + len) > Z.of_nat (length (arena (memory st))) ->
  Z.of_nat (length rest) < len -> (length rest < 16)%nat ->
  load_arena (mkWorld (le_split 8 offset ++ le_split 8 len ++ rest) st e)
  = (Ok (0, 0),
     mkWorld rest (arena_loaded st (zeros (length (arena (memory st)))))
       (e ++ [chunk_exceeds offset len (Z.of_nat (length (arena (memory st))))])).
Proof.
  intros Hoff Hns Hlen Hbig Hcut Hshort.
  rewrite load_arena_start, !length_app, !length_le_split.
  cbn [Nat.add].
  rewrite load_chunks_unfit_cut;
    [| exact Hoff | exact Hns | exact Hlen
     | cbn [set_arena_of memory arena with_arena]; rewrite zeros_length; exact Hbig
     | exact Hcut].
  rewrite load_chunks_exhausted by exact Hshort.
  cbn [set_arena_of memory arena with_arena]. rewrite zeros_length. reflexivity.
Qed.

Lemma unfit_record_cut_short_witness :
  load_arena (mkWorld (le_split 8 2 ++ le_split 8 100 ++ [Byte.x07; Byte.x08])
                demo_target [])
  = (Ok (0, 0),
     mkWorld [Byte.x07; Byte.x08] (arena_loaded demo_target (zeros 3))
       [chunk_exceeds 2 100 3]).
Proof.
  apply (unfit_record_cut_short 2 100 [Byte.x07; Byte.x08] demo_target []).
  - unfold is_u64. lia.
  - unfold SENTINEL_ADDR. lia.
  - unfold is_u64. lia.
  - vm_compute. reflexivity.
  - vm_compute. reflexivity.
  - cbn [length]. lia.
Defined.

(** X20.  A saved blob cut inside the payload of its first chunk record
    fails with "unexpected EOF" after the arena has been zeroed and the
    decoder cache evicted: the arena of the target is lost, the scheduler
    block and the descriptor maps are already those of the blob, while the
    CPU is still the target's. *)
Theorem cut_in_payload_clobbers_arena (s t : State) (rec : Z * list byte)
  (recs : list (Z * list byte)) (j : nat) :
  well_formed s -> same_layout s t ->
  arena_records (arena (memory s)) = rec :: recs ->
  (j < length (snd rec))%nat ->
  let blob := save_checkpoint s in
  let n := (length blob - length (save_arena [] (arena (memory s))) + 16 + j)%nat in
  exists w',
    load_checkpoint (start (take n blob) t) = (Throw unexpected_EOF, w') /\
    arena (memory (live w')) = zeros (length (arena (memory t))) /\
    execute_segments (memory (live w')) = [] /\
    cpu (live w') = cpu t /\
    g_sched (sys (live w')) = g_sched (sys s) /\
    g_epoll_instances (sys (live w')) = g_epoll_instances (sys s) /\
    g_eventfd_counters (sys (live w')) = g_eventfd_counters (sys s).
Proof.
  intros Hwf Hlay Hrecs Hj blob n. subst blob n.
  pose proof Hlay as (Harena & Hsched & Hreg & Hfl).
  pose proof Hwf as ((_ & _ & Hsreg & _ & Hsfl & _) & (_ & _ & _ & Hsize) & _).
  destruct (decodes_sections _ always_refl always_trans ltac:(intros; exact I) s t Hwf Hsched)
    as (Hsec & _).
  pose proof (arena_records_sparse (arena (memory s))) as Hsparse.
  rewrite Hrecs in Hsparse. apply Forall_cons in Hsparse as [Hrec _].
  destruct Hrec as (H0 & _ & _ & Hfit & _).
  rewrite save_checkpoint_layout by assumption.
  rewrite length_app, Nat.add_sub.
  rewrite save_arena_as_records, Hrecs.
  unfold enc_records. cbn [map concat]. unfold enc_record at 1.
  rewrite <- !app_assoc.
  replace (length (enc_sections s) + 16 + j)%nat
    with (length (enc_sections s) + (8 + (8 + j)))%nat by lia.
  rewrite take_app_add'; [| reflexivity].
  rewrite (take_app_add' (le_split 8 (fst rec))) by (rewrite length_le_split; reflexivity).
  rewrite (take_app_add' (le_split 8 (Z.of_nat (length (snd rec))))) by (rewrite length_le_split; reflexivity).
  rewrite take_app_le by lia.
  eexists. split.
  { unfold load_checkpoint, load_until_arena, start.
    erewrite bind_throw; [reflexivity |].
    erewrite bind_ok by apply Hsec. cbv beta.
    erewrite bind_throw; [reflexivity |].
    rewrite load_arena_start, !length_app, !length_le_split. cbn [Nat.add].
    apply load_chunks_cut.
    - exact H0.
    - rewrite zeros_length. cbn [memory arena parsed_into]. lia.
    - rewrite zeros_length. cbn [memory arena parsed_into]. lia.
    - rewrite length_take. lia. }
  cbn [live set_arena_of memory with_arena arena execute_segments evict_execute_segments
       cpu sys parsed_into g_sched g_epoll_instances g_eventfd_counters].
  repeat split; reflexivity.
Qed.

Lemma cut_in_payload_clobbers_arena_witness :
  exists w',
    load_checkpoint (start (take 767 (save_checkpoint demo_saved)) demo_target)
    = (Throw unexpected_EOF, w') /\
    arena (memory (live w')) = zeros 3 /\
    arena (memory demo_target) = [Byte.xff; Byte.xff; Byte.xff] /\
    cpu (live w') = cpu demo_target.
Proof.
  destruct (cut_in_payload_clobbers_arena demo_saved demo_target
              (0, [Byte.x00; Byte.x01; Byte.x00]) [] 1
              demo_saved_well_formed demo_same_layout)
    as (w' & Hrun & Harena & _ & Hcpu & _).
  - vm_compute. reflexivity.
  - cbn. lia.
  - assert (Hn : (length (save_checkpoint demo_saved)
                  - length (save_arena [] (arena (memory demo_saved))) + 16 + 1 = 767)%nat)
      by (vm_compute; reflexivity).
    rewrite Hn in Hrun.
    exists w'. split; [exact Hrun |]. split; [exact Harena |].
    split; [reflexivity | exact Hcpu].
Defined.
(** * Loading into an arena of another size *)

Lemma write_at_pad (x pad : list byte) (rec : Z * list byte) :
  0 <= fst rec -> fits (length x) rec = true ->
  write_at (x ++ pad) rec = write_at x rec ++ pad.
Proof.
  unfold fits, write_at. intros Hoff Hfit. apply Z.leb_le in Hfit.
  rewrite take_app_le by lia. rewrite drop_app_le by lia.
  rewrite <- !app_assoc. reflexivity.
Qed.

Lemma foldl_write_at_pad (recs : list (Z * list byte)) (pad : list byte) :
  forall x : list byte,
  Forall (fun rec => 0 <= fst rec /\ fits (length x) rec = true) recs ->
  foldl write_at (x ++ pad) recs = foldl write_at x recs ++ pad.
Proof.
  induction recs as [| rec recs IH]; intros x Hall; [reflexivity |].
  apply Forall_cons in Hall as [[Hoff Hfit] Hall]. cbn [foldl].
  rewrite write_at_pad by assumption. apply IH.
  rewrite write_at_length by assumption. exact Hall.
Qed.

(** X21.  The blob does not record the size of the arena and
    [load_checkpoint] does not compare it: a saved blob loads into a
    machine whose arena has any other size.  The load completes and
    restores the CPU; the arena is zeroed and receives the records that
    fit; each record that reaches beyond the arena is dropped with one
    warning, printed between the eventfd line and the executable-page
    line.  Into an arena at least as large as the saved one nothing is
    dropped, and the arena holds the saved bytes followed by zeros. *)
Theorem load_into_other_arena (s t : State) :
  well_formed s ->
  length (g_sched (sys t)) = length (g_sched (sys s)) ->
  length (reg (cpu t)) = 32%nat -> length (fl (cpu t)) = 32%nat ->
  Z.of_nat (length (arena (memory t))) < 2 ^ 63 ->
  let a := arena (memory s) in
  let n := length (arena (memory t)) in
  let fit := List.filter (fits n) (arena_records a) in
  let unfit := List.filter (fun rec => negb (fits n rec)) (arena_records a) in
  exists w',
    load_checkpoint (start (save_checkpoint s) t) = (Ok tt, w') /\
    cpu (live w') = cpu s /\
    arena (memory (live w')) = foldl write_at (zeros n) fit /\
    length (arena (memory (live w'))) = n /\
    stderr w'
    = [restored_epoll (Z.of_nat (size (g_epoll_instances (sys s))));
       restored_eventfd (Z.of_nat (size (g_eventfd_counters (sys s))))]
      ++ map (warning n) unfit
      ++ [restored_exec_pages (Z.of_nat (length (collect_exec_pages (pages (memory s)))));
          loaded (Z.of_nat (length fit)) (payload_bytes fit) (pc (cpu s));
          loaded_mm (mmap_address (memory s)) (brk_base (g_exec_ctx (sys s)))
                    (brk_current (g_exec_ctx (sys s)))] /\
    ((length a <= n)%nat ->
     unfit = [] /\ arena (memory (live w')) = a ++ zeros (n - length a)).
Proof.
  intros Hwf Hsched Hreg Hfl Hsize a n fit unfit.
  pose proof Hwf as ((_ & _ & Hsreg & _ & Hsfl & _) & (_ & _ & _ & Hasize) & _).
  destruct (decodes_sections _ always_refl always_trans ltac:(intros; exact I) s t Hwf Hsched)
    as (Hsec & _).
  pose proof (arena_records_sparse a) as Hsparse.
  assert (Hplain : Forall plain_record (arena_records a)).
  { eapply Forall_impl; [exact Hsparse |]. intros rec Hrec.
    apply (sparse_record_plain a rec Hasize Hrec). }
  destruct (load_chunks_records (arena_records a)
              (length (enc_records (arena_records a) ++ sentinel_record ++ [])) 0 0
              (sentinel_record ++ []) (zeros n)
              (mkState (cpu (parsed_into s t))
                 (evict_execute_segments (memory (parsed_into s t)))
                 (sys (parsed_into s t)))
              ([] ++ [restored_epoll (Z.of_nat (size (g_epoll_instances (sys s))));
                      restored_eventfd (Z.of_nat (size (g_eventfd_counters (sys s))))])
              Hplain)
    as (fuel' & Hrun & Hfuel' & Hlen).
  { rewrite zeros_length. exact Hsize. }
  { lia. }
  cbv zeta in Hrun, Hlen. rewrite zeros_length in Hrun, Hlen.
  fold fit unfit in Hrun, Hlen.
  destruct fuel' as [| fuel'].
  { rewrite length_app in Hfuel'. change (length sentinel_record) with 16%nat in Hfuel'. lia. }
  unfold sentinel_record in Hrun at 3. rewrite <- app_assoc in Hrun.
  rewrite load_chunks_sentinel in Hrun by (unfold is_u64; lia).
  rewrite !Z.add_0_l in Hrun.
  eexists. split.
  { rewrite save_checkpoint_layout by assumption.
    rewrite save_arena_as_records. fold a.
    unfold load_checkpoint, load_until_arena, start.
    erewrite bind_ok;
      [| erewrite bind_ok by apply Hsec; cbv beta;
         erewrite bind_ok;
         [reflexivity
         | rewrite load_arena_start; cbn [memory arena parsed_into]; fold n;
           rewrite <- (app_nil_r sentinel_record) at 1 2; exact Hrun]].
    cbn [fst snd]. rewrite restore_report. reflexivity. }
  cbn [live stderr set_arena_of memory with_arena arena cpu sys parsed_into
       evict_execute_segments].
  split; [apply restore_cpu_saved; assumption |].
  split; [reflexivity |].
  split; [exact Hlen |].
  split.
  { cbn [locals_of l_pc l_mmap_addr l_brk_base l_brk_current fst snd].
    rewrite <- !app_assoc. reflexivity. }
  intros Hle.
  assert (Hfits : Forall (fun rec => fits (length a) rec = true) (arena_records a)).
  { eapply Forall_impl; [exact Hsparse |]. intros rec Hrec.
    apply (sparse_record_plain a rec Hasize Hrec). }
  assert (Hfits' : Forall (fun rec => fits n rec = true) (arena_records a)).
  { eapply Forall_impl; [exact Hfits |]. cbv beta. unfold fits. intros rec Hrec.
    apply Z.leb_le in Hrec. apply Z.leb_le. lia. }
  split.
  - unfold unfit. apply filter_none. exact Hfits'.
  - unfold fit. rewrite (filter_all _ _ Hfits').
    replace (zeros n) with (zeros (length a) ++ zeros (n - length a))
      by (rewrite <- zeros_add; f_equal; lia).
    rewrite foldl_write_at_pad.
    + rewrite arena_records_rebuild by exact Hasize. reflexivity.
    + rewrite zeros_length.
      apply Forall_forall. intros rec Hin. split.
      * rewrite Forall_forall in Hplain. apply (Hplain rec Hin).
      * rewrite Forall_forall in Hfits. apply (Hfits rec Hin).
Qed.

Lemma load_into_other_arena_witness :
  exists w',
    load_checkpoint (start (save_checkpoint demo_saved) (set_arena_of demo_target (zeros 2)))
    = (Ok tt, w') /\
    arena (memory (live w')) = zeros 2 /\
    stderr w'
    = [restored_epoll 2; restored_eventfd 1; chunk_exceeds 0 3 2;
       restored_exec_pages 1; loaded 0 0 4096; loaded_mm 77 1 2].
Proof.
  destruct (load_into_other_arena demo_saved (set_arena_of demo_target (zeros 2))
              demo_saved_well_formed eq_refl eq_refl eq_refl)
    as (w' & Hrun & _ & Harena & _ & Herr & _).
  - cbn. lia.
  - exists w'. split; [exact Hrun |]. split.
    + rewrite Harena. vm_compute. reflexivity.
    + rewrite Herr. vm_compute. reflexivity.
Defined.
(** * A saved blob cut short *)

Lemma length_enc_sched (k : Syscalls) :
  length (enc_sched k) = (length (g_sched k) + 8)%nat.
Proof. unfold enc_sched. rewrite !length_app, !length_le_split. lia. Qed.

Lemma start_of_chunks_sections (s : State) :
  length (reg (cpu s)) = 32%nat -> length (fl (cpu s)) = 32%nat ->
  start_of_chunks s = length (enc_sections s).
Proof.
  intros Hreg Hfl. unfold start_of_chunks.
  rewrite save_checkpoint_layout by assumption. rewrite length_app. lia.
Qed.

Lemma after_sched_parses (l : Locals) :
  parses True (fun _ => True) maps_only 0 (fun _ => True) (load_epoll;; load_eventfd;; exec_pages ← load_exec_pages; mret (l, exec_pages)).
Proof.
  parse_any.
  parse_with parses_bind; [parse_with load_epoll_parses | intros _ _].
  parse_with parses_bind; [parse_with load_eventfd_parses | intros _ _].
  parse_with parses_bind; [parse_with load_exec_pages_parses | intros ep _].
  parse_with parses_ret_any.
Qed.

Lemma after_epoll_parses (l : Locals) :
  parses True (fun _ => True) eventfd_only 0 (fun _ => True) (load_eventfd;; exec_pages ← load_exec_pages; mret (l, exec_pages)).
Proof.
  parse_any.
  parse_with parses_bind; [parse_with load_eventfd_parses | intros _ _].
  parse_with parses_bind; [parse_with load_exec_pages_parses | intros ep _].
  parse_with parses_ret_any.
Qed.

Lemma after_eventfd_parses (l : Locals) :
  parses True (fun _ => True) same_live 0 (fun _ => True) (exec_pages ← load_exec_pages; mret (l, exec_pages)).
Proof.
  parse_any.
  parse_with parses_bind; [parse_with load_exec_pages_parses | intros ep _].
  parse_with parses_ret_any.
Qed.

(** The sections of a saved blob, read up to the end of the scheduler
    block, of the epoll section, of the eventfd section. *)
Lemma sections_run_sched (s t : State) (rest : list byte) (e : list diag) :
  well_formed s -> length (g_sched (sys t)) = length (g_sched (sys s)) ->
  load_sections
    (mkWorld (enc_header ++ enc_locals s ++ enc_sched (sys s) ++ rest) t e)
  = (load_epoll;; load_eventfd;; exec_pages ← load_exec_pages;
     mret (locals_of s, exec_pages))
      (mkWorld rest
         (mkState (cpu t) (memory t)
            (with_next_epoll_fd (g_next_epoll_fd (sys s))
               (with_next_pid (g_next_pid (sys s))
                  (with_sched (g_sched (sys s)) (sys t))))) e).
Proof.
  intros (Hcpu & (Hmmap & _) & (Hctx & Hpid & Hefd & _)) Hlen.
  destruct (decodes_header _ always_refl always_trans t) as (Hh & _).
  destruct (decodes_locals _ always_refl always_trans s t Hcpu Hmmap Hctx) as (Hl & _).
  destruct (decodes_sched _ always_refl always_trans ltac:(intros; exact I)
              (sys s) t Hlen Hpid Hefd) as (Hs & _).
  unfold load_sections.
  erewrite bind_ok by apply Hh. cbv beta.
  erewrite bind_ok by apply Hl. cbv beta.
  erewrite bind_ok by apply Hs. cbv beta.
  rewrite !app_nil_r. reflexivity.
Qed.

Lemma sections_run_epoll (s t : State) (rest : list byte) (e : list diag) :
  well_formed s -> length (g_sched (sys t)) = length (g_sched (sys s)) ->
  load_sections
    (mkWorld (enc_header ++ enc_locals s ++ enc_sched (sys s) ++
              enc_epoll (g_epoll_instances (sys s)) ++ rest) t e)
  = (load_eventfd;; exec_pages ← load_exec_pages; mret (locals_of s, exec_pages))
      (mkWorld rest
         (upd_epoll (fun _ => g_epoll_instances (sys s))
            (mkState (cpu t) (memory t)
               (with_next_epoll_fd (g_next_epoll_fd (sys s))
                  (with_next_pid (g_next_pid (sys s))
                     (with_sched (g_sched (sys s)) (sys t))))))
         (e ++ [restored_epoll (Z.of_nat (size (g_epoll_instances (sys s))))])).
Proof.
  intros Hwf Hlen. rewrite sections_run_sched by assumption.
  destruct Hwf as (_ & _ & (_ & _ & _ & Hnep & Hep & _)).
  match goal with |- _ (mkWorld _ ?t1 _) = _ =>
    destruct (decodes_epoll _ always_refl always_trans ltac:(intros; exact I)
                (g_epoll_instances (sys s)) t1 Hnep Hep) as (He & _)
  end.
  erewrite bind_ok by apply He. reflexivity.
Qed.

Lemma sections_run_eventfd (s t : State) (rest : list byte) (e : list diag) :
  well_formed s -> length (g_sched (sys t)) = length (g_sched (sys s)) ->
  load_sections
    (mkWorld (enc_header ++ enc_locals s ++ enc_sched (sys s) ++
              enc_epoll (g_epoll_instances (sys s)) ++
              enc_eventfd (g_eventfd_counters (sys s)) ++ rest) t e)
  = (exec_pages ← load_exec_pages; mret (locals_of s, exec_pages))
      (mkWorld rest (parsed_into s t)
         ((e ++ [restored_epoll (Z.of_nat (size (g_epoll_instances (sys s))))])
          ++ [restored_eventfd (Z.of_nat (size (g_eventfd_counters (sys s))))])).
Proof.
  intros Hwf Hlen. rewrite sections_run_epoll by assumption.
  destruct Hwf as (_ & _ & (_ & _ & _ & _ & _ & Hnev & Hev)).
  match goal with |- _ (mkWorld _ ?t2 _) = _ =>
    destruct (decodes_eventfd _ always_refl always_trans ltac:(intros; exact I)
                (g_eventfd_counters (sys s)) t2 Hnev Hev) as (He & _)
  end.
  erewrite bind_ok by apply He. reflexivity.
Qed.

Lemma length_enc_sections (s : State) :
  length (reg (cpu s)) = 32%nat -> length (fl (cpu s)) = 32%nat ->
  length (enc_sections s)
  = (end_of_eventfd s
     + length (enc_exec_pages (collect_exec_pages (pages (memory s)))))%nat.
Proof.
  intros Hreg Hfl. unfold enc_sections, end_of_eventfd, end_of_epoll, end_of_sched.
  rewrite !length_app, length_enc_header, length_enc_locals, length_enc_sched by assumption.
  lia.
Qed.

(** A blob cut in the sections. *)
Lemma load_sections_cut (s t : State) (n : nat) :
  well_formed s -> same_layout s t ->
  Z.of_nat (length (enc_sections s)) < 2 ^ 63 ->
  (n < length (enc_sections s))%nat ->
  exists w',
    load_sections (mkWorld (take n (enc_sections s)) t []) = (Throw unexpected_EOF, w') /\
    sections_untouched t (live w') /\
    ((n < 656)%nat -> live w' = t) /\
    ((end_of_sched s <= n)%nat ->
     g_sched (sys (live w')) = g_sched (sys s) /\
     g_next_pid (sys (live w')) = g_next_pid (sys s) /\
     g_next_epoll_fd (sys (live w')) = g_next_epoll_fd (sys s)) /\
    ((end_of_epoll s <= n)%nat ->
     g_epoll_instances (sys (live w')) = g_epoll_instances (sys s)) /\
    ((end_of_eventfd s <= n)%nat -> live w' = parsed_into s t).
Proof.
  intros Hwf Hlay Hbound Hn.
  pose proof Hwf as ((_ & _ & Hreg & _ & Hfl & _) & _).
  pose proof Hlay as (_ & Hsched & _).
  destruct (decodes_sections _ sections_untouched_refl sections_untouched_trans
              sections_untouched_sys s t Hwf Hsched) as (_ & Hshort & _).
  destruct (Hshort Hbound n [] Hn) as (w' & Hrun & HR).
  exists w'. split; [exact Hrun |]. split; [exact HR |].
  assert (Hh : length enc_header = 16%nat) by apply length_enc_header.
  pose proof (length_enc_locals s Hreg Hfl) as Hl.
  pose proof (length_enc_sched (sys s)) as Hs.
  split; [| split; [| split]].
  - intros H656.
    destruct (load_sections_short_fixed s t n [] Hwf H656) as (w'' & Hrun' & Hlive).
    rewrite Hrun in Hrun'. injection Hrun' as <-. exact Hlive.
  - intros Hge. unfold end_of_sched in Hge.
    unfold enc_sections in Hrun.
    rewrite take_app_ge in Hrun by lia.
    rewrite (take_app_ge (enc_locals s)) in Hrun by lia.
    rewrite (take_app_ge (enc_sched (sys s))) in Hrun by lia.
    rewrite sections_run_sched in Hrun by assumption.
    destruct (after_sched_parses _ _ _ _ Hrun) as ((_ & H1 & H2 & H3) & _).
    cbn [live sys g_sched g_next_pid g_next_epoll_fd with_next_epoll_fd with_next_pid
         with_sched] in H1, H2, H3.
    split; [exact H1 | split; [exact H2 | exact H3]].
  - intros Hge. unfold end_of_epoll, end_of_sched in Hge.
    unfold enc_sections in Hrun.
    rewrite take_app_ge in Hrun by lia.
    rewrite (take_app_ge (enc_locals s)) in Hrun by lia.
    rewrite (take_app_ge (enc_sched (sys s))) in Hrun by lia.
    rewrite (take_app_ge (enc_epoll _)) in Hrun by lia.
    rewrite sections_run_epoll in Hrun by assumption.
    destruct (after_epoll_parses _ _ _ _ Hrun) as ((_ & H1) & _).
    exact H1.
  - intros Hge. unfold end_of_eventfd, end_of_epoll, end_of_sched in Hge.
    unfold enc_sections in Hrun.
    rewrite take_app_ge in Hrun by lia.
    rewrite (take_app_ge (enc_locals s)) in Hrun by lia.
    rewrite (take_app_ge (enc_sched (sys s))) in Hrun by lia.
    rewrite (take_app_ge (enc_epoll _)) in Hrun by lia.
    rewrite (take_app_ge (enc_eventfd _)) in Hrun by lia.
    rewrite sections_run_eventfd in Hrun by assumption.
    destruct (after_eventfd_parses _ _ _ _ Hrun) as (H1 & _).
    exact H1.
Qed.

(** Where a cut of a chunk stream falls: in the first 16 bytes of what
    follows some records, or in the payload of a record. *)
Lemma cut_position (recs : list (Z * list byte)) (m : nat) :
  (m < length (enc_records recs) + 16)%nat ->
  exists pre post j,
    recs = pre ++ post /\ m = (length (enc_records pre) + j)%nat /\
    ((j < 16)%nat \/
     exists rec post', post = rec :: post' /\ (16 <= j < 16 + length (snd rec))%nat).
Proof.
  revert m. induction recs as [| rec recs IH]; intros m Hm.
  - exists [], [], m. cbn in Hm |- *. split; [reflexivity |]. split; [reflexivity |].
    left. lia.
  - unfold enc_records in Hm. cbn [map concat] in Hm.
    rewrite length_app, enc_record_length in Hm. fold (enc_records recs) in Hm.
    destruct (Nat.lt_ge_cases m (16 + length (snd rec))) as [Hlt | Hge].
    + exists [], (rec :: recs), m. split; [reflexivity |]. split; [reflexivity |].
      destruct (Nat.lt_ge_cases m 16) as [H16 | H16]; [left; exact H16 |].
      right. exists rec, recs. split; [reflexivity | lia].
    + destruct (IH (m - (16 + length (snd rec)))%nat ltac:(lia))
        as (pre & post & j & -> & Hj & Hcase).
      exists (rec :: pre), post, j. split; [reflexivity |]. split; [| exact Hcase].
      unfold enc_records. cbn [map concat]. rewrite length_app, enc_record_length.
      fold (enc_records pre). lia.
Qed.

(** Everything after the chunk loop, on the sections of a saved blob and
    any arena. *)
Lemma restore_upto (s t : State) (counters : Z * Z) (a : list byte) (rest : list byte)
  (e : list diag) :
  well_formed s -> same_layout s t ->
  restore (locals_of s) (collect_exec_pages (pages (memory s))) counters
    (mkWorld rest (arena_loaded (parsed_into s t) a) e)
  = (Ok tt,
     mkWorld rest (set_arena_of (restored s t) a)
       (((e ++ [restored_exec_pages
                  (Z.of_nat (length (collect_exec_pages (pages (memory s)))))])
         ++ [loaded (fst counters) (snd counters) (pc (cpu s))])
        ++ [loaded_mm (mmap_address (memory s)) (brk_base (g_exec_ctx (sys s)))
              (brk_current (g_exec_ctx (sys s)))])).
Proof.
  intros Hwf (Harena & Hsched & Hreg & Hfl).
  pose proof Hwf as ((_ & _ & Hsreg & _ & Hsfl & _) & _).
  rewrite restore_report.
  unfold restored, pages_restored, arena_loaded, set_arena_of, parsed_into.
  cbn [r live stderr cpu memory sys with_pages with_arena with_mmap_address
       evict_execute_segments with_exec_ctx with_waiting_for_stdin mmap_address pages
       arena execute_segments g_exec_ctx g_sched g_next_pid g_next_epoll_fd
       g_epoll_instances g_eventfd_counters g_waiting_for_stdin].
  rewrite restore_cpu_saved, restore_exec_ctx_saved by assumption.
  reflexivity.
Qed.

(** The records of a saved arena are plain and fit the arena. *)
Lemma arena_records_fit (a : list byte) :
  Z.of_nat (length a) < 2 ^ 63 ->
  Forall plain_record (arena_records a) /\
  Forall (fun rec => fits (length a) rec = true) (arena_records a).
Proof.
  intros Hsize. pose proof (arena_records_sparse a) as Hsparse.
  split; (eapply Forall_impl; [exact Hsparse |]); intros rec Hrec;
    apply (sparse_record_plain a rec Hsize Hrec).
Qed.

(** The chunk loop up to a cut of the stream of a saved arena. *)
Lemma load_arena_upto (a : list byte) (pre post : list (Z * list byte)) (rest : list byte)
  (st : State) (e : list diag) :
  Z.of_nat (length a) < 2 ^ 63 -> length (arena (memory st)) = length a ->
  arena_records a = pre ++ post ->
  exists fuel',
    load_arena (mkWorld (enc_records pre ++ rest) st e)
    = load_chunks fuel' (Z.of_nat (length pre)) (payload_bytes pre)
        (mkWorld rest (arena_loaded st (arena_after (length a) pre)) e) /\
    (length rest <= fuel')%nat /\
    length (arena_after (length a) pre) = length a.
Proof.
  intros Hsize Hst Hrecs.
  destruct (arena_records_fit a Hsize) as (Hplain & Hfits).
  rewrite Hrecs in Hplain, Hfits.
  apply Forall_app in Hplain as [Hplain _]. apply Forall_app in Hfits as [Hfits _].
  rewrite load_arena_start.
  destruct (load_chunks_records pre (length (enc_records pre ++ rest)) 0 0 rest
              (zeros (length (arena (memory st))))
              (mkState (cpu st) (evict_execute_segments (memory st)) (sys st)) e Hplain)
    as (fuel' & Hrun & Hfuel' & Hlen).
  { rewrite zeros_length, Hst. exact Hsize. }
  { lia. }
  cbv zeta in Hrun, Hlen. rewrite zeros_length, Hst in Hrun, Hlen.
  rewrite (filter_all _ _ Hfits) in Hrun, Hlen.
  rewrite (filter_none _ _ Hfits) in Hrun. cbn [map] in Hrun.
  rewrite app_nil_r, !Z.add_0_l in Hrun.
  exists fuel'. rewrite Hst. split; [exact Hrun |]. split; [exact Hfuel' | exact Hlen].
Qed.

(** The prefix of a saved blob that ends [j] bytes into what follows the
    records [pre] of its chunk stream. *)
Lemma take_blob_upto (s : State) (pre post : list (Z * list byte)) (j : nat) :
  length (reg (cpu s)) = 32%nat -> length (fl (cpu s)) = 32%nat ->
  arena_records (arena (memory s)) = pre ++ post ->
  take (start_of_chunks s + length (enc_records pre) + j) (save_checkpoint s)
  = enc_sections s ++ enc_records pre ++ take j (enc_records post ++ sentinel_record).
Proof.
  intros Hreg Hfl Hrecs.
  rewrite start_of_chunks_sections by assumption.
  rewrite save_checkpoint_layout by assumption.
  rewrite save_arena_as_records, Hrecs, enc_records_app, <- app_assoc.
  rewrite <- Nat.add_assoc.
  rewrite take_app_add' by reflexivity.
  rewrite take_app_add' by reflexivity.
  reflexivity.
Qed.

(** C2, as amended.  Take the blob saved from a well-formed [s] - a blob
    has fewer than 2^63 bytes - and a machine [t] of the same layout, and
    cut the blob anywhere before its end.  The cut lies in the sections in
    front of the chunk stream, or in the chunk stream within the first 16
    bytes of what follows some records (a record header, or the sentinel),
    or in the payload of a record; these are all the cases.

    Cut in the sections: [load_checkpoint] raises "unexpected EOF".  The
    CPU, the memory (arena, page table, mmap pointer), the exec context
    and the resume flag of [t] are untouched, and when the cut lies in the
    first 656 bytes (header and fixed-size fields) nothing at all has
    changed.  But what was parsed has been written and stays: behind the
    scheduler block and its two counters the globals hold those of the
    blob, behind the epoll section also its epoll map, behind the
    eventfd section the whole kernel state of the blob.

    Cut in the chunk stream, at a record boundary or less than 16 bytes
    further: the chunk loop ends for lack of input and the load completes.
    The machine is the one the whole blob gives, except that the arena
    holds the records in front of the cut only and zeros elsewhere; the
    report counts these records and nothing else is printed.  If no record
    is missing (the cut lies in front of or inside the sentinel) the state
    is exactly that of the whole blob.

    Cut in the payload of a record: [load_checkpoint] raises "unexpected
    EOF" after the decoder cache has been evicted, the arena zeroed and
    the records in front of the cut copied; the kernel state is that of
    the blob, and the CPU, the page table, the mmap pointer, the exec
    context and the resume flag are still those of [t]. *)
Theorem C2_truncated_blob (s t : State) :
  well_formed s -> same_layout s t ->
  Z.of_nat (length (save_checkpoint s)) < 2 ^ 63 ->
  let blob := save_checkpoint s in
  let records := arena_records (arena (memory s)) in
  let size := length (arena (memory s)) in
  (forall n, (n < length blob)%nat ->
     (n < start_of_chunks s)%nat \/
     exists pre post j,
       records = pre ++ post /\
       n = (start_of_chunks s + length (enc_records pre) + j)%nat /\
       ((j < 16)%nat \/
        exists rec post', post = rec :: post' /\ (16 <= j < 16 + length (snd rec))%nat)) /\
  (forall n, (n < start_of_chunks s)%nat ->
     exists w',
       load_checkpoint (start (take n blob) t) = (Throw unexpected_EOF, w') /\
       sections_untouched t (live w') /\
       ((n < 656)%nat -> live w' = t) /\
       ((end_of_sched s <= n)%nat ->
        g_sched (sys (live w')) = g_sched (sys s) /\
        g_next_pid (sys (live w')) = g_next_pid (sys s) /\
        g_next_epoll_fd (sys (live w')) = g_next_epoll_fd (sys s)) /\
       ((end_of_epoll s <= n)%nat ->
        g_epoll_instances (sys (live w')) = g_epoll_instances (sys s)) /\
       ((end_of_eventfd s <= n)%nat -> live w' = parsed_into s t)) /\
  (forall pre post j,
     records = pre ++ post -> (j < 16)%nat ->
     exists w',
       load_checkpoint
         (start (take (start_of_chunks s + length (enc_records pre) + j) blob) t)
       = (Ok tt, w') /\
       live w' = set_arena_of (restored s t) (arena_after size pre) /\
       stderr w' = report_of s pre /\
       (post = [] -> live w' = restored s t)) /\
  (forall pre rec post j,
     records = pre ++ rec :: post -> (j < length (snd rec))%nat ->
     exists w',
       load_checkpoint
         (start (take (start_of_chunks s + length (enc_records pre) + (16 + j)) blob) t)
       = (Throw unexpected_EOF, w') /\
       live w' = arena_loaded (parsed_into s t) (arena_after size pre)).
Proof.
  intros Hwf Hlay Hbound blob records size. subst blob records size.
  pose proof Hwf as ((_ & _ & Hreg & _ & Hfl & _) & (_ & _ & _ & Hsize) & _).
  pose proof Hlay as (Harena & Hsched & _).
  pose proof (start_of_chunks_sections s Hreg Hfl) as Hstart.
  pose proof (save_checkpoint_layout s Hreg Hfl) as Hblob.
  pose proof (save_arena_as_records (arena (memory s))) as Hstream.
  destruct (decodes_sections _ always_refl always_trans ltac:(intros; exact I) s t Hwf Hsched)
    as (Hsec & _).
  assert (Hs16 : length sentinel_record = 16%nat) by reflexivity.
  split; [| split; [| split]].
  - (* the cases *)
    intros n Hn. rewrite Hstart.
    destruct (Nat.lt_ge_cases n (length (enc_sections s))) as [Hlt | Hge]; [left; exact Hlt |].
    right.
    destruct (cut_position (arena_records (arena (memory s))) (n - length (enc_sections s)))
      as (pre & post & j & Hrecs & Hj & Hcase).
    { rewrite Hblob, Hstream, !length_app, Hs16 in Hn. lia. }
    exists pre, post, j. split; [exact Hrecs |]. split; [lia | exact Hcase].
  - (* in the sections *)
    intros n Hn. rewrite Hstart in Hn.
    destruct (load_sections_cut s t n Hwf Hlay) as (w' & Hrun & Hrest); [| exact Hn |].
    { rewrite Hblob, length_app in Hbound. lia. }
    exists w'. split; [| exact Hrest].
    rewrite Hblob, take_app_le by lia.
    unfold load_checkpoint, load_until_arena, start. apply bind_throw, bind_throw, Hrun.
  - (* between records *)
    intros pre post j Hrecs Hj.
    rewrite (take_blob_upto s pre post j Hreg Hfl Hrecs).
    destruct (load_arena_upto (arena (memory s)) pre post
                (take j (enc_records post ++ sentinel_record)) (parsed_into s t)
                ([] ++ [restored_epoll (Z.of_nat (size (g_epoll_instances (sys s))));
                        restored_eventfd (Z.of_nat (size (g_eventfd_counters (sys s))))])
                Hsize Harena Hrecs)
      as (fuel' & Hrun & _ & _).
    rewrite load_chunks_exhausted in Hrun by (cbn [r]; rewrite length_take; lia).
    eexists. split.
    { unfold load_checkpoint, load_until_arena, start.
      erewrite bind_ok; [| erewrite bind_ok by apply Hsec; cbv beta;
                           erewrite bind_ok by exact Hrun; reflexivity].
      cbn [fst snd]. apply restore_upto; assumption. }
    cbn [live stderr]. split; [reflexivity |]. split; [reflexivity |].
    intros ->. rewrite app_nil_r in Hrecs. subst pre.
    unfold arena_after. rewrite arena_records_rebuild by exact Hsize.
    reflexivity.
  - (* in a payload *)
    intros pre rec post j Hrecs Hj.
    rewrite (take_blob_upto s pre (rec :: post) (16 + j) Hreg Hfl Hrecs).
    unfold enc_records at 2. cbn [map concat]. unfold enc_record at 1.
    rewrite <- !app_assoc.
    change (16 + j)%nat with (8 + (8 + j))%nat.
    rewrite (take_app_add' (le_split 8 (fst rec))) by (rewrite length_le_split; reflexivity).
    rewrite (take_app_add' (le_split 8 (Z.of_nat (length (snd rec)))))
      by (rewrite length_le_split; reflexivity).
    rewrite take_app_le by lia.
    destruct (load_arena_upto (arena (memory s)) pre (rec :: post)
                (le_split 8 (fst rec) ++ le_split 8 (Z.of_nat (length (snd rec))) ++
                 take j (snd rec)) (parsed_into s t)
                ([] ++ [restored_epoll (Z.of_nat (size (g_epoll_instances (sys s))));
                        restored_eventfd (Z.of_nat (size (g_eventfd_counters (sys s))))])
                Hsize Harena Hrecs)
      as (fuel' & Hrun & Hfuel' & Hlen).
    rewrite !length_app, !length_le_split in Hfuel'.
    destruct fuel' as [| fuel']; [lia |].
    pose proof (arena_records_sparse (arena (memory s))) as Hsparse.
    rewrite Hrecs in Hsparse. apply Forall_app in Hsparse as [_ Hsparse].
    apply Forall_cons in Hsparse as [(H0 & _ & _ & Hfit & _) _].
    unfold arena_loaded in Hrun.
    rewrite load_chunks_cut in Hrun;
      [| exact H0 | rewrite Hlen; exact Hfit | rewrite Hlen; exact Hsize
       | rewrite length_take; lia].
    eexists. split.
    { unfold load_checkpoint, load_until_arena, start.
      erewrite bind_throw; [reflexivity |].
      erewrite bind_ok by apply Hsec. cbv beta.
      erewrite bind_throw; [reflexivity | exact Hrun]. }
    reflexivity.
Qed.

Lemma C2_truncated_blob_witness :
  well_formed demo_saved /\ same_layout demo_saved demo_target /\
  Z.of_nat (length (save_checkpoint demo_saved)) < 2 ^ 63 /\
  (exists w',
     load_checkpoint (start (take 700 (save_checkpoint demo_saved)) demo_target)
     = (Throw unexpected_EOF, w') /\
     sections_untouched demo_target (live w') /\
     g_sched (sys (live w')) = g_sched (sys demo_saved)) /\
  (exists w',
     load_checkpoint (start (take 750 (save_checkpoint demo_saved)) demo_target)
     = (Ok tt, w') /\
     live w' = set_arena_of (restored demo_saved demo_target) (zeros 3) /\
     stderr w' = report_of demo_saved []) /\
  (exists w',
     load_checkpoint (start (take 767 (save_checkpoint demo_saved)) demo_target)
     = (Throw unexpected_EOF, w') /\
     live w' = arena_loaded (parsed_into demo_saved demo_target) (zeros 3)).
Proof.
  assert (Hbound : Z.of_nat (length (save_checkpoint demo_saved)) < 2 ^ 63)
    by (vm_compute; reflexivity).
  split; [exact demo_saved_well_formed |]. split; [exact demo_same_layout |].
  split; [exact Hbound |].
  destruct (C2_truncated_blob demo_saved demo_target demo_saved_well_formed
              demo_same_layout Hbound) as (_ & Hsec & Hbetween & Hpayload).
  assert (Hrecs : arena_records (arena (memory demo_saved))
                  = [] ++ [(0, [Byte.x00; Byte.x01; Byte.x00])])
    by (vm_compute; reflexivity).
  split; [| split].
  - destruct (Hsec 700%nat) as (w' & Hrun & Hun & _ & Hsched & _).
    { vm_compute. lia. }
    exists w'. split; [exact Hrun |]. split; [exact Hun |].
    apply Hsched. vm_compute. lia.
  - destruct (Hbetween [] [(0, [Byte.x00; Byte.x01; Byte.x00])] 0%nat Hrecs ltac:(lia))
      as (w' & Hrun & Hlive & Herr & _).
    assert (Hn : (start_of_chunks demo_saved + length (enc_records []) + 0 = 750)%nat)
      by (vm_compute; reflexivity).
    rewrite Hn in Hrun.
    exists w'. split; [exact Hrun |]. split; [exact Hlive | exact Herr].
  - destruct (Hpayload [] (0, [Byte.x00; Byte.x01; Byte.x00]) [] 1%nat Hrecs
                ltac:(cbn; lia)) as (w' & Hrun & Hlive).
    assert (Hn : (start_of_chunks demo_saved + length (enc_records []) + (16 + 1) = 767)%nat)
      by (vm_compute; reflexivity).
    rewrite Hn in Hrun.
    exists w'. split; [exact Hrun | exact Hlive].
Defined.

(** C2 as stated fails twice.  The blob of [demo_saved] without its last
    16 bytes ends before the sentinel, yet the load completes.  And the
    same blob cut after 700 bytes, inside the epoll section, makes the load
    raise with the scheduler block and the next-pid counter of the saved
    machine already written into the globals. *)
Lemma C2_no_sentinel_loads_and_partial_state_stays :
  (length (save_checkpoint demo_saved) = 785)%nat /\
  fst (load_checkpoint (start (take 769 (save_checkpoint demo_saved)) demo_target))
    = Ok tt /\
  fst (load_checkpoint (start (take 700 (save_checkpoint demo_saved)) demo_target))
    = Throw unexpected_EOF /\
  g_sched (sys (live (snd (load_checkpoint
                             (start (take 700 (save_checkpoint demo_saved)) demo_target)))))
    = [Byte.xaa; Byte.xbb] /\
  g_sched (sys demo_target) = [Byte.x00; Byte.x00] /\
  g_next_pid (sys (live (snd (load_checkpoint
                                (start (take 700 (save_checkpoint demo_saved)) demo_target)))))
    = -3 /\
  g_next_pid (sys demo_target) = 0.
Proof. vm_compute. repeat split. Qed.
